(** * Reversi UDP server: board engine, move policy and lobby handlers

    A shallow embedding of [server/reversi_server.py].  Python integers are
    [Z]; a board is a list of rows, each a list of cells, indexed
    [board[y][x]]; the set of legal moves is a [gset] of coordinate pairs; the
    dictionary of live lobbies is a [gmap] keyed by lobby id.  Handlers are
    written in explicit state-passing style: they take the server state (live
    lobbies and the datagrams sent so far) and return the new one, together
    with [Ok] or the exception that left them.  The two scanning loops run on
    a fuel of 8 steps, shown to be enough; the loop of [generate_lobby_id]
    has no bound and returns [None] when its fuel runs out.  The [random]
    module is a sequence of draws given as a parameter.  Of [_tick] the
    turn of a bot in one lobby is covered, with time stamps of an abstract
    type; the reaper of idle players and the threads are not.  Text is a
    [string] that UTF-8 encoding and decoding, two parameters, relate to
    bytes. *)

From stdpp Require Import base numbers list list_numbers sorting gmap strings.

Local Open Scope Z_scope.

(** ** Board access *)

Module Board.

(** [board[y][x]].  Every read in the source is guarded by [is_in_bounds], so
    on an 8x8 board the index is always in range; the value [-1] stands for the
    [IndexError] that cannot arise there. *)
Definition cell_at (board : list (list Z)) (x y : Z) : Z :=
  default (-1) (board !! Z.to_nat y ≫= (.!! Z.to_nat x)).

(** [board[y][x] = v] *)
Definition set_cell (board : list (list Z)) (x y v : Z) : list (list Z) :=
  alter (<[Z.to_nat x := v]>) (Z.to_nat y) board.

(** The shape every board of the program has: 8 rows of 8 cells. *)
Definition board_ok (board : list (list Z)) : Prop :=
  length board = 8%nat ∧ Forall (λ row, length row = 8%nat) board.

End Board.
Export Board.

(** ** Reversi logic *)

Definition DIRECTIONS : list (Z * Z) :=
  [(-1, -1); (-1, 0); (-1, 1);
   (0, -1); (0, 1);
   (1, -1); (1, 0); (1, 1)].

(** The copy [create_initial_board] returns; the cached [_initial_board] is
    built once and never written again. *)
Definition create_initial_board : list (list Z) :=
  let b := replicate 8 (replicate 8 255) in
  let b := set_cell b 3 3 0 in
  let b := set_cell b 4 4 0 in
  let b := set_cell b 4 3 1 in
  let b := set_cell b 3 4 1 in
  b.

Definition is_in_bounds (x y : Z) : bool :=
  (0 <=? x) && (x <? 8) && (0 <=? y) && (y <? 8).

(** The [while] loop of [find_legal_moves]:
    [while is_in_bounds(cx, cy) and board[cy][cx] == opponent:
       saw_opponent = True; cx += dx; cy += dy].
    [fuel] bounds the number of iterations; [scan_saw_exits] below shows that
    the loop has left by its condition before 8 is used up. *)
Fixpoint scan_saw (fuel : nat) (board : list (list Z)) (opponent dx dy : Z)
    (cx cy : Z) (saw_opponent : bool) : bool * (Z * Z) :=
  match fuel with
  | O => (saw_opponent, (cx, cy))
  | S fuel' =>
      if is_in_bounds cx cy && (cell_at board cx cy =? opponent)
      then scan_saw fuel' board opponent dx dy (cx + dx) (cy + dy) true
      else (saw_opponent, (cx, cy))
  end.

(** One iteration of [for dx, dy in DIRECTIONS] in [find_legal_moves]: does
    the direction bound a run of opponent pieces by a piece of [player]? *)
Definition direction_hits (board : list (list Z)) (player x y : Z)
    (d : Z * Z) : bool :=
  let opponent := 1 - player in
  let '(dx, dy) := d in
  let '(saw_opponent, (cx, cy)) :=
    scan_saw 8 board opponent dx dy (x + dx) (y + dy) false in
  saw_opponent && is_in_bounds cx cy && (cell_at board cx cy =? player).

(** [for dx, dy in DIRECTIONS: ... moves.add((x, y)); break] *)
Fixpoint try_directions (board : list (list Z)) (player x y : Z)
    (dirs : list (Z * Z)) (moves : gset (Z * Z)) : gset (Z * Z) :=
  match dirs with
  | [] => moves
  | d :: dirs' =>
      if direction_hits board player x y d then {[ (x, y) ]} ∪ moves
      else try_directions board player x y dirs' moves
  end.

(** Python's order on pairs of integers: first component, then second. *)
Definition tuple_le (p q : Z * Z) : Prop :=
  p.1 < q.1 ∨ (p.1 = q.1 ∧ p.2 ≤ q.2).

Definition tuple_lt (p q : Z * Z) : Prop :=
  p.1 < q.1 ∨ (p.1 = q.1 ∧ p.2 < q.2).

#[global] Instance tuple_le_dec p q : Decision (tuple_le p q).
Proof. unfold tuple_le. apply _. Defined.

#[global] Instance tuple_lt_dec p q : Decision (tuple_lt p q).
Proof. unfold tuple_lt. apply _. Defined.

(** [sorted(moves)] for a set of coordinate pairs. *)
Definition sorted (moves : gset (Z * Z)) : list (Z * Z) :=
  merge_sort tuple_le (elements moves).

(** The body of [for x in range(8)] in [find_legal_moves]. *)
Definition row_step (board : list (list Z)) (player : Z) (y : Z)
    (moves : gset (Z * Z)) (x : Z) : gset (Z * Z) :=
  if negb (cell_at board x y =? 255) then moves
  else try_directions board player x y DIRECTIONS moves.

Definition find_legal_moves (board : list (list Z)) (player : Z)
    : list (Z * Z) :=
  let moves :=
    foldl (λ moves y, foldl (row_step board player y) moves (seqZ 0 8))
      ∅ (seqZ 0 8) in
  sorted moves.

(** The [while] loop of [apply_player_move], which collects the run. *)
Fixpoint scan_path (fuel : nat) (board : list (list Z)) (opponent dx dy : Z)
    (cx cy : Z) (path : list (Z * Z)) : list (Z * Z) * (Z * Z) :=
  match fuel with
  | O => (path, (cx, cy))
  | S fuel' =>
      if is_in_bounds cx cy && (cell_at board cx cy =? opponent)
      then scan_path fuel' board opponent dx dy (cx + dx) (cy + dy)
             (path ++ [(cx, cy)])
      else (path, (cx, cy))
  end.

(** The body of [for dx, dy in DIRECTIONS] in [apply_player_move]. *)
Definition collect_flips (board : list (list Z)) (player x y : Z)
    (flips : list (Z * Z)) (d : Z * Z) : list (Z * Z) :=
  let opponent := 1 - player in
  let '(dx, dy) := d in
  let '(path, (cx, cy)) :=
    scan_path 8 board opponent dx dy (x + dx) (y + dy) [] in
  if negb (bool_decide (path = [])) && is_in_bounds cx cy
     && (cell_at board cx cy =? player)
  then flips ++ path
  else flips.

(** Returns the board after the call together with the pair the source
    returns; the board is the argument itself when nothing is written. *)
Definition apply_player_move (board : list (list Z)) (player x y : Z)
    : list (list Z) * (bool * Z) :=
  if negb (is_in_bounds x y) || negb (cell_at board x y =? 255)
  then (board, (false, 0))
  else
    let flips := foldl (collect_flips board player x y) [] DIRECTIONS in
    if bool_decide (flips = []) then (board, (false, 0))
    else
      let board := set_cell board x y player in
      let board := foldl (λ b '(fx, fy), set_cell b fx fy player) board flips in
      (board, (true, 1 + Z.of_nat (length flips))).

Definition count_pieces (board : list (list Z)) : Z * Z :=
  foldl (λ bw row,
    foldl (λ '(b, w) c,
      if c =? 0 then (b + 1, w)
      else if c =? 1 then (b, w + 1)
      else (b, w)) bw row)
    (0, 0) board.

Definition clone_board (board : list (list Z)) : list (list Z) :=
  (λ row, row) <$> board.

(** [(x, y) in {(0, 0), (0, 7), (7, 0), (7, 7)}] *)
Definition in_corner_set (x y : Z) : bool :=
  bool_decide ((x, y) ∈ [(0, 0); (0, 7); (7, 0); (7, 7)]).

(** [x in (0, 7) or y in (0, 7)] *)
Definition on_edge (x y : Z) : bool :=
  bool_decide (x ∈ [0; 7]) || bool_decide (y ∈ [0; 7]).

(** The body of [for (x, y) in moves] in [cpu_select_move], on the pair
    [(best_score, best_move)]. *)
Definition cpu_consider (board : list (list Z)) (cpu_player : Z)
    (best : Z * (Z * Z)) (m : Z * Z) : Z * (Z * Z) :=
  let '(best_score, best_move) := best in
  let '(x, y) := m in
  let tmp := clone_board board in
  let '(_, (success, flipped)) := apply_player_move tmp cpu_player x y in
  if negb success then (best_score, best_move)
  else
    let corner_bonus := 100 in
    let edge_bonus := 10 in
    let score := flipped in
    let score :=
      if in_corner_set x y then score + corner_bonus
      else if on_edge x y then score + edge_bonus
      else score in
    if score >? best_score then (score, (x, y))
    else (best_score, best_move).

Definition cpu_select_move (board : list (list Z)) (cpu_player : Z)
    : option (Z * Z) :=
  let moves := find_legal_moves board cpu_player in
  match moves with
  | [] => None
  | m0 :: _ => Some (foldl (cpu_consider board cpu_player) (-1, m0) moves).2
  end.

Definition check_game_over (board : list (list Z)) (current_turn : Z) : bool :=
  let current_moves := find_legal_moves board current_turn in
  if negb (bool_decide (current_moves = [])) then false
  else
    let opponent := 1 - current_turn in
    let opponent_moves := find_legal_moves board opponent in
    if negb (bool_decide (opponent_moves = [])) then false
    else true.

(** ** Runs of opponent pieces

    Both scanning loops walk the same cells.  [run] lists them; the loops are
    then expressed through it. *)

Definition guard (board : list (list Z)) (opponent cx cy : Z) : bool :=
  is_in_bounds cx cy && (cell_at board cx cy =? opponent).

Fixpoint run (fuel : nat) (board : list (list Z)) (opponent dx dy cx cy : Z)
    : list (Z * Z) :=
  match fuel with
  | O => []
  | S fuel' =>
      if guard board opponent cx cy
      then (cx, cy) :: run fuel' board opponent dx dy (cx + dx) (cy + dy)
      else []
  end.

(** The cell on which a scan that walked [n] cells stops. *)
Definition run_end (dx dy cx cy : Z) (n : nat) : Z * Z :=
  (cx + Z.of_nat n * dx, cy + Z.of_nat n * dy).

(** The run in direction [d] from [(x, y)] when a piece of [player] bounds
    it, and the empty list otherwise. *)
Definition bounded_run (board : list (list Z)) (player x y : Z) (d : Z * Z)
    : list (Z * Z) :=
  let r := run 8 board (1 - player) d.1 d.2 (x + d.1) (y + d.2) in
  let e := run_end d.1 d.2 (x + d.1) (y + d.2) (length r) in
  if is_in_bounds e.1 e.2 && (cell_at board e.1 e.2 =? player) then r else [].

(** The list [flips] that [apply_player_move] builds. *)
Definition all_flips (board : list (list Z)) (player x y : Z) : list (Z * Z) :=
  DIRECTIONS ≫= bounded_run board player x y.


(** A cell on which [find_legal_moves] adds a move. *)
Definition legal_cell (board : list (list Z)) (player x y : Z) : bool :=
  (cell_at board x y =? 255) &&
  negb (bool_decide (all_flips board player x y = [])).


(** [board[y][x] = player], then [board[fy][fx] = player] for every flip. *)
Definition place_all (board : list (list Z)) (player : Z)
    (cells : list (Z * Z)) : list (list Z) :=
  foldl (λ b '(fx, fy), set_cell b fx fy player) board cells.

(** ** The rules in the words of the specification *)

(** The cell [k] steps from [(x, y)] in direction [d]. *)
Definition step_from (x y : Z) (d : Z * Z) (k : Z) : Z * Z :=
  (x + k * d.1, y + k * d.2).

(** Scanning from [(x, y)] in direction [d] there is a run of [n] opponent
    pieces, [n >= 1], immediately followed by a piece of [player] on the
    board. *)
Definition bounded_in (board : list (list Z)) (player x y : Z)
    (d : Z * Z) (n : Z) : Prop :=
  d ∈ DIRECTIONS ∧ 1 ≤ n ∧
  (∀ i, 1 ≤ i ≤ n →
     is_in_bounds (step_from x y d i).1 (step_from x y d i).2 = true ∧
     cell_at board (step_from x y d i).1 (step_from x y d i).2 = 1 - player) ∧
  is_in_bounds (step_from x y d (n + 1)).1 (step_from x y d (n + 1)).2 = true ∧
  cell_at board (step_from x y d (n + 1)).1 (step_from x y d (n + 1)).2 = player.

(** [c] is an opponent piece on a validly bounded run from [(x, y)]. *)
Definition on_bounded_run (board : list (list Z)) (player x y : Z)
    (c : Z * Z) : Prop :=
  ∃ d n k, bounded_in board player x y d n ∧ 1 ≤ k ≤ n ∧ c = step_from x y d k.

(** Some direction yields a bounded run of opponent pieces. *)
Definition has_bounded_run (board : list (list Z)) (player x y : Z) : Prop :=
  ∃ d n, bounded_in board player x y d n.

(** The number of pieces of [player] on the board, from [count_pieces]. *)
Definition pieces_of (player : Z) (board : list (list Z)) : Z :=
  if player =? 0 then (count_pieces board).1 else (count_pieces board).2.

(** The number of occupied cells, from [count_pieces]. *)
Definition occupied (board : list (list Z)) : Z :=
  (count_pieces board).1 + (count_pieces board).2.

(** Row-major order on cells: row [y] first, column [x] second. *)
Definition row_major_le (p q : Z * Z) : Prop :=
  p.2 < q.2 ∨ (p.2 = q.2 ∧ p.1 ≤ q.1).

(** The number of cells of the board that hold [v]. *)
Definition count_cells (v : Z) (board : list (list Z)) : nat :=
  length (filter (λ c, c = v) (mjoin board)).

(** [1] when [a] is [v], [0] otherwise. *)
Definition indicator (a v : Z) : Z := if bool_decide (a = v) then 1 else 0.

(** ** The heuristic policy in the words of the specification *)

(** What simulating the move on a scratch copy of the board returns. *)
Definition simulated_count (board : list (list Z)) (player : Z)
    (m : Z * Z) : Z :=
  (apply_player_move (clone_board board) player m.1 m.2).2.2.

Definition is_corner (m : Z * Z) : bool :=
  bool_decide ((m.1 = 0 ∨ m.1 = 7) ∧ (m.2 = 0 ∨ m.2 = 7)).

Definition is_edge (m : Z * Z) : bool :=
  bool_decide (m.1 = 0 ∨ m.1 = 7 ∨ m.2 = 0 ∨ m.2 = 7).

(** 100 on a corner, else 10 on an edge, else 0. *)
Definition position_bonus (m : Z * Z) : Z :=
  if is_corner m then 100 else if is_edge m then 10 else 0.

Definition heuristic_score (board : list (list Z)) (player : Z)
    (m : Z * Z) : Z :=
  simulated_count board player m + position_bonus m.

(** The number of opponent pieces a move flips. *)
Definition flipped_pieces (board : list (list Z)) (player : Z)
    (m : Z * Z) : Z :=
  Z.of_nat (length (all_flips board player m.1 m.2)).

(** The update of [(best_score, best_move)] by a move whose simulation
    succeeds with score [sc m]. *)
Definition keep_better {A} (sc : A → Z) (best : Z * A) (m : A) : Z * A :=
  if sc m >? best.1 then (sc m, m) else best.

(** ** Enums and constants *)

Module MessageType.
Definition HELLO : Z := 1.
Definition LIST_LOBBIES : Z := 2.
Definition CREATE_LOBBY : Z := 3.
Definition JOIN_LOBBY : Z := 4.
Definition LEAVE : Z := 5.
Definition PLACE : Z := 6.
Definition PING : Z := 7.
Definition INSPECT : Z := 8.
Definition CHAT : Z := 9.
Definition WELCOME : Z := 101.
Definition LOBBIES : Z := 102.
Definition LOBBY_CREATED : Z := 103.
Definition JOINED : Z := 104.
Definition GAME_STATE : Z := 105.
Definition PONG : Z := 106.
Definition LEFT : Z := 107.
Definition INSPECT_RESULT : Z := 109.
Definition CHAT_MESSAGE : Z := 110.
Definition ERROR : Z := 199.
End MessageType.

Module GameMode.
Definition PLAYER_VS_PLAYER : Z := 0.
Definition PLAYER_VS_CPU : Z := 1.
Definition PLAYER_VS_AI : Z := 2.
End GameMode.

Module GameStatus.
Definition WAITING : Z := 0.
Definition PLAYING : Z := 1.
Definition FINISHED : Z := 2.
End GameStatus.

Module ErrorCode.
Definition BAD_REQUEST : Z := 1.
Definition INVALID_MOVE : Z := 2.
Definition LOBBY_NOT_FOUND : Z := 3.
Definition LOBBY_FULL_OR_STARTED : Z := 4.
Definition NOT_IN_LOBBY : Z := 5.
Definition GAME_NOT_ACTIVE : Z := 6.
Definition NOT_YOUR_TURN : Z := 7.
Definition ILLEGAL_MOVE : Z := 8.
Definition APPLY_FAILED : Z := 9.
Definition UNKNOWN_MESSAGE_TYPE : Z := 10.
Definition SPECTATOR_MOVE_NOT_ALLOWED : Z := 11.
Definition MESSAGE_TOO_LONG : Z := 12.
End ErrorCode.

(** ** Data classes *)

(** A network endpoint [(host, port)]. *)
Definition Address : Type := string * Z.

(** An entry of [Lobby.players]: a player id, or the marker ["CPU"] or
    ["AI"] of a bot. *)
Inductive Slot :=
  | PlayerId (pid : Z)
  | Marker (name : string).

#[global] Instance Slot_eq_dec : EqDecision Slot.
Proof. solve_decision. Defined.

(** The value of [Lobby.state_hash]: status, turn index and board. *)
Definition StateHash : Type := Z * Z * list (list Z).

(** [last_active], which [refresh] writes and the idle reaper reads, is kept
    beside the player objects, in the [last_active] of [World]. *)
Module Player.
Record t := mk {
  address : Address;
  name : string;
  player_id : Z;
  lobby_id : option Z;
}.

(** [player.lobby_id = v] *)
Definition set_lobby_id (p : t) (v : option Z) : t :=
  mk (address p) (name p) (player_id p) v.
End Player.

(** [_cpu_action_due], read and written by [_tick] only, is left out; the
    chat history is a list of (sender, message) pairs. *)
Module Lobby.
Record t := mk {
  lobby_id : Z;
  mode : Z;
  started : bool;
  players : list Slot;
  player_addresses : list (option Address);
  board : list (list Z);
  turn_index : Z;
  status : Z;
  winner : option Z;
  pass_streak : Z;
  chat_history : list (string * string);
  _last_hash : option StateHash;
}.

(** [Lobby(lobby_id, mode)] *)
Definition new (lobby_id mode : Z) : t :=
  mk lobby_id mode false [] [] create_initial_board 0 GameStatus.WAITING
     None 0 [] None.

Definition set_started (lb : t) (v : bool) : t :=
  mk (lobby_id lb) (mode lb) v (players lb) (player_addresses lb) (board lb)
     (turn_index lb) (status lb) (winner lb) (pass_streak lb)
     (chat_history lb) (_last_hash lb).

Definition set_players (lb : t) (v : list Slot) : t :=
  mk (lobby_id lb) (mode lb) (started lb) v (player_addresses lb) (board lb)
     (turn_index lb) (status lb) (winner lb) (pass_streak lb)
     (chat_history lb) (_last_hash lb).

Definition set_player_addresses (lb : t) (v : list (option Address)) : t :=
  mk (lobby_id lb) (mode lb) (started lb) (players lb) v (board lb)
     (turn_index lb) (status lb) (winner lb) (pass_streak lb)
     (chat_history lb) (_last_hash lb).

Definition set_board (lb : t) (v : list (list Z)) : t :=
  mk (lobby_id lb) (mode lb) (started lb) (players lb) (player_addresses lb) v
     (turn_index lb) (status lb) (winner lb) (pass_streak lb)
     (chat_history lb) (_last_hash lb).

Definition set_turn_index (lb : t) (v : Z) : t :=
  mk (lobby_id lb) (mode lb) (started lb) (players lb) (player_addresses lb)
     (board lb) v (status lb) (winner lb) (pass_streak lb)
     (chat_history lb) (_last_hash lb).

Definition set_status (lb : t) (v : Z) : t :=
  mk (lobby_id lb) (mode lb) (started lb) (players lb) (player_addresses lb)
     (board lb) (turn_index lb) v (winner lb) (pass_streak lb)
     (chat_history lb) (_last_hash lb).

Definition set_winner (lb : t) (v : option Z) : t :=
  mk (lobby_id lb) (mode lb) (started lb) (players lb) (player_addresses lb)
     (board lb) (turn_index lb) (status lb) v (pass_streak lb)
     (chat_history lb) (_last_hash lb).

Definition set_last_hash (lb : t) (v : option StateHash) : t :=
  mk (lobby_id lb) (mode lb) (started lb) (players lb) (player_addresses lb)
     (board lb) (turn_index lb) (status lb) (winner lb) (pass_streak lb)
     (chat_history lb) v.

Definition state_hash (lb : t) : StateHash :=
  (status lb, turn_index lb, board lb).
End Lobby.

(** ** Server state

    The handlers below run under [LOBBY_LOCK]; each is one atomic step on
    the dictionary of live lobbies and the socket.  [sent] lists the
    datagrams given to [socket.sendto], oldest first; [drawn] counts the
    calls made to the [random] module. *)

Definition Datagram : Type := list Z * Address.

Record Server := mkServer {
  lobbies : gmap Z Lobby.t;
  sent : list Datagram;
  drawn : nat;
}.

Definition set_lobbies (s : Server) (v : gmap Z Lobby.t) : Server :=
  mkServer v (sent s) (drawn s).

(** [self.socket.sendto(payload, addr)] *)
Definition sendto (s : Server) (payload : list Z) (addr : Address) : Server :=
  mkServer (lobbies s) (sent s ++ [(payload, addr)]) (drawn s).

(** How a handler ends: it returns, or an exception leaves it (the writes
    made before the exception stay). *)
Inductive Exn := IndexError | KeyError | ValueError | StructError.

Inductive Result (A : Type) :=
  | Ok (a : A)
  | Raise (e : Exn).
Arguments Ok {A} a.
Arguments Raise {A} e.

(** [random.randrange(lo, hi)]: the [n]-th call to the [random] module
    yields a number of [lo .. hi - 1] that is read off [entropy n]; every
    sequence of results arises from some [entropy]. *)
Definition randrange (entropy : nat → Z) (n : nat) (lo hi : Z) : Z :=
  lo + entropy n `mod` (hi - lo).

(** [generate_lobby_id(existing_lobbies)], from the [pos]-th call to
    [random] on.  The source loops until a free id is drawn; [None] says that
    the loop has not returned within [fuel] draws.  Returns the id and the
    number of calls made to [random] so far. *)
Fixpoint generate_lobby_id (fuel : nat) (entropy : nat → Z) (pos : nat)
    (existing_lobbies : gmap Z Lobby.t) : option (Z * nat) :=
  match fuel with
  | O => None
  | S fuel' =>
      let x := randrange entropy pos 1 65535 in
      if bool_decide (existing_lobbies !! x = None) then Some (x, S pos)
      else generate_lobby_id fuel' entropy (S pos) existing_lobbies
  end.

(** [self.socket.sendto(bytes([MessageType.ERROR, code]), addr)] *)
Definition _send_error (s : Server) (addr : Address) (code : Z) : Server :=
  sendto s [MessageType.ERROR; code] addr.

(** [struct.pack] of one ["H"] and of one ["B"] field: [struct.error] outside
    the range of the field. *)
Definition pack_H (v : Z) : option (list Z) :=
  if (0 <=? v) && (v <=? 65535) then Some [v `div` 256; v `mod` 256] else None.

Definition pack_B (v : Z) : option (list Z) :=
  if (0 <=? v) && (v <=? 255) then Some [v] else None.

(** [struct.pack("!HBBBBBB", lobby_id, status, turn_index, 255, b, w, 0)] *)
Definition pack_state_header (lobby_id status turn_index b w : Z)
    : option (list Z) :=
  h ← pack_H lobby_id;
  f1 ← pack_B status; f2 ← pack_B turn_index; f3 ← pack_B 255;
  f4 ← pack_B b; f5 ← pack_B w; f6 ← pack_B 0;
  Some (h ++ f1 ++ f2 ++ f3 ++ f4 ++ f5 ++ f6).

(** [for row in lb.board: for c in row: flat.append(c)]: a [bytearray]
    takes values of [0 .. 255] only. *)
Definition flat_cells (board : list (list Z)) : option (list Z) :=
  mapM pack_B (mjoin board) ≫= (λ bs, Some (mjoin bs)).

(** [for addr in lb.player_addresses: if addr: sendto(payload, addr)] *)
Fixpoint broadcast (payload : list Z) (addrs : list (option Address))
    : list Datagram :=
  match addrs with
  | [] => []
  | Some addr :: addrs' => (payload, addr) :: broadcast payload addrs'
  | None :: addrs' => broadcast payload addrs'
  end.

(** The GAME_STATE datagram of a lobby, when its fields fit their bytes. *)
Definition game_state_payload (lb : Lobby.t) : Result (list Z) :=
  let '(b, w) := count_pieces (Lobby.board lb) in
  match pack_state_header (Lobby.lobby_id lb) (Lobby.status lb)
          (Lobby.turn_index lb) b w with
  | None => Raise StructError
  | Some packed =>
      let header := [MessageType.GAME_STATE] ++ packed in
      match flat_cells (Lobby.board lb) with
      | None => Raise ValueError
      | Some flat => Ok (header ++ flat)
      end
  end.

(** [_send_state(lb)]: the lobby after the call, and the datagrams sent or
    the exception raised.  [_last_hash] is written before the payload is
    built. *)
Definition _send_state (lb : Lobby.t)
    : Lobby.t * Result (list Datagram) :=
  let h := Lobby.state_hash lb in
  if bool_decide (Some h = Lobby._last_hash lb) then (lb, Ok [])
  else
    let lb := Lobby.set_last_hash lb (Some h) in
    match game_state_payload lb with
    | Raise e => (lb, Raise e)
    | Ok payload => (lb, Ok (broadcast payload (Lobby.player_addresses lb)))
    end.

(** The lobby object a handler works on lives in [self.lobbies] under [key];
    its mutations and the datagrams of [_send_state] are written back. *)
Definition send_state_of (s : Server) (key : Z) (lb : Lobby.t)
    : Server * Result unit :=
  let '(lb, r) := _send_state lb in
  let s := set_lobbies s (<[key := lb]> (lobbies s)) in
  match r with
  | Raise e => (s, Raise e)
  | Ok out => (mkServer (lobbies s) (sent s ++ out) (drawn s), Ok ())
  end.

(** [self.lobbies.get(player.lobby_id)]: the lobby object and the key it is
    stored under; [None] when the player has no lobby id or no lobby has
    it. *)
Definition lobbies_get (s : Server) (lobby_id : option Z)
    : option (Z * Lobby.t) :=
  lobby_id ≫= (λ key, (key,.) <$> lobbies s !! key).

(** [lb.players.index(player_id)]: the first seat holding the id. *)
Definition players_index (players : list Slot) (player_id : Z) : option nat :=
  fst <$> list_find (λ s, s = PlayerId player_id) players.

(** The winner written when the game ends. *)
Definition winner_of (board : list (list Z)) : Z :=
  let '(p0, p1) := count_pieces board in
  if p0 >? p1 then 0 else if p1 >? p0 then 1 else -1.

(** The part of [_handle_place] after the move is applied: switch the turn,
    end the game or skip the side that cannot move. *)
Definition advance_turn (lb : Lobby.t) : Lobby.t :=
  let lb := Lobby.set_turn_index lb (1 - Lobby.turn_index lb) in
  let next_moves := find_legal_moves (Lobby.board lb) (Lobby.turn_index lb) in
  if bool_decide (next_moves = []) then
    if check_game_over (Lobby.board lb) (Lobby.turn_index lb) then
      let lb := Lobby.set_status lb GameStatus.FINISHED in
      Lobby.set_winner lb (Some (winner_of (Lobby.board lb)))
    else Lobby.set_turn_index lb (1 - Lobby.turn_index lb)
  else lb.

Definition _handle_place (data : list Z) (player : Player.t) (s : Server)
    : Server * Result unit :=
  match lobbies_get s (Player.lobby_id player) with
  | None =>
      (_send_error s (Player.address player) ErrorCode.NOT_IN_LOBBY, Ok ())
  | Some (key, lb) =>
      if bool_decide (Lobby.status lb ≠ GameStatus.PLAYING) then
        (_send_error s (Player.address player) ErrorCode.GAME_NOT_ACTIVE, Ok ())
      else
        match players_index (Lobby.players lb) (Player.player_id player) with
        | None =>
            (_send_error s (Player.address player)
               ErrorCode.SPECTATOR_MOVE_NOT_ALLOWED, Ok ())
        | Some i =>
            let idx := Z.of_nat i in
            if bool_decide (Lobby.turn_index lb ≠ idx) then
              (_send_error s (Player.address player) ErrorCode.NOT_YOUR_TURN,
               Ok ())
            else
              match data !! 1%nat, data !! 2%nat with
              | Some x, Some y =>
                  if bool_decide
                       ((x, y) ∉ find_legal_moves (Lobby.board lb) idx) then
                    (_send_error s (Player.address player)
                       ErrorCode.ILLEGAL_MOVE, Ok ())
                  else
                    let '(board, (ok, _)) :=
                      apply_player_move (Lobby.board lb) idx x y in
                    let lb := Lobby.set_board lb board in
                    if negb ok then
                      (_send_error (set_lobbies s (<[key := lb]> (lobbies s)))
                         (Player.address player) ErrorCode.APPLY_FAILED, Ok ())
                    else send_state_of s key (advance_turn lb)
              | _, _ => (s, Raise IndexError)
              end
        end
  end.

(** Python's [not player.lobby_id]: [None] and [0] are false. *)
Definition lobby_id_unset (p : Player.t) : bool :=
  match Player.lobby_id p with
  | None => true
  | Some key => key =? 0
  end.

(** The end of [_handle_leave], on the lobby object [lb] stored under [key]:
    [player.lobby_id = None], then [del self.lobbies[lb.lobby_id]] when
    [lb.players] is empty. *)
Definition leave_finish (s : Server) (key : Z) (lb : Lobby.t)
    (player : Player.t) : Server * Player.t * Result unit :=
  let s := set_lobbies s (<[key := lb]> (lobbies s)) in
  let player := Player.set_lobby_id player None in
  if bool_decide (Lobby.players lb = []) then
    match lobbies s !! Lobby.lobby_id lb with
    | Some _ =>
        (set_lobbies s (delete (Lobby.lobby_id lb) (lobbies s)), player, Ok ())
    | None => (s, player, Raise KeyError)
    end
  else (s, player, Ok ()).

Definition _handle_leave (player : Player.t) (s : Server)
    : Server * Player.t * Result unit :=
  if lobby_id_unset player then (s, player, Ok ())
  else
    match lobbies_get s (Player.lobby_id player) with
    | None => (s, Player.set_lobby_id player None, Ok ())
    | Some (key, lb) =>
        match players_index (Lobby.players lb) (Player.player_id player) with
        | Some idx =>
            let lb := Lobby.set_players lb (delete idx (Lobby.players lb)) in
            if bool_decide (idx < length (Lobby.player_addresses lb))%nat then
              let lb := Lobby.set_player_addresses lb
                          (delete idx (Lobby.player_addresses lb)) in
              leave_finish s key lb player
            else
              (set_lobbies s (<[key := lb]> (lobbies s)), player,
               Raise IndexError)
        | None => leave_finish s key lb player
        end
    end.

Definition _maybe_start (entropy : nat → Z) (lobby_id : Z) (s : Server)
    : Server * Result unit :=
  match lobbies s !! lobby_id with
  | None => (s, Ok ())
  | Some lb =>
      if Lobby.started lb then (s, Ok ())
      else
        let lb :=
          if bool_decide (Lobby.mode lb ∈ [GameMode.PLAYER_VS_CPU;
                                          GameMode.PLAYER_VS_AI])
             && bool_decide (length (Lobby.players lb) = 1%nat)
          then
            let marker :=
              if Lobby.mode lb =? GameMode.PLAYER_VS_AI then "AI" else "CPU" in
            let lb := Lobby.set_players lb (Lobby.players lb ++ [Marker marker]) in
            Lobby.set_player_addresses lb (Lobby.player_addresses lb ++ [None])
          else lb in
        if bool_decide (length (Lobby.players lb) = 2%nat) then
          let lb := Lobby.set_started lb true in
          let lb := Lobby.set_status lb GameStatus.PLAYING in
          let lb := Lobby.set_turn_index lb (randrange entropy (drawn s) 0 2) in
          send_state_of (mkServer (lobbies s) (sent s) (S (drawn s))) lobby_id lb
        else (set_lobbies s (<[lobby_id := lb]> (lobbies s)), Ok ())
  end.

(** [None] when [generate_lobby_id] has not returned within [fuel] draws. *)
Definition _handle_create_lobby (fuel : nat) (entropy : nat → Z)
    (data : list Z) (player : Player.t) (s : Server)
    : option (Server * Player.t * Result unit) :=
  match data !! 1%nat with
  | None => Some (s, player, Raise IndexError)
  | Some mode =>
      match generate_lobby_id fuel entropy (drawn s) (lobbies s) with
      | None => None
      | Some (lobby_id, pos) =>
          let lb := Lobby.new lobby_id mode in
          let lb := Lobby.set_players lb
                      (Lobby.players lb ++ [PlayerId (Player.player_id player)]) in
          let lb := Lobby.set_player_addresses lb
                      (Lobby.player_addresses lb ++ [Some (Player.address player)]) in
          let s := mkServer (<[lobby_id := lb]> (lobbies s)) (sent s) pos in
          let player := Player.set_lobby_id player (Some lobby_id) in
          let '(s, r) := _maybe_start entropy lobby_id s in
          Some (s, player, r)
      end
  end.

(** ** The handlers in the words of the specification *)

(** An ERROR reply carrying [code]: the datagram goes to the sender, the
    lobbies stay as they are. *)
Definition error_reply (s : Server) (player : Player.t) (code : Z)
    : Server * Result unit :=
  (mkServer (lobbies s)
     (sent s ++ [([MessageType.ERROR; code], Player.address player)])
     (drawn s),
   Ok ()).

(** The datagrams of an attempt. *)
Definition sends_of (r : Result (list Datagram)) : list Datagram :=
  match r with
  | Ok out => out
  | Raise _ => []
  end.

(** The addresses of the human participants, in seat order. *)
Definition human_addresses (lb : Lobby.t) : list Address :=
  omap id (Lobby.player_addresses lb).

Definition is_game_state (d : Datagram) : Prop :=
  head d.1 = Some MessageType.GAME_STATE.

(** A lobby of the player-versus-CPU mode as [_maybe_start] leaves it: the
    creator in seat 0, the bot in seat 1, the game started with the state not
    yet broadcast. *)
Definition cpu_lobby (turn : Z) : Lobby.t :=
  Lobby.mk 42 GameMode.PLAYER_VS_CPU true [PlayerId 7; Marker "CPU"]
    [Some ("10.0.0.1", 4000); None] create_initial_board turn
    GameStatus.PLAYING None 0 [] None.

(** The player who created [cpu_lobby]. *)
Definition alice : Player.t :=
  Player.mk ("10.0.0.1", 4000) "alice" 7 None.


(** ** Positions *)

(** The three values a cell takes: a piece of player 0, a piece of player 1,
    empty. *)
Definition cell_ok (c : Z) : Prop := c = 0 ∨ c = 1 ∨ c = 255.

(** An 8x8 board whose cells all hold one of the three values. *)
Definition position_ok (board : list (list Z)) : Prop :=
  board_ok board ∧ Forall (Forall cell_ok) board.

(** ** The lobbies of a running server *)

(** The side [player] has a legal move on [board]. *)
Definition can_move (board : list (list Z)) (player : Z) : Prop :=
  find_legal_moves board player ≠ [].

(** The shape of a lobby stored under [key]: it carries its key as id, the
    id is one that [generate_lobby_id] draws, status and turn index are
    values of the enums, the board is a position, seats and addresses go
    together, no seat is repeated, and while the game is on the side to move
    has a legal move. *)
Definition lobby_shape (key : Z) (lb : Lobby.t) : Prop :=
  Lobby.lobby_id lb = key ∧ 1 ≤ key ≤ 65534 ∧
  (Lobby.status lb = GameStatus.WAITING ∨
   Lobby.status lb = GameStatus.PLAYING ∨
   Lobby.status lb = GameStatus.FINISHED) ∧
  (Lobby.turn_index lb = 0 ∨ Lobby.turn_index lb = 1) ∧
  position_ok (Lobby.board lb) ∧
  length (Lobby.players lb) = length (Lobby.player_addresses lb) ∧
  NoDup (Lobby.players lb) ∧
  (Lobby.status lb = GameStatus.PLAYING →
   can_move (Lobby.board lb) (Lobby.turn_index lb)).

(** What the handlers keep true of a lobby between two requests: its shape,
    and that the hash of the last broadcast, when there is one, is the hash
    of the present state. *)
Definition lobby_ok (key : Z) (lb : Lobby.t) : Prop :=
  lobby_shape key lb ∧
  (Lobby._last_hash lb = None ∨
   Lobby._last_hash lb = Some (Lobby.state_hash lb)).

Definition server_ok (s : Server) : Prop :=
  ∀ key lb, lobbies s !! key = Some lb → lobby_ok key lb.

(** The bytes of a GAME_STATE datagram: the tag, the lobby id in two bytes
    (high byte first), status, turn index, 255, the two counts, 0, and the
    64 cells row by row. *)
Definition game_state_bytes (lb : Lobby.t) : list Z :=
  [MessageType.GAME_STATE;
   Lobby.lobby_id lb `div` 256; Lobby.lobby_id lb `mod` 256;
   Lobby.status lb; Lobby.turn_index lb; 255;
   (count_pieces (Lobby.board lb)).1; (count_pieces (Lobby.board lb)).2; 0]
  ++ mjoin (Lobby.board lb).

(** The request of the seated player to move, on a legal cell. *)
Definition place_accepted (data : list Z) (player : Player.t) (s : Server)
    (key : Z) (lb : Lobby.t) (x y : Z) : Prop :=
  lobbies_get s (Player.lobby_id player) = Some (key, lb) ∧
  Lobby.status lb = GameStatus.PLAYING ∧
  players_index (Lobby.players lb) (Player.player_id player)
    = Some (Z.to_nat (Lobby.turn_index lb)) ∧
  0 ≤ Lobby.turn_index lb ∧
  data !! 1%nat = Some x ∧ data !! 2%nat = Some y ∧
  (x, y) ∈ find_legal_moves (Lobby.board lb) (Lobby.turn_index lb).

(** ** The learned bot *)

Definition ai_state_key (board : list (list Z)) : string :=
  let key :=
    foldl (λ key row,
             foldl (λ key column,
                      if column =? 0 then key +:+ "B"
                      else if column =? 1 then key +:+ "W"
                      else key +:+ " ")
                   key row)
          "" board in
  "B" +:+ key.

(** What [ai_state_key] writes for a cell, and for a list of cells. *)
Definition cell_mark (column : Z) : string :=
  if column =? 0 then "B" else if column =? 1 then "W" else " ".

Definition cell_marks (cells : list Z) : string :=
  foldr (λ column key, cell_mark column +:+ key) "" cells.

(** The keys of [REVERSI_AI_Q_TABLE]: [ai_select_move] looks up the state
    key, a string, and the index of a move, an integer, in the same
    dictionary. *)
Inductive QKey :=
  | StateKey (s : string)
  | IndexKey (i : Z).

#[global] Instance QKey_eq_dec : EqDecision QKey.
Proof. solve_decision. Defined.

#[global] Instance QKey_countable : Countable QKey.
Proof.
  refine (inj_countable'
            (λ k, match k with StateKey s => inl s | IndexKey i => inr i end)
            (λ x, match x with inl s => StateKey s | inr i => IndexKey i end)
            _).
  by intros [s|i].
Defined.

(** [random.choice(seq)]: the element at a drawn index, [IndexError] on an
    empty sequence.  Returns the number of calls made to [random] so far. *)
Definition random_choice {A} (entropy : nat → Z) (pos : nat) (seq : list A)
    : Result A * nat :=
  match seq with
  | [] => (Raise IndexError, pos)
  | _ =>
      match seq !! Z.to_nat (randrange entropy pos 0 (Z.of_nat (length seq))) with
      | Some a => (Ok a, S pos)
      | None => (Raise IndexError, S pos)
      end
  end.

Section QTable.
(** The values of the table, with Python's [>] and [==] on them. *)
Context {V : Type} (gt eqv : V → V → bool).

(** The body of [for (x, y) in moves] in [ai_select_move], on the pair
    [(best_value, best_moves)]; a [KeyError] ends the loop. *)
Definition ai_consider (t : gmap QKey V)
    (acc : Result (option V * list (Z * Z))) (m : Z * Z)
    : Result (option V * list (Z * Z)) :=
  match acc with
  | Raise e => Raise e
  | Ok (best_value, best_moves) =>
      let '(x, y) := m in
      let idx := x * 8 * y in
      match t !! IndexKey idx with
      | None => Raise KeyError
      | Some v =>
          match best_value with
          | None => Ok (Some v, [(x, y)])
          | Some b =>
              if gt v b then Ok (Some v, [(x, y)])
              else if eqv v b then Ok (Some b, best_moves ++ [(x, y)])
              else Ok (Some b, best_moves)
          end
      end
  end.

(** [ai_select_move(board, ai_player)] under the table [table], from the
    [pos]-th call to [random] on.  [not REVERSI_AI_Q_TABLE] holds of [None]
    and of the empty dictionary. *)
Definition ai_select_move (table : option (gmap QKey V)) (entropy : nat → Z)
    (pos : nat) (board : list (list Z)) (ai_player : Z)
    : Result (option (Z * Z)) * nat :=
  match table with
  | None => (Ok (cpu_select_move board ai_player), pos)
  | Some t =>
      if bool_decide (size t = 0%nat) then
        (Ok (cpu_select_move board ai_player), pos)
      else
        let moves := find_legal_moves board ai_player in
        if bool_decide (moves = []) then (Ok None, pos)
        else
          let s := ai_state_key board in
          match t !! StateKey s with
          | None =>
              match random_choice entropy pos moves with
              | (Ok m, pos') => (Ok (Some m), pos')
              | (Raise e, pos') => (Raise e, pos')
              end
          | Some _ =>
              match foldl (ai_consider t) (Ok (None, [])) moves with
              | Raise e => (Raise e, pos)
              | Ok (_, best_moves) =>
                  match random_choice entropy pos best_moves with
                  | (Ok m, pos') => (Ok (Some m), pos')
                  | (Raise e, pos') => (Raise e, pos')
                  end
              end
          end
  end.
End QTable.

(** ** The turn of a bot

    The body of the loop of [_tick] over the lobbies, for the lobby object
    [lb] stored under [key].  Its attribute [_cpu_action_due] is kept beside
    the lobby: [None] when the attribute is not set.  Time stamps are values
    of a type [Time] with the sum [ts + d / 1000] and the test
    [ts >= lb._cpu_action_due] of the source. *)

(** [l[i]] of Python: a negative index counts from the end. *)
Definition py_index {A} (l : list A) (i : Z) : option A :=
  if i <? 0 then
    if - i <=? Z.of_nat (length l) then
      l !! Z.to_nat (Z.of_nat (length l) + i)
    else None
  else l !! Z.to_nat i.

(** [slot in ("CPU", "AI")] *)
Definition is_bot (slot : Slot) : bool :=
  match slot with
  | Marker name => bool_decide (name = "CPU") || bool_decide (name = "AI")
  | PlayerId _ => false
  end.

(** The condition under which [_tick] looks at a lobby; the subscript
    raises when the turn index is below [-len(lb.players)]. *)
Definition bot_to_move (lb : Lobby.t) : Result bool :=
  if negb (Lobby.started lb) then Ok false
  else if negb (Lobby.status lb =? GameStatus.PLAYING) then Ok false
  else if negb (Lobby.turn_index lb <? Z.of_nat (length (Lobby.players lb)))
  then Ok false
  else
    match py_index (Lobby.players lb) (Lobby.turn_index lb) with
    | None => Raise IndexError
    | Some slot => Ok (is_bot slot)
    end.

Section Tick.
Context {Time V : Type}.
Context (delay_after : Time → Z → Time) (reached : Time → Time → bool).
Context (gt eqv : V → V → bool).

Definition tick_lobby (table : option (gmap QKey V)) (entropy : nat → Z)
    (ts : Time) (s : Server) (key : Z) (lb : Lobby.t) (due : option Time)
    : Server * option Time * Result unit :=
  match bot_to_move lb with
  | Raise e => (s, due, Raise e)
  | Ok false => (s, due, Ok ())
  | Ok true =>
      match due with
      | None =>
          let d := randrange entropy (drawn s) 250 701 in
          (mkServer (lobbies s) (sent s) (S (drawn s)),
           Some (delay_after ts d), Ok ())
      | Some t =>
          if reached ts t then
            match py_index (Lobby.players lb) (Lobby.turn_index lb) with
            | None => (s, due, Raise IndexError)
            | Some cpu_name =>
                let '(r, pos) :=
                  if bool_decide (cpu_name = Marker "AI") then
                    ai_select_move gt eqv table entropy (drawn s)
                      (Lobby.board lb) (Lobby.turn_index lb)
                  else
                    (Ok (cpu_select_move (Lobby.board lb) (Lobby.turn_index lb)),
                     drawn s) in
                match r with
                | Raise e => (mkServer (lobbies s) (sent s) pos, due, Raise e)
                | Ok mv =>
                    let lb :=
                      match mv with
                      | Some (x, y) =>
                          Lobby.set_board lb
                            (apply_player_move (Lobby.board lb)
                               (Lobby.turn_index lb) x y).1
                      | None => lb
                      end in
                    let lb := advance_turn lb in
                    let '(s, r) :=
                      send_state_of (mkServer (lobbies s) (sent s) pos) key lb in
                    (s, None, r)
                end
            end
          else (s, due, Ok ())
      end
  end.
End Tick.

(** ** The session registry, HELLO and CHAT *)

Definition MAX_CHAT_HISTORY : nat := 50.
Definition MAX_CHAT_MESSAGE_LENGTH : Z := 60000.

(** [generate_player_id()], at the [pos]-th call to [random]. *)
Definition generate_player_id (entropy : nat → Z) (pos : nat) : Z :=
  randrange entropy pos 1 (2 ^ 31 - 1).

(** The [n] bytes of [v], high byte first. *)
Fixpoint be_bytes (n : nat) (v : Z) : list Z :=
  match n with
  | O => []
  | S n' => be_bytes n' (v `div` 256) ++ [v `mod` 256]
  end.

(** [struct.pack] of one ["I"] and of one ["Q"] field. *)
Definition pack_I (v : Z) : option (list Z) :=
  if (0 <=? v) && (v <? 2 ^ 32) then Some (be_bytes 4 v) else None.

Definition pack_Q (v : Z) : option (list Z) :=
  if (0 <=? v) && (v <? 2 ^ 64) then Some (be_bytes 8 v) else None.

(** [player.name = v] and [lb.chat_history = v] *)
Definition set_name (p : Player.t) (v : string) : Player.t :=
  Player.mk (Player.address p) v (Player.player_id p) (Player.lobby_id p).

Definition set_chat_history (lb : Lobby.t) (v : list (string * string))
    : Lobby.t :=
  Lobby.mk (Lobby.lobby_id lb) (Lobby.mode lb) (Lobby.started lb)
    (Lobby.players lb) (Lobby.player_addresses lb) (Lobby.board lb)
    (Lobby.turn_index lb) (Lobby.status lb) (Lobby.winner lb)
    (Lobby.pass_streak lb) v (Lobby._last_hash lb).

(** [append] on a [deque(maxlen=maxlen)]: the oldest entries give way. *)
Definition deque_append {A} (maxlen : nat) (q : list A) (a : A) : list A :=
  drop (length (q ++ [a]) - maxlen) (q ++ [a]).

(** The registry of a server: the state of the lobbies and the socket, the
    player object of every address seen, the address of the player object
    registered under each player id, and the [last_active] of the player
    object of each address, a time stamp of the type [Time], which
    [Player.t] leaves out. *)
Record World (Time : Type) := mkWorld {
  server : Server;
  players_by_address : gmap Address Player.t;
  players_by_id : gmap Z Address;
  last_active : gmap Address Time;
}.
Arguments mkWorld {Time}.
Arguments server {Time}.
Arguments players_by_address {Time}.
Arguments players_by_id {Time}.
Arguments last_active {Time}.

(** [p.refresh()] on the player object of [addr]: [ts] is the value of
    [current_time()]. *)
Definition refresh {Time} (ts : Time) (addr : Address) (w : World Time)
    : World Time :=
  mkWorld (server w) (players_by_address w) (players_by_id w)
    (<[addr := ts]> (last_active w)).

(** [_get_or_create_player(addr)]: [ts] is the time that [p.refresh()]
    reads, which also replaces the one that [Player(addr)] has just
    written. *)
Definition _get_or_create_player {Time} (entropy : nat → Z) (ts : Time)
    (addr : Address) (w : World Time) : World Time * Player.t :=
  match players_by_address w !! addr with
  | Some p => (refresh ts addr w, p)
  | None =>
      let s := server w in
      let p := Player.mk addr "Guest" (generate_player_id entropy (drawn s))
                 None in
      let w :=
        mkWorld (mkServer (lobbies s) (sent s) (S (drawn s)))
          (<[addr := p]> (players_by_address w))
          (<[Player.player_id p := addr]> (players_by_id w))
          (last_active w) in
      (refresh ts addr w, p)
  end.

Section Codec.
(** [bytes.decode("utf-8", "ignore")] and [str.encode("utf-8")] *)
Context (decode : list Z → string) (encode : string → list Z).

(** [lb.add_chat(sender, msg)] *)
Definition add_chat (lb : Lobby.t) (sender msg : string) : Lobby.t * bool :=
  if Z.of_nat (length (encode msg)) >? MAX_CHAT_MESSAGE_LENGTH then (lb, false)
  else
    (set_chat_history lb
       (deque_append MAX_CHAT_HISTORY (Lobby.chat_history lb) (sender, msg)),
     true).

(** The CHAT_MESSAGE datagram: [now_ms] is [int(current_time() * 1000)]. *)
Definition chat_payload (now_ms : Z) (lb : Lobby.t) (sender message : string)
    : Result (list Z) :=
  let name_bytes := take 50 (encode sender) in
  let msg_bytes :=
    take (Z.to_nat MAX_CHAT_MESSAGE_LENGTH) (encode message) in
  match pack_H (Lobby.lobby_id lb) with
  | None => Raise StructError
  | Some id_bytes =>
      match pack_B (Z.of_nat (length name_bytes)) with
      | None => Raise ValueError
      | Some name_len =>
          match pack_H (Z.of_nat (length msg_bytes)) with
          | None => Raise StructError
          | Some msg_len =>
              match pack_Q now_ms with
              | None => Raise StructError
              | Some stamp =>
                  Ok ([MessageType.CHAT_MESSAGE] ++ id_bytes ++ name_len
                      ++ name_bytes ++ msg_len ++ msg_bytes ++ stamp)
              end
          end
      end
  end.

Definition _broadcast_chat (now_ms : Z) (s : Server) (lb : Lobby.t)
    (sender message : string) : Server * Result unit :=
  match chat_payload now_ms lb sender message with
  | Raise e => (s, Raise e)
  | Ok payload =>
      (mkServer (lobbies s)
         (sent s ++ broadcast payload (Lobby.player_addresses lb)) (drawn s),
       Ok ())
  end.

Definition _handle_chat (now_ms : Z) (data : list Z) (player : Player.t)
    (s : Server) : Server * Result unit :=
  if lobby_id_unset player then
    (_send_error s (Player.address player) ErrorCode.NOT_IN_LOBBY, Ok ())
  else
    match lobbies_get s (Player.lobby_id player) with
    | None =>
        (_send_error s (Player.address player) ErrorCode.LOBBY_NOT_FOUND, Ok ())
    | Some (key, lb) =>
        if bool_decide (length data < 3)%nat then
          (_send_error s (Player.address player) ErrorCode.BAD_REQUEST, Ok ())
        else
          match data !! 1%nat, data !! 2%nat with
          | Some hi, Some lo =>
              let msg_len := hi * 256 + lo in
              let start := 3 in
              let end_ := start + msg_len in
              if (msg_len >? MAX_CHAT_MESSAGE_LENGTH)
                 || (Z.of_nat (length data) <? end_) then
                (_send_error s (Player.address player)
                   ErrorCode.MESSAGE_TOO_LONG, Ok ())
              else
                let message :=
                  decode (take (Z.to_nat (end_ - start))
                            (drop (Z.to_nat start) data)) in
                let '(lb, added) := add_chat lb (Player.name player) message in
                if negb added then
                  (_send_error s (Player.address player)
                     ErrorCode.MESSAGE_TOO_LONG, Ok ())
                else
                  let s := set_lobbies s (<[key := lb]> (lobbies s)) in
                  _broadcast_chat now_ms s lb (Player.name player) message
          | _, _ => (s, Raise StructError)
          end
    end.

Definition _handle_hello (data : list Z) (player : Player.t) (s : Server)
    : Server * Player.t * Result unit :=
  match data !! 1%nat with
  | None => (s, player, Raise IndexError)
  | Some name_len =>
      let name :=
        if name_len =? 0 then "Player"
        else decode (take (Z.to_nat name_len) (drop 2 data)) in
      let player := set_name player name in
      match pack_I (Player.player_id player) with
      | None => (s, player, Raise StructError)
      | Some id_bytes =>
          match pack_B (Z.of_nat (length (encode name))) with
          | None => (s, player, Raise ValueError)
          | Some name_len_byte =>
              (sendto s
                 ([MessageType.WELCOME] ++ id_bytes ++ name_len_byte
                  ++ encode name)
                 (Player.address player),
               player, Ok ())
          end
      end
  end.

(** [_handle_packet(data, addr)]: the handler of the message type runs on
    the player object of the sender, which keeps what the handler wrote to
    it; an exception of the handler is answered with BAD_REQUEST.  [ts] is
    the time at which the sender is looked up.  [None] when
    [generate_lobby_id] has not returned within [fuel] draws. *)
Definition _handle_packet {Time} (fuel : nat) (entropy : nat → Z)
    (now_ms : Z) (ts : Time) (data : list Z) (addr : Address)
    (w : World Time) : option (World Time) :=
  match data with
  | [] => Some w
  | msg :: _ =>
      let '(w, player) := _get_or_create_player entropy ts addr w in
      let s := server w in
      let handled : option (Server * Player.t * Result unit) :=
        if msg =? MessageType.HELLO then Some (_handle_hello data player s)
        else if msg =? MessageType.CREATE_LOBBY then
          _handle_create_lobby fuel entropy data player s
        else if msg =? MessageType.PLACE then
          let '(s, r) := _handle_place data player s in Some (s, player, r)
        else if msg =? MessageType.CHAT then
          let '(s, r) := _handle_chat now_ms data player s in
          Some (s, player, r)
        else if msg =? MessageType.LEAVE then Some (_handle_leave player s)
        else
          Some (_send_error s addr ErrorCode.UNKNOWN_MESSAGE_TYPE, player,
                Ok ()) in
      match handled with
      | None => None
      | Some (s, player, r) =>
          let s :=
            match r with
            | Ok _ => s
            | Raise _ => _send_error s addr ErrorCode.BAD_REQUEST
            end in
          Some (mkWorld s (<[addr := player]> (players_by_address w))
                  (players_by_id w) (last_active w))
      end
  end.
End Codec.

(** ** What a running server keeps *)

(** A lobby that is not played against a bot waits for a second player. *)
Definition lobby_waits (lb : Lobby.t) : Prop :=
  Lobby.mode lb ≠ GameMode.PLAYER_VS_CPU →
  Lobby.mode lb ≠ GameMode.PLAYER_VS_AI →
  Lobby.status lb = GameStatus.WAITING ∧ Lobby.started lb = false ∧
  (length (Lobby.players lb) ≤ 1)%nat.

(** What a step of the server may do to a stored lobby: mode and start flag
    stay, no seat is added, and the status changes in a running game only. *)
Definition lobby_step (lb lb' : Lobby.t) : Prop :=
  Lobby.mode lb' = Lobby.mode lb ∧
  Lobby.started lb' = Lobby.started lb ∧
  (length (Lobby.players lb') ≤ length (Lobby.players lb))%nat ∧
  (Lobby.status lb' = Lobby.status lb ∨
   Lobby.status lb = GameStatus.PLAYING).

(** A step from the lobbies of [s] to those of [s']: every lobby of [s'] is
    well formed, and is the successor of the lobby of [s] with its key, or a
    new lobby, which waits unless it is played against a bot. *)
Definition lobbies_step (s s' : Server) : Prop :=
  ∀ key lb', lobbies s' !! key = Some lb' →
    lobby_ok key lb' ∧
    ((∃ lb, lobbies s !! key = Some lb ∧ lobby_step lb lb') ∨
     (lobbies s !! key = None ∧ lobby_waits lb')).

Definition humans_wait (s : Server) : Prop :=
  ∀ key lb, lobbies s !! key = Some lb → lobby_waits lb.

(** The registry holds each player object under the address it carries,
    with an id of the range of [generate_player_id]. *)
Definition world_ok {Time} (w : World Time) : Prop :=
  server_ok (server w) ∧
  ∀ addr p, players_by_address w !! addr = Some p →
    Player.address p = addr ∧ 1 ≤ Player.player_id p < 2 ^ 31 - 1.

(** A server that has just been started. *)
Definition new_world {Time} : World Time :=
  mkWorld (mkServer ∅ [] 0) ∅ ∅ ∅.

(** What the two loops of the server do, one step at a time: a datagram is
    handled, or [_tick] visits the lobby stored under [key], finding the
    pending time [due] on it. *)
Inductive Event (Time : Type) :=
  | Packet (now_ms : Z) (ts : Time) (data : list Z) (addr : Address)
  | BotTurn (ts : Time) (key : Z) (due : option Time).
Arguments Packet {Time} now_ms ts data addr.
Arguments BotTurn {Time} ts key due.

Section Run.
Context {Time V : Type}.
Context (delay_after : Time → Z → Time) (reached : Time → Time → bool).
Context (gt eqv : V → V → bool) (table : option (gmap QKey V)).
Context (decode : list Z → string) (encode : string → list Z).
Context (fuel : nat) (entropy : nat → Z).

Definition run_event (e : Event Time) (w : World Time)
    : option (World Time) :=
  match e with
  | Packet now_ms ts data addr =>
      _handle_packet decode encode fuel entropy now_ms ts data addr w
  | BotTurn ts key due =>
      match lobbies (server w) !! key with
      | None => Some w
      | Some lb =>
          Some (mkWorld
                  (tick_lobby delay_after reached gt eqv table entropy ts
                     (server w) key lb due).1.1
                  (players_by_address w) (players_by_id w) (last_active w))
      end
  end.

Fixpoint run_events (events : list (Event Time)) (w : World Time)
    : option (World Time) :=
  match events with
  | [] => Some w
  | e :: events' =>
      match run_event e w with
      | None => None
      | Some w' => run_events events' w'
      end
  end.
End Run.

(** * Proofs *)

(** ** The order of moves *)

#[global] Instance tuple_le_total : Total tuple_le.
Proof. intros [a b] [c d]. unfold tuple_le; simpl. lia. Qed.

#[global] Instance tuple_le_trans : Transitive tuple_le.
Proof. intros [a b] [c d] [e f]. unfold tuple_le; simpl. lia. Qed.

Section Scan.
Variable board : list (list Z).
Variables opponent dx dy : Z.

Lemma scan_path_run fuel cx cy path :
  scan_path fuel board opponent dx dy cx cy path =
    (path ++ run fuel board opponent dx dy cx cy,
     run_end dx dy cx cy (length (run fuel board opponent dx dy cx cy))).
Proof.
  revert cx cy path. induction fuel as [|fuel IH]; intros cx cy path; simpl.
  - rewrite app_nil_r. unfold run_end. simpl. f_equal. f_equal; lia.
  - fold (guard board opponent cx cy).
    destruct (guard board opponent cx cy) eqn:Hg.
    + rewrite IH, <- app_assoc. simpl length. unfold run_end.
      f_equal. f_equal; lia.
    + rewrite app_nil_r. unfold run_end. simpl. f_equal. f_equal; lia.
Qed.

Lemma scan_saw_run fuel cx cy saw :
  scan_saw fuel board opponent dx dy cx cy saw =
    (saw || negb (bool_decide (run fuel board opponent dx dy cx cy = [])),
     run_end dx dy cx cy (length (run fuel board opponent dx dy cx cy))).
Proof.
  revert cx cy saw. induction fuel as [|fuel IH]; intros cx cy saw; simpl.
  - rewrite orb_false_r. unfold run_end. simpl. f_equal. f_equal; lia.
  - fold (guard board opponent cx cy).
    destruct (guard board opponent cx cy) eqn:Hg.
    + rewrite IH. simpl length. unfold run_end.
      rewrite orb_true_r. f_equal. f_equal; lia.
    + rewrite orb_false_r. unfold run_end. simpl. f_equal. f_equal; lia.
Qed.

(** The [i]-th cell of a run lies [i] steps from its start. *)
Lemma run_lookup fuel cx cy i c :
  run fuel board opponent dx dy cx cy !! i = Some c →
  c = run_end dx dy cx cy i ∧ guard board opponent c.1 c.2 = true.
Proof.
  revert cx cy i. induction fuel as [|fuel IH]; intros cx cy i; simpl; [done|].
  destruct (guard board opponent cx cy) eqn:Hg; [|done].
  destruct i as [|i]; simpl.
  - intros [= <-]. split; [|done]. unfold run_end. f_equal; lia.
  - intros Hi. apply IH in Hi as [-> Hc]. split; [|done].
    unfold run_end. f_equal; lia.
Qed.

Lemma run_length_le fuel cx cy :
  (length (run fuel board opponent dx dy cx cy) ≤ fuel)%nat.
Proof.
  revert cx cy. induction fuel as [|fuel IH]; intros cx cy; simpl; [lia|].
  destruct (guard _ _ _ _); simpl; [|lia]. specialize (IH (cx + dx) (cy + dy)). lia.
Qed.

(** A run shorter than the fuel ended because the loop condition failed. *)
Lemma run_stops fuel cx cy :
  (length (run fuel board opponent dx dy cx cy) < fuel)%nat →
  let e := run_end dx dy cx cy (length (run fuel board opponent dx dy cx cy)) in
  guard board opponent e.1 e.2 = false.
Proof.
  revert cx cy. induction fuel as [|fuel IH]; intros cx cy; cbn [run]; [simpl; lia|].
  destruct (guard board opponent cx cy) eqn:Hg; cbn [length].
  - intros Hlt. specialize (IH (cx + dx) (cy + dy) ltac:(lia)).
    unfold run_end in *. cbn [fst snd] in *. rewrite Nat2Z.inj_succ.
    rewrite <- IH. f_equal; lia.
  - intros _. unfold run_end. cbn [fst snd]. rewrite <- Hg. f_equal; lia.
Qed.

(** More fuel does not change a run that stopped by itself. *)
Lemma run_more_fuel fuel fuel' cx cy :
  (length (run fuel board opponent dx dy cx cy) < fuel)%nat →
  (fuel ≤ fuel')%nat →
  run fuel' board opponent dx dy cx cy = run fuel board opponent dx dy cx cy.
Proof.
  revert fuel' cx cy. induction fuel as [|fuel IH]; intros fuel' cx cy; simpl; [lia|].
  destruct fuel' as [|fuel']; [lia|]. simpl.
  destruct (guard board opponent cx cy) eqn:Hg; simpl; [|done].
  intros Hlt Hle. f_equal. apply IH; lia.
Qed.
End Scan.

Lemma is_in_bounds_spec x y :
  is_in_bounds x y = true ↔ 0 ≤ x < 8 ∧ 0 ≤ y < 8.
Proof. unfold is_in_bounds. rewrite !andb_true_iff. lia. Qed.

Lemma elem_of_DIRECTIONS dx dy :
  (dx, dy) ∈ DIRECTIONS ↔
  -1 ≤ dx ≤ 1 ∧ -1 ≤ dy ≤ 1 ∧ (dx ≠ 0 ∨ dy ≠ 0).
Proof.
  unfold DIRECTIONS. rewrite !elem_of_cons, elem_of_nil. split.
  - intros H; repeat destruct H as [H|H]; try done; inversion H; lia.
  - intros (Hx & Hy & Hne).
    assert (dx = -1 ∨ dx = 0 ∨ dx = 1) as [-> | [-> | ->]] by lia;
      assert (dy = -1 ∨ dy = 0 ∨ dy = 1) as [-> | [-> | ->]] by lia;
      try lia; clear; repeat (first [by left | right]).
Qed.

(** From a cell of the board, in a direction of [DIRECTIONS], a scan leaves
    the board within seven steps: the fuel of 8 is never used up. *)
Lemma run_within_fuel board opponent x y dx dy :
  is_in_bounds x y = true → (dx, dy) ∈ DIRECTIONS →
  (length (run 8 board opponent dx dy (x + dx) (y + dy)) < 8)%nat.
Proof.
  intros Hxy Hd.
  pose proof (run_length_le board opponent dx dy 8 (x + dx) (y + dy)) as Hle.
  destruct (decide (length (run 8 board opponent dx dy (x + dx) (y + dy)) = 8%nat))
    as [Heq|]; [exfalso|lia].
  destruct (lookup_lt_is_Some_2 (run 8 board opponent dx dy (x + dx) (y + dy)) 7)
    as [c Hc]; [lia|].
  apply run_lookup in Hc as [-> Hg]. unfold guard, run_end in Hg. simpl in Hg.
  apply andb_true_iff in Hg as [Hb _].
  apply is_in_bounds_spec in Hb. apply is_in_bounds_spec in Hxy.
  apply elem_of_DIRECTIONS in Hd. lia.
Qed.

(** ** The loops of the engine, through [bounded_run] *)

Lemma direction_hits_bounded_run board player x y d :
  direction_hits board player x y d =
    negb (bool_decide (bounded_run board player x y d = [])).
Proof.
  destruct d as [dx dy]. unfold direction_hits, bounded_run. cbn [fst snd].
  rewrite scan_saw_run. unfold run_end. cbn [fst snd orb].
  set (r := run 8 board (1 - player) dx dy (x + dx) (y + dy)).
  destruct (is_in_bounds _ _ && (cell_at board _ _ =? player)) eqn:He.
  - apply andb_true_iff in He as [-> ->]. by rewrite !andb_true_r.
  - rewrite <- andb_assoc, He, andb_false_r. by rewrite bool_decide_eq_true_2.
Qed.

Lemma collect_flips_bounded_run board player x y flips d :
  collect_flips board player x y flips d =
    flips ++ bounded_run board player x y d.
Proof.
  destruct d as [dx dy]. unfold collect_flips, bounded_run. cbn [fst snd].
  rewrite scan_path_run. unfold run_end. cbn [fst snd app].
  set (r := run 8 board (1 - player) dx dy (x + dx) (y + dy)).
  destruct (is_in_bounds _ _ && (cell_at board _ _ =? player)) eqn:He.
  - rewrite <- andb_assoc, He, andb_true_r.
    case_bool_decide as Hr; cbn [negb]; [by rewrite Hr, app_nil_r|done].
  - rewrite <- andb_assoc, He, andb_false_r. by rewrite app_nil_r.
Qed.

Lemma foldl_collect_flips board player x y dirs flips :
  foldl (collect_flips board player x y) flips dirs =
    flips ++ (dirs ≫= bounded_run board player x y).
Proof.
  revert flips. induction dirs as [|d dirs IH]; intros flips; simpl.
  - by rewrite app_nil_r.
  - rewrite IH, collect_flips_bounded_run, <- app_assoc. done.
Qed.

Lemma all_flips_nil board player x y dirs :
  dirs ≫= bounded_run board player x y = [] ↔
  Forall (λ d, direction_hits board player x y d = false) dirs.
Proof.
  induction dirs as [|d dirs IH]; [split; [by constructor | done]|].
  rewrite bind_cons, Forall_cons, <- IH, direction_hits_bounded_run.
  rewrite negb_false_iff, bool_decide_eq_true.
  split; [by intros [??]%app_eq_nil | intros [-> ->]; done].
Qed.

Lemma try_directions_spec board player x y dirs moves :
  try_directions board player x y dirs moves =
    if bool_decide (dirs ≫= bounded_run board player x y = [])
    then moves else {[ (x, y) ]} ∪ moves.
Proof.
  induction dirs as [|d dirs IH]; cbn [try_directions]; [done|].
  destruct (direction_hits board player x y d) eqn:Hd.
  - rewrite bool_decide_eq_false_2; [done|].
    rewrite all_flips_nil, Forall_cons. intros [? _]; congruence.
  - rewrite IH.
    replace (bool_decide ((d :: dirs) ≫= bounded_run board player x y = []))
      with (bool_decide (dirs ≫= bounded_run board player x y = [])); [done|].
    apply bool_decide_ext. rewrite !all_flips_nil, Forall_cons.
    split; [by intros ?; split | by intros [_ ?]].
Qed.

Section LegalMoves.
Variable board : list (list Z).
Variable player : Z.

Lemma elem_of_row_step y moves x c :
  c ∈ row_step board player y moves x ↔
  c ∈ moves ∨ (c = (x, y) ∧ legal_cell board player x y = true).
Proof.
  unfold row_step, legal_cell. rewrite try_directions_spec.
  fold (all_flips board player x y).
  destruct (cell_at board x y =? 255); cbn [negb andb].
  - case_bool_decide; cbn [negb].
    + split; [by left | by intros [?|[_ ?]]].
    + rewrite elem_of_union, elem_of_singleton.
      split; [intros [->|?]; [by right | by left] | intros [?|[-> _]]; auto].
  - split; [by left | by intros [?|[_ ?]]].
Qed.

Lemma elem_of_row_fold y xs moves c :
  c ∈ foldl (row_step board player y) moves xs ↔
  c ∈ moves ∨ ∃ x, x ∈ xs ∧ c = (x, y) ∧ legal_cell board player x y = true.
Proof.
  revert moves. induction xs as [|x xs IH]; intros moves; cbn [foldl].
  - split; [auto|]. intros [?|(x & Hx & _)]; [done|]. by apply elem_of_nil in Hx.
  - rewrite IH, elem_of_row_step. split.
    + intros [[?|[-> ?]]|(x' & ? & ? & ?)]; [by left|right; exists x|right; exists x'];
        by rewrite elem_of_cons; auto.
    + intros [?|(x' & Hx' & -> & Hl)]; [by left; left|].
      apply elem_of_cons in Hx' as [->|Hx']; [by left; right|right; eauto].
Qed.

Lemma elem_of_board_fold ys xs moves c :
  c ∈ foldl (λ moves y, foldl (row_step board player y) moves xs) moves ys ↔
  c ∈ moves ∨
  ∃ x y, x ∈ xs ∧ y ∈ ys ∧ c = (x, y) ∧ legal_cell board player x y = true.
Proof.
  revert moves. induction ys as [|y ys IH]; intros moves; cbn [foldl].
  - split; [auto|]. intros [?|(x & y & _ & Hy & _)]; [done|].
    by apply elem_of_nil in Hy.
  - rewrite IH, elem_of_row_fold. split.
    + intros [[?|(x & ? & ? & ?)]|(x & y' & ? & ? & ? & ?)]; [by left|right..].
      * exists x, y. by rewrite elem_of_cons; auto.
      * exists x, y'. by rewrite elem_of_cons; auto.
    + intros [?|(x & y' & Hx & Hy & -> & Hl)]; [by left; left|].
      apply elem_of_cons in Hy as [->|Hy]; [left; right; eauto|].
      right. exists x, y'. eauto.
Qed.

(** Membership in the list [find_legal_moves] returns. *)
Lemma elem_of_find_legal_moves x y :
  (x, y) ∈ find_legal_moves board player ↔
  is_in_bounds x y = true ∧ legal_cell board player x y = true.
Proof.
  unfold find_legal_moves, sorted.
  rewrite merge_sort_Permutation, elem_of_elements.
  rewrite elem_of_board_fold, is_in_bounds_spec. split.
  - intros [H|(x' & y' & Hx & Hy & [= -> ->] & Hl)]; [by apply elem_of_empty in H|].
    apply elem_of_seqZ in Hx, Hy. split; [lia|done].
  - intros [Hb Hl]. right. exists x, y. rewrite !elem_of_seqZ.
    repeat split; [lia..|done].
Qed.
End LegalMoves.

Lemma find_legal_moves_NoDup board player :
  NoDup (find_legal_moves board player).
Proof.
  unfold find_legal_moves, sorted.
  rewrite merge_sort_Permutation. apply NoDup_elements.
Qed.

Lemma StronglySorted_le_NoDup_lt (l : list (Z * Z)) :
  StronglySorted tuple_le l → NoDup l → StronglySorted tuple_lt l.
Proof.
  induction 1 as [|p l Hl IH Hp]; intros Hnd; [constructor|].
  apply NoDup_cons in Hnd as [Hnotin Hnd].
  constructor; [by apply IH|].
  apply Forall_forall. intros q Hq.
  rewrite Forall_forall in Hp. specialize (Hp q Hq).
  assert (p ≠ q) by (intros ->; done).
  destruct p as [a b], q as [c d]. unfold tuple_le, tuple_lt in *; simpl in *.
  destruct (decide (b = d)) as [->|]; [|lia].
  assert (a ≠ c) by congruence. lia.
Qed.

Lemma apply_player_move_unfold board player x y :
  apply_player_move board player x y =
    if is_in_bounds x y && legal_cell board player x y
    then (place_all board player ((x, y) :: all_flips board player x y),
          (true, 1 + Z.of_nat (length (all_flips board player x y))))
    else (board, (false, 0)).
Proof.
  unfold apply_player_move, legal_cell.
  rewrite foldl_collect_flips. cbn [app]. fold (all_flips board player x y).
  destruct (is_in_bounds x y); cbn [negb orb andb]; [|done].
  destruct (cell_at board x y =? 255); cbn [negb orb andb]; [|done].
  by case_bool_decide.
Qed.

Lemma clone_board_id board : clone_board board = board.
Proof. unfold clone_board. apply list_fmap_id. Qed.

(** ** Reading and writing cells *)

Section BoardAccess.
Variable board : list (list Z).
Hypothesis Hok : board_ok board.

Lemma board_ok_set_cell x y v : board_ok (set_cell board x y v).
Proof.
  destruct Hok as [Hlen Hrows]. unfold set_cell. split.
  - by rewrite length_alter.
  - apply Forall_lookup. intros i row Hi.
    destruct (decide (i = Z.to_nat y)) as [->|Hne].
    + rewrite list_lookup_alter_eq in Hi.
      destruct (board !! Z.to_nat y) as [row'|] eqn:Hrow; [|done].
      injection Hi as <-. rewrite length_insert.
      by eapply (Forall_lookup_1 _ _ _ _ Hrows).
    + rewrite list_lookup_alter_ne in Hi by done.
      by eapply (Forall_lookup_1 _ _ _ _ Hrows).
Qed.

Lemma cell_at_set_cell_eq x y v :
  is_in_bounds x y = true → cell_at (set_cell board x y v) x y = v.
Proof.
  intros Hb%is_in_bounds_spec. destruct Hok as [Hlen Hrows].
  unfold cell_at, set_cell. rewrite list_lookup_alter_eq.
  destruct (lookup_lt_is_Some_2 board (Z.to_nat y)) as [row Hrow]; [lia|].
  rewrite Hrow. simpl.
  rewrite list_lookup_insert_eq; [done|].
  rewrite (Forall_lookup_1 _ _ _ _ Hrows Hrow). lia.
Qed.

Lemma cell_at_set_cell_ne x y v x' y' :
  0 ≤ x → 0 ≤ y → 0 ≤ x' → 0 ≤ y' → (x, y) ≠ (x', y') →
  cell_at (set_cell board x y v) x' y' = cell_at board x' y'.
Proof.
  intros Hx Hy Hx' Hy' Hne. unfold cell_at, set_cell.
  destruct (decide (Z.to_nat y = Z.to_nat y')) as [Heq|Hney].
  - rewrite Heq, list_lookup_alter_eq.
    destruct (board !! Z.to_nat y') as [row|]; [|done]. simpl.
    rewrite list_lookup_insert_ne; [done|].
    intros Hxx. apply Hne. f_equal; lia.
  - by rewrite list_lookup_alter_ne.
Qed.
End BoardAccess.

Lemma board_ok_place_all board player cells :
  board_ok board → board_ok (place_all board player cells).
Proof.
  revert board. induction cells as [|[fx fy] cells IH]; intros board Hok; [done|].
  apply IH. by apply board_ok_set_cell.
Qed.

(** After the writes, a cell holds [player] when it was written and its old
    value otherwise. *)
Lemma cell_at_place_all board player cells cx cy :
  board_ok board →
  Forall (λ c, is_in_bounds c.1 c.2 = true) cells →
  is_in_bounds cx cy = true →
  cell_at (place_all board player cells) cx cy =
    if bool_decide ((cx, cy) ∈ cells) then player else cell_at board cx cy.
Proof.
  intros Hok Hcells Hc. revert board Hok.
  induction Hcells as [|[fx fy] cells Hf Hcells IH]; intros board Hok; [done|].
  cbn [place_all foldl]. fold (place_all (set_cell board fx fy player) player cells).
  rewrite IH by by apply board_ok_set_cell.
  simpl in Hf. apply is_in_bounds_spec in Hf as Hf'. apply is_in_bounds_spec in Hc as Hc'.
  destruct (decide ((cx, cy) = (fx, fy))) as [[= -> ->]|Hne].
  - rewrite (bool_decide_eq_true_2 (_ ∈ _ :: _)) by (apply elem_of_cons; left; done).
    rewrite cell_at_set_cell_eq by done. by case_bool_decide.
  - rewrite cell_at_set_cell_ne by (try lia; congruence).
    apply (f_equal (λ b : bool, if b then player else cell_at board cx cy)).
    apply bool_decide_ext. rewrite elem_of_cons.
    split; [by right | by intros [?|?]].
Qed.

(** ** Runs, cell by cell *)

Section RunSteps.
Variable board : list (list Z).
Variables opponent dx dy : Z.

Lemma run_end_0 cx cy : run_end dx dy cx cy 0 = (cx, cy).
Proof. unfold run_end. f_equal; lia. Qed.

Lemma run_end_S cx cy i :
  run_end dx dy cx cy (S i) = run_end dx dy (cx + dx) (cy + dy) i.
Proof. unfold run_end. f_equal; lia. Qed.

Lemma run_as_steps fuel cx cy :
  run fuel board opponent dx dy cx cy =
    run_end dx dy cx cy <$> seq 0 (length (run fuel board opponent dx dy cx cy)).
Proof.
  revert cx cy. induction fuel as [|fuel IH]; intros cx cy; cbn [run]; [done|].
  destruct (guard board opponent cx cy); [|done].
  cbn [length seq fmap list_fmap]. rewrite run_end_0. f_equal.
  rewrite <- fmap_S_seq, <- list_fmap_compose.
  rewrite IH at 1. apply list_fmap_ext. intros _ i _. simpl. by rewrite run_end_S.
Qed.

Lemma run_guard fuel cx cy i :
  (i < length (run fuel board opponent dx dy cx cy))%nat →
  guard board opponent (run_end dx dy cx cy i).1 (run_end dx dy cx cy i).2 = true.
Proof.
  intros Hi.
  destruct (lookup_lt_is_Some_2 (run fuel board opponent dx dy cx cy) i Hi) as [c Hc].
  by apply run_lookup in Hc as [-> Hg].
Qed.

Lemma run_length_exact fuel n cx cy :
  (n < fuel)%nat →
  (∀ i, (i < n)%nat →
     guard board opponent (run_end dx dy cx cy i).1 (run_end dx dy cx cy i).2 = true) →
  guard board opponent (run_end dx dy cx cy n).1 (run_end dx dy cx cy n).2 = false →
  length (run fuel board opponent dx dy cx cy) = n.
Proof.
  revert n cx cy. induction fuel as [|fuel IH]; intros n cx cy Hn Hin Hout; [lia|].
  cbn [run]. destruct n as [|n].
  - rewrite run_end_0 in Hout. cbn [fst snd] in Hout. by rewrite Hout.
  - pose proof (Hin 0%nat ltac:(lia)) as H0. rewrite run_end_0 in H0.
    cbn [fst snd] in H0. rewrite H0. cbn [length]. f_equal.
    apply IH; [lia| |by rewrite <- run_end_S].
    intros i Hi. rewrite <- run_end_S. apply Hin. lia.
Qed.
End RunSteps.

Lemma run_end_step_from x y d i :
  run_end d.1 d.2 (x + d.1) (y + d.2) i = step_from x y d (Z.of_nat (S i)).
Proof. unfold run_end, step_from. f_equal; lia. Qed.

Section BoundedRuns.
Variable board : list (list Z).
Variables player x y : Z.
Hypothesis Hxy : is_in_bounds x y = true.

(** A bounded run is read off the board as the specification describes it. *)
Lemma bounded_run_bounded_in d :
  d ∈ DIRECTIONS → bounded_run board player x y d ≠ [] →
  bounded_in board player x y d
    (Z.of_nat (length (bounded_run board player x y d))).
Proof.
  intros Hd. unfold bounded_run.
  set (r := run 8 board (1 - player) d.1 d.2 (x + d.1) (y + d.2)).
  destruct (is_in_bounds _ _ && _) eqn:He; [|done]. intros Hr.
  rewrite run_end_step_from in He. apply andb_true_iff in He as [Hb Hc].
  apply Z.eqb_eq in Hc.
  assert (length r ≠ 0%nat) by (by destruct r).
  split; [done|]. split; [lia|]. split.
  - intros i Hi.
    pose proof (run_guard board (1 - player) d.1 d.2 8 (x + d.1) (y + d.2)
                  (Z.to_nat (i - 1)) ltac:(fold r; lia)) as Hg.
    rewrite run_end_step_from in Hg.
    replace (Z.of_nat (S (Z.to_nat (i - 1)))) with i in Hg by lia.
    unfold guard in Hg. apply andb_true_iff in Hg as [? ?%Z.eqb_eq]. done.
  - replace (Z.of_nat (length r) + 1) with (Z.of_nat (S (length r))) by lia. done.
Qed.

(** Conversely the loop collects exactly the cells of a bounded run. *)
Lemma bounded_in_bounded_run d n :
  bounded_in board player x y d n →
  bounded_run board player x y d =
    (λ i : nat, step_from x y d (Z.of_nat (S i))) <$> seq 0 (Z.to_nat n).
Proof.
  intros (Hd & Hn & Hrun & Hb & Hc).
  assert (n < 7) as Hn7.
  { destruct d as [dx dy]. apply elem_of_DIRECTIONS in Hd.
    apply is_in_bounds_spec in Hb, Hxy. unfold step_from in Hb. simpl in Hb. nia. }
  assert (length (run 8 board (1 - player) d.1 d.2 (x + d.1) (y + d.2))
          = Z.to_nat n) as Hlen.
  { apply run_length_exact; [lia| |].
    - intros i Hi. rewrite run_end_step_from. unfold guard.
      destruct (Hrun (Z.of_nat (S i)) ltac:(lia)) as [-> ->].
      by rewrite Z.eqb_refl.
    - rewrite run_end_step_from. unfold guard.
      replace (Z.of_nat (S (Z.to_nat n))) with (n + 1) by lia.
      rewrite Hb, Hc. cbn [andb]. apply Z.eqb_neq. lia. }
  unfold bounded_run. rewrite Hlen, run_end_step_from.
  replace (Z.of_nat (S (Z.to_nat n))) with (n + 1) by lia.
  rewrite Hb, Hc, Z.eqb_refl. cbn [andb].
  rewrite run_as_steps, Hlen. apply list_fmap_ext. intros _ i _.
  apply run_end_step_from.
Qed.

Lemma bounded_in_length d n :
  bounded_in board player x y d n →
  Z.of_nat (length (bounded_run board player x y d)) = n.
Proof.
  intros Hb. rewrite (bounded_in_bounded_run d n Hb), length_fmap, length_seq.
  destruct Hb as (_ & ? & _). lia.
Qed.

Lemma elem_of_bounded_run d c :
  d ∈ DIRECTIONS →
  c ∈ bounded_run board player x y d ↔
  ∃ n k, bounded_in board player x y d n ∧ 1 ≤ k ≤ n ∧ c = step_from x y d k.
Proof.
  intros Hd. split.
  - intros Hc.
    assert (bounded_run board player x y d ≠ []) as Hne
      by (intros Heq; rewrite Heq in Hc; by apply elem_of_nil in Hc).
    pose proof (bounded_run_bounded_in d Hd Hne) as Hb.
    rewrite (bounded_in_bounded_run _ _ Hb) in Hc.
    apply list_elem_of_fmap in Hc as (i & -> & Hi%elem_of_seq).
    eexists _, (Z.of_nat (S i)). split; [done|]. split; [lia|done].
  - intros (n & k & Hb & Hk & ->).
    rewrite (bounded_in_bounded_run _ _ Hb).
    apply list_elem_of_fmap. exists (Z.to_nat (k - 1)). split.
    + f_equal. lia.
    + apply elem_of_seq. lia.
Qed.

(** The list of flips holds exactly the opponent pieces on bounded runs. *)
Lemma elem_of_all_flips c :
  c ∈ all_flips board player x y ↔ on_bounded_run board player x y c.
Proof.
  unfold all_flips, on_bounded_run. rewrite list_elem_of_bind. split.
  - intros (d & Hc & Hd). apply elem_of_bounded_run in Hc as (n & k & ?); [|done].
    by exists d, n, k.
  - intros (d & n & k & Hb & Hk & ->). exists d. split; [|by destruct Hb].
    apply elem_of_bounded_run; [by destruct Hb|]. by exists n, k.
Qed.

Lemma all_flips_nonempty :
  all_flips board player x y ≠ [] ↔ has_bounded_run board player x y.
Proof.
  unfold has_bounded_run. split.
  - intros Hne. destruct (all_flips board player x y) as [|c l] eqn:Heq; [done|].
    assert (c ∈ all_flips board player x y) as Hc by (rewrite Heq; by left).
    apply elem_of_all_flips in Hc as (d & n & k & Hb & _). by exists d, n.
  - intros (d & n & Hb) Heq.
    assert (step_from x y d 1 ∈ all_flips board player x y) as Hc.
    { apply elem_of_all_flips. exists d, n, 1. destruct Hb as (? & ? & ?) eqn:E.
      split; [done|]. split; [lia|done]. }
    rewrite Heq in Hc. by apply elem_of_nil in Hc.
Qed.

Lemma all_flips_in_bounds :
  Forall (λ c, is_in_bounds c.1 c.2 = true) (all_flips board player x y).
Proof.
  apply Forall_forall. intros c (d & n & k & Hb & Hk & ->)%elem_of_all_flips.
  destruct Hb as (_ & _ & Hrun & _). by destruct (Hrun k Hk).
Qed.

Lemma all_flips_opponent c :
  c ∈ all_flips board player x y → cell_at board c.1 c.2 = 1 - player.
Proof.
  intros (d & n & k & Hb & Hk & ->)%elem_of_all_flips.
  destruct Hb as (_ & _ & Hrun & _). by destruct (Hrun k Hk).
Qed.

Lemma step_from_inj d1 d2 k1 k2 :
  d1 ∈ DIRECTIONS → d2 ∈ DIRECTIONS → 1 ≤ k1 → 1 ≤ k2 →
  step_from x y d1 k1 = step_from x y d2 k2 → d1 = d2 ∧ k1 = k2.
Proof.
  destruct d1 as [a1 b1], d2 as [a2 b2].
  intros H1%elem_of_DIRECTIONS H2%elem_of_DIRECTIONS Hk1 Hk2.
  unfold step_from. simpl. intros [= Ha Hb].
  assert (a1 = -1 ∨ a1 = 0 ∨ a1 = 1) as [-> | [-> | ->]] by lia;
  assert (b1 = -1 ∨ b1 = 0 ∨ b1 = 1) as [-> | [-> | ->]] by lia;
  assert (a2 = -1 ∨ a2 = 0 ∨ a2 = 1) as [-> | [-> | ->]] by lia;
  assert (b2 = -1 ∨ b2 = 0 ∨ b2 = 1) as [-> | [-> | ->]] by lia;
  first [lia | split; [done|lia]].
Qed.

Lemma all_flips_not_origin : (x, y) ∉ all_flips board player x y.
Proof.
  intros (d & n & k & Hb & Hk & Heq)%elem_of_all_flips.
  destruct Hb as (Hd & _). destruct d as [dx dy].
  apply elem_of_DIRECTIONS in Hd. unfold step_from in Heq. simpl in Heq.
  injection Heq as Hx Hy. nia.
Qed.

(** No cell is collected twice, so [len(flips)] counts the flipped pieces. *)
Lemma all_flips_NoDup : NoDup (all_flips board player x y).
Proof.
  unfold all_flips. apply NoDup_bind.
  - intros d1 d2 c Hd1 Hd2 Hc1 Hc2.
    apply elem_of_bounded_run in Hc1 as (n1 & k1 & _ & Hk1 & ->); [|done].
    apply elem_of_bounded_run in Hc2 as (n2 & k2 & _ & Hk2 & Heq); [|done].
    apply step_from_inj in Heq as [? _]; [done|done|done|lia..].
  - intros d Hd.
    destruct (decide (bounded_run board player x y d = [])) as [->|Hne];
      [constructor|].
    rewrite (bounded_in_bounded_run _ _ (bounded_run_bounded_in d Hd Hne)).
    apply NoDup_fmap_2_strong; [|apply NoDup_seq].
    intros i j _ _ Heq. apply step_from_inj in Heq as [_ ?]; [lia|done..|lia|lia].
  - apply (bool_decide_unpack _). by vm_compute.
Qed.
End BoundedRuns.

(** ** Counting pieces *)

Lemma count_row_fold (row : list Z) (b w : Z) :
  foldl (λ '(b, w) c,
      if c =? 0 then (b + 1, w)
      else if c =? 1 then (b, w + 1)
      else (b, w)) (b, w) row =
    (b + Z.of_nat (length (filter (λ c, c = 0) row)),
     w + Z.of_nat (length (filter (λ c, c = 1) row))).
Proof.
  revert b w. induction row as [|c row IH]; intros b w; cbn [foldl].
  - simpl. apply pair_equal_spec; split; lia.
  - rewrite !filter_cons.
    destruct (c =? 0) eqn:H0; [apply Z.eqb_eq in H0 as ->|apply Z.eqb_neq in H0].
    + rewrite IH. rewrite decide_True by done. rewrite decide_False by done.
      cbn [length]. apply pair_equal_spec; split; lia.
    + destruct (c =? 1) eqn:H1; [apply Z.eqb_eq in H1 as ->|apply Z.eqb_neq in H1].
      * rewrite IH. rewrite decide_False by done. rewrite decide_True by done.
        cbn [length]. apply pair_equal_spec; split; lia.
      * rewrite IH. by rewrite !decide_False by done.
Qed.

Lemma count_pieces_count_cells board :
  count_pieces board =
    (Z.of_nat (count_cells 0 board), Z.of_nat (count_cells 1 board)).
Proof.
  unfold count_pieces, count_cells.
  assert (∀ b w, foldl (λ bw row,
      foldl (λ '(b, w) c,
        if c =? 0 then (b + 1, w)
        else if c =? 1 then (b, w + 1)
        else (b, w)) bw row) (b, w) board =
    (b + Z.of_nat (length (filter (λ c, c = 0) (mjoin board))),
     w + Z.of_nat (length (filter (λ c, c = 1) (mjoin board))))) as H.
  { induction board as [|row board IH]; intros b w; cbn [foldl].
    - simpl. apply pair_equal_spec; split; lia.
    - rewrite count_row_fold, IH.
      change (mjoin (row :: board)) with (row ++ mjoin board).
      rewrite !filter_app, !length_app. apply pair_equal_spec; split; lia. }
  rewrite H. f_equal.
Qed.

Lemma set_cell_split board x y :
  board_ok board → is_in_bounds x y = true →
  ∃ rows1 rows2 c1 c2,
    board = rows1 ++ (c1 ++ cell_at board x y :: c2) :: rows2 ∧
    ∀ v, set_cell board x y v = rows1 ++ (c1 ++ v :: c2) :: rows2.
Proof.
  intros [Hlen Hrows] Hb%is_in_bounds_spec.
  destruct (lookup_lt_is_Some_2 board (Z.to_nat y)) as [row Hrow]; [lia|].
  pose proof (Forall_lookup_1 _ _ _ _ Hrows Hrow) as Hrlen. simpl in Hrlen.
  destruct (lookup_lt_is_Some_2 row (Z.to_nat x)) as [c Hc]; [lia|].
  assert (cell_at board x y = c) as Hcell.
  { unfold cell_at. rewrite Hrow. simpl. by rewrite Hc. }
  exists (take (Z.to_nat y) board), (drop (S (Z.to_nat y)) board),
    (take (Z.to_nat x) row), (drop (S (Z.to_nat x)) row).
  rewrite Hcell, (take_drop_middle row _ c Hc). split.
  - by rewrite (take_drop_middle board _ row Hrow).
  - intros v. unfold set_cell.
    rewrite <- (take_drop_middle board _ row Hrow) at 1.
    rewrite alter_app_r_alt by (rewrite length_take; lia).
    rewrite length_take, Nat.min_l, Nat.sub_diag by lia. cbn [alter list_alter].
    do 2 f_equal.
    rewrite <- (take_drop_middle row _ c Hc) at 1.
    rewrite insert_app_r_alt by (rewrite length_take; lia).
    rewrite length_take, Nat.min_l, Nat.sub_diag by lia. done.
Qed.

Lemma count_cells_middle v rows1 rows2 c1 c2 a :
  Z.of_nat (count_cells v (rows1 ++ (c1 ++ a :: c2) :: rows2)) =
    Z.of_nat (count_cells v (rows1 ++ (c1 ++ c2) :: rows2)) + indicator a v.
Proof.
  unfold count_cells, indicator. rewrite !join_app.
  change (mjoin ((c1 ++ a :: c2) :: rows2)) with ((c1 ++ a :: c2) ++ mjoin rows2).
  change (mjoin ((c1 ++ c2) :: rows2)) with ((c1 ++ c2) ++ mjoin rows2).
  rewrite !filter_app, !filter_cons, !length_app.
  case_bool_decide; [rewrite decide_True by done|rewrite decide_False by done];
    cbn [length]; lia.
Qed.

(** One write changes the counts by the value written and the value lost. *)
Lemma count_cells_set_cell board x y new v :
  board_ok board → is_in_bounds x y = true →
  Z.of_nat (count_cells v (set_cell board x y new)) =
    Z.of_nat (count_cells v board) + indicator new v
      - indicator (cell_at board x y) v.
Proof.
  intros Hok Hb.
  destruct (set_cell_split board x y Hok Hb) as (r1 & r2 & c1 & c2 & Hboard & Hset).
  rewrite Hset. clear Hset. revert Hboard.
  generalize (cell_at board x y). intros old ->.
  rewrite !count_cells_middle. lia.
Qed.

(** Writing [player] over distinct cells that all hold [old]. *)
Lemma count_cells_place_all board player old cells v :
  board_ok board → NoDup cells →
  Forall (λ c, is_in_bounds c.1 c.2 = true) cells →
  (∀ c, c ∈ cells → cell_at board c.1 c.2 = old) →
  Z.of_nat (count_cells v (place_all board player cells)) =
    Z.of_nat (count_cells v board)
      + Z.of_nat (length cells) * (indicator player v - indicator old v).
Proof.
  intros Hok Hnd Hin. revert board Hok.
  induction Hin as [|[fx fy] cells Hf Hin IH]; intros board Hok Hold.
  - simpl. lia.
  - apply NoDup_cons in Hnd as [Hnotin Hnd]. simpl in Hf.
    cbn [place_all foldl]. fold (place_all (set_cell board fx fy player) player cells).
    rewrite IH; [|done|by apply board_ok_set_cell|].
    + rewrite count_cells_set_cell by done.
      pose proof (Hold (fx, fy) ltac:(by left)) as Hfold. simpl in Hfold.
      rewrite Hfold. cbn [length]. lia.
    + intros [cx cy] Hc. simpl.
      pose proof (proj1 (Forall_forall _ _) Hin _ Hc) as Hcb. simpl in Hcb.
      apply is_in_bounds_spec in Hcb, Hf.
      rewrite cell_at_set_cell_ne; [|lia..|by intros [= -> ->]].
      apply (Hold (cx, cy)). by right.
Qed.

(** ** The scanning loops leave by their condition *)

(** With the fuel of 8 the loop of [find_legal_moves] stops on a cell where
    its condition is false, and more fuel yields the same result. *)
Lemma scan_saw_exits board opponent x y dx dy saw :
  is_in_bounds x y = true → (dx, dy) ∈ DIRECTIONS →
  guard board opponent
    (scan_saw 8 board opponent dx dy (x + dx) (y + dy) saw).2.1
    (scan_saw 8 board opponent dx dy (x + dx) (y + dy) saw).2.2 = false ∧
  ∀ fuel, (8 ≤ fuel)%nat →
    scan_saw fuel board opponent dx dy (x + dx) (y + dy) saw =
    scan_saw 8 board opponent dx dy (x + dx) (y + dy) saw.
Proof.
  intros Hxy Hd.
  pose proof (run_within_fuel board opponent x y dx dy Hxy Hd) as Hlt.
  split.
  - rewrite scan_saw_run. cbn [fst snd]. by apply run_stops.
  - intros fuel Hfuel. rewrite !scan_saw_run.
    by rewrite (run_more_fuel board opponent dx dy 8 fuel).
Qed.

(** The same for the loop of [apply_player_move]. *)
Lemma scan_path_exits board opponent x y dx dy path :
  is_in_bounds x y = true → (dx, dy) ∈ DIRECTIONS →
  guard board opponent
    (scan_path 8 board opponent dx dy (x + dx) (y + dy) path).2.1
    (scan_path 8 board opponent dx dy (x + dx) (y + dy) path).2.2 = false ∧
  ∀ fuel, (8 ≤ fuel)%nat →
    scan_path fuel board opponent dx dy (x + dx) (y + dy) path =
    scan_path 8 board opponent dx dy (x + dx) (y + dy) path.
Proof.
  intros Hxy Hd.
  pose proof (run_within_fuel board opponent x y dx dy Hxy Hd) as Hlt.
  split.
  - rewrite scan_path_run. cbn [fst snd]. by apply run_stops.
  - intros fuel Hfuel. rewrite !scan_path_run.
    by rewrite (run_more_fuel board opponent dx dy 8 fuel).
Qed.

(** ** Legal moves and applied moves *)

Lemma board_ok_initial : board_ok create_initial_board.
Proof. split; [done|]. repeat constructor. Qed.

Lemma legal_cell_spec board player x y :
  is_in_bounds x y = true →
  legal_cell board player x y = true ↔
  cell_at board x y = 255 ∧ has_bounded_run board player x y.
Proof.
  intros Hxy. unfold legal_cell.
  rewrite andb_true_iff, Z.eqb_eq, negb_true_iff, bool_decide_eq_false.
  by rewrite all_flips_nonempty.
Qed.

Lemma all_flips_length_pos board player x y :
  legal_cell board player x y = true →
  (1 ≤ length (all_flips board player x y))%nat.
Proof.
  unfold legal_cell. intros [_ H]%andb_true_iff.
  apply negb_true_iff, bool_decide_eq_false in H.
  destruct (all_flips board player x y); [done|simpl; lia].
Qed.

Lemma bounded_run_length_le board player x y d :
  is_in_bounds x y = true → d ∈ DIRECTIONS →
  (length (bounded_run board player x y d) ≤ 7)%nat.
Proof.
  intros Hxy Hd. unfold bounded_run. destruct (_ && _); [|simpl; lia].
  destruct d as [dx dy].
  pose proof (run_within_fuel board (1 - player) x y dx dy Hxy Hd).
  cbn [fst snd]. lia.
Qed.

Lemma all_flips_length_le board player x y :
  is_in_bounds x y = true →
  (length (all_flips board player x y) ≤ 8 * 7)%nat.
Proof.
  intros Hxy. unfold all_flips.
  assert (∀ dirs : list (Z * Z), dirs ⊆ DIRECTIONS →
    (length (dirs ≫= bounded_run board player x y) ≤ length dirs * 7)%nat) as H.
  { induction dirs as [|d dirs IH]; intros Hsub; [simpl; lia|].
    rewrite bind_cons, length_app. cbn [length].
    assert (d ∈ DIRECTIONS) as Hd by (apply Hsub; by left).
    pose proof (bounded_run_length_le board player x y d Hxy Hd).
    assert (dirs ⊆ DIRECTIONS) as Hsub' by (intros d' Hd'; apply Hsub; by right).
    specialize (IH Hsub'). lia. }
  apply (H DIRECTIONS). done.
Qed.

(** C2: [apply_player_move] returns [(False, 0)] and leaves the board as it
    was whenever the cell is off the board, is not empty, or no direction
    yields a bounded run of opponent pieces; otherwise it writes the
    player's piece on [(x, y)] and on exactly the opponent pieces of the
    bounded runs, changes no other cell, and returns [True] with 1 plus the
    number of flipped pieces. *)
Theorem apply_player_move_spec board player x y :
  board_ok board →
  (is_in_bounds x y = false ∨ cell_at board x y ≠ 255 ∨
   ¬ has_bounded_run board player x y →
   apply_player_move board player x y = (board, (false, 0))) ∧
  (is_in_bounds x y = true → cell_at board x y = 255 →
   has_bounded_run board player x y →
   ∃ board' flips,
     apply_player_move board player x y =
       (board', (true, 1 + Z.of_nat (length flips))) ∧
     NoDup flips ∧
     (∀ c, c ∈ flips ↔ on_bounded_run board player x y c) ∧
     board_ok board' ∧
     ∀ cx cy, is_in_bounds cx cy = true →
       cell_at board' cx cy =
         if bool_decide ((cx, cy) = (x, y) ∨ (cx, cy) ∈ flips)
         then player else cell_at board cx cy).
Proof.
  intros Hok. rewrite apply_player_move_unfold. split.
  - intros Hfail. destruct (is_in_bounds x y) eqn:Hxy; [|done].
    destruct (legal_cell board player x y) eqn:Hl; [|done].
    apply legal_cell_spec in Hl as [Hc Hrun]; [|done].
    by destruct Hfail as [?|[?|?]].
  - intros Hxy Hc Hrun.
    rewrite Hxy, (proj2 (legal_cell_spec board player x y Hxy)) by done.
    cbn [andb]. eexists _, (all_flips board player x y).
    split; [done|]. split; [by apply all_flips_NoDup|].
    split; [intros c; by apply elem_of_all_flips|].
    split; [by apply board_ok_place_all|].
    intros cx cy Hcb. rewrite cell_at_place_all; [|done| |done].
    + apply (f_equal (λ b : bool, if b then player else cell_at board cx cy)).
      apply bool_decide_ext. rewrite elem_of_cons. done.
    + constructor; [done|by apply all_flips_in_bounds].
Qed.

Lemma initial_bounded_run :
  bounded_in create_initial_board 0 5 3 (-1, 0) 1.
Proof.
  split; [apply (bool_decide_unpack _); by vm_compute|].
  split; [lia|]. split; [|by vm_compute].
  intros i Hi. assert (i = 1) as -> by lia. by vm_compute.
Qed.

Lemma apply_player_move_spec_witness :
  apply_player_move create_initial_board 0 0 0 =
    (create_initial_board, (false, 0)) ∧
  ∃ board' flips,
    apply_player_move create_initial_board 0 5 3 =
      (board', (true, 1 + Z.of_nat (length flips))) ∧
    NoDup flips ∧
    (∀ c, c ∈ flips ↔ on_bounded_run create_initial_board 0 5 3 c) ∧
    board_ok board' ∧
    ∀ cx cy, is_in_bounds cx cy = true →
      cell_at board' cx cy =
        if bool_decide ((cx, cy) = (5, 3) ∨ (cx, cy) ∈ flips)
        then 0 else cell_at create_initial_board cx cy.
Proof.
  split.
  - apply (proj1 (apply_player_move_spec create_initial_board 0 0 0
                    board_ok_initial)).
    right. right. intros (d & n & Hd & Hn & Hrun & _).
    destruct (Hrun 1 ltac:(lia)) as [Hb Hc].
    destruct d as [dx dy]. apply elem_of_DIRECTIONS in Hd.
    apply is_in_bounds_spec in Hb. unfold step_from in Hb, Hc. simpl in Hb, Hc.
    assert (dx = 0 ∨ dx = 1) as [-> | ->] by lia;
      assert (dy = 0 ∨ dy = 1) as [-> | ->] by lia; by vm_compute in Hc.
  - apply (proj2 (apply_player_move_spec create_initial_board 0 5 3
                    board_ok_initial)).
    + by vm_compute.
    + by vm_compute.
    + exists (-1, 0), 1. exact initial_bounded_run.
Defined.

(** C3: [check_game_over] is true exactly when neither the side to move nor
    its opponent has a legal move; on the initial board it is false for
    player 0, both sides having moves. *)
Theorem check_game_over_spec :
  (∀ board side,
     check_game_over board side = true ↔
     find_legal_moves board side = [] ∧
     find_legal_moves board (1 - side) = []) ∧
  check_game_over create_initial_board 0 = false ∧
  find_legal_moves create_initial_board 0 ≠ [] ∧
  find_legal_moves create_initial_board (1 - 0) ≠ [].
Proof.
  split; [|by vm_compute].
  intros board side. unfold check_game_over.
  destruct (find_legal_moves board side) as [|m l].
  - rewrite bool_decide_eq_true_2 by reflexivity. cbn [negb].
    destruct (find_legal_moves board (1 - side)) as [|m' l'].
    + rewrite bool_decide_eq_true_2 by reflexivity. cbn [negb].
      split; intros _; [split|]; reflexivity.
    + rewrite bool_decide_eq_false_2 by discriminate. cbn [negb].
      split; [discriminate|intros [_ ?]; discriminate].
  - rewrite bool_decide_eq_false_2 by discriminate. cbn [negb].
    split; [discriminate|intros [? _]; discriminate].
Qed.

(** C7, as the code has it: the list returned by [find_legal_moves] has no
    duplicates and is strictly increasing in the order of Python tuples
    [(x, y)], column [x] first and row [y] second. *)
Theorem find_legal_moves_sorted board player :
  NoDup (find_legal_moves board player) ∧
  StronglySorted tuple_lt (find_legal_moves board player).
Proof.
  split; [apply find_legal_moves_NoDup|].
  apply StronglySorted_le_NoDup_lt; [|apply find_legal_moves_NoDup].
  unfold find_legal_moves, sorted.
  apply (StronglySorted_merge_sort tuple_le).
Qed.

(** C7 as stated fails: on the initial board the moves of player 0 come out
    as [(2, 4); (3, 5); (4, 2); (5, 3)], where row 5 precedes row 2. *)
Lemma find_legal_moves_not_row_major :
  ¬ (∀ board player, Sorted row_major_le (find_legal_moves board player)).
Proof.
  intros H. specialize (H create_initial_board 0).
  assert (find_legal_moves create_initial_board 0 = [(2, 4); (3, 5); (4, 2); (5, 3)])
    as Heq by by vm_compute.
  rewrite Heq in H.
  apply Sorted_inv in H as [H _]. apply Sorted_inv in H as [_ H].
  apply HdRel_inv in H. unfold row_major_le in H. simpl in H. lia.
Qed.

(** ** Piece counts *)

Lemma pieces_of_count_cells player board :
  player = 0 ∨ player = 1 →
  pieces_of player board = Z.of_nat (count_cells player board).
Proof.
  unfold pieces_of. rewrite count_pieces_count_cells.
  by intros [-> | ->].
Qed.

Lemma apply_player_move_success board player x y board' n :
  apply_player_move board player x y = (board', (true, n)) →
  is_in_bounds x y = true ∧ legal_cell board player x y = true ∧
  board' = place_all board player ((x, y) :: all_flips board player x y) ∧
  n = 1 + Z.of_nat (length (all_flips board player x y)).
Proof.
  rewrite apply_player_move_unfold.
  destruct (is_in_bounds x y), (legal_cell board player x y); cbn [andb];
    intros [= <- <-]; done.
Qed.

(** The counts after a successful move, cell value by cell value. *)
Lemma count_cells_after_move board player x y v :
  board_ok board → is_in_bounds x y = true →
  legal_cell board player x y = true →
  Z.of_nat (count_cells v
      (place_all board player ((x, y) :: all_flips board player x y))) =
    Z.of_nat (count_cells v board)
    + indicator player v - indicator 255 v
    + Z.of_nat (length (all_flips board player x y))
      * (indicator player v - indicator (1 - player) v).
Proof.
  intros Hok Hxy Hl.
  apply legal_cell_spec in Hl as [Hc _]; [|done].
  cbn [place_all foldl].
  fold (place_all (set_cell board x y player) player (all_flips board player x y)).
  rewrite (count_cells_place_all _ player (1 - player));
    [|by apply board_ok_set_cell|by apply all_flips_NoDup
     |by apply all_flips_in_bounds|].
  - rewrite count_cells_set_cell, Hc by done. lia.
  - intros [cx cy] Hin.
    pose proof (proj1 (Forall_forall _ _)
                  (all_flips_in_bounds board player x y Hxy) _ Hin) as Hcb. simpl in Hcb. apply is_in_bounds_spec in Hcb as Hcb'.
    apply is_in_bounds_spec in Hxy as Hxy'. cbn [fst snd].
    rewrite cell_at_set_cell_ne; [|lia..|].
    + by apply (all_flips_opponent board player x y Hxy) in Hin.
    + intros [= -> ->].
      by apply (all_flips_not_origin board player cx cy Hxy).
Qed.

(** C8, as the code has it: a successful move changes [n >= 2] cells, at
    most [1 + 8 * 7]; the mover gains [n] pieces, the opponent loses [n - 1]
    (the flipped ones), and the number of occupied cells grows by one. *)
Theorem apply_player_move_counts board player x y board' n :
  board_ok board → player = 0 ∨ player = 1 →
  apply_player_move board player x y = (board', (true, n)) →
  2 ≤ n ≤ 1 + 8 * 7 ∧
  pieces_of player board' = pieces_of player board + n ∧
  pieces_of (1 - player) board' = pieces_of (1 - player) board - (n - 1) ∧
  occupied board' = occupied board + 1.
Proof.
  intros Hok Hp (Hxy & Hl & -> & ->)%apply_player_move_success.
  pose proof (all_flips_length_pos board player x y Hl) as Hpos.
  pose proof (all_flips_length_le board player x y Hxy) as Hle.
  pose proof (count_cells_after_move board player x y 0 Hok Hxy Hl) as H0.
  pose proof (count_cells_after_move board player x y 1 Hok Hxy Hl) as H1.
  unfold occupied, pieces_of. rewrite !count_pieces_count_cells. cbn [fst snd].
  unfold indicator in H0, H1.
  destruct Hp as [-> | ->]; simpl in H0, H1 |- *; lia.
Qed.

Lemma apply_player_move_counts_witness :
  2 ≤ 2 ≤ 1 + 8 * 7 ∧
  pieces_of 0 (apply_player_move create_initial_board 0 5 3).1 =
    pieces_of 0 create_initial_board + 2 ∧
  pieces_of (1 - 0) (apply_player_move create_initial_board 0 5 3).1 =
    pieces_of (1 - 0) create_initial_board - (2 - 1) ∧
  occupied (apply_player_move create_initial_board 0 5 3).1 =
    occupied create_initial_board + 1.
Proof.
  apply (apply_player_move_counts create_initial_board 0 5 3 _ 2
           board_ok_initial (or_introl eq_refl)).
  by vm_compute.
Defined.

(** C8 as stated fails: on the initial board player 0 playing [(5, 3)] gains
    two pieces while player 1 loses one. *)
Lemma mover_gain_is_not_opponent_loss :
  ¬ (∀ board player x y board' n,
       board_ok board → player = 0 ∨ player = 1 →
       apply_player_move board player x y = (board', (true, n)) →
       pieces_of player board' - pieces_of player board =
       pieces_of (1 - player) board - pieces_of (1 - player) board').
Proof.
  intros H.
  specialize (H create_initial_board 0 5 3
                (apply_player_move create_initial_board 0 5 3).1 2
                board_ok_initial (or_introl eq_refl) ltac:(by vm_compute)).
  vm_compute in H. done.
Qed.

(** C1: every cell returned by [find_legal_moves] is accepted by
    [apply_player_move]: the cell is empty before the call and holds the
    player's piece after it, at least one cell that held an opponent piece
    holds the player's piece after it, and the call returns [applied = true]
    with a count [n >= 2], the placed piece and the [n - 1 >= 1] flipped
    pieces, which the player gains and the opponent loses; conversely
    [apply_player_move] returns [applied = true] only on cells that
    [find_legal_moves] returns. *)
Theorem legal_moves_are_applied board player :
  board_ok board → player = 0 ∨ player = 1 →
  (∀ x y, (x, y) ∈ find_legal_moves board player →
     ∃ board' n,
       apply_player_move board player x y = (board', (true, n)) ∧ 2 ≤ n ∧
       cell_at board x y = 255 ∧ cell_at board' x y = player ∧
       (∃ fx fy, is_in_bounds fx fy = true ∧
                 cell_at board fx fy = 1 - player ∧
                 cell_at board' fx fy = player) ∧
       pieces_of player board' = pieces_of player board + n ∧
       pieces_of (1 - player) board' =
         pieces_of (1 - player) board - (n - 1)) ∧
  (∀ x y, (apply_player_move board player x y).2.1 = true →
     (x, y) ∈ find_legal_moves board player).
Proof.
  intros Hok Hp. split; intros x y.
  - intros [Hxy Hl]%elem_of_find_legal_moves.
    rewrite apply_player_move_unfold, Hxy, Hl. cbn [andb].
    pose proof (all_flips_length_pos board player x y Hl) as Hpos.
    assert (∃ fx fy, (fx, fy) ∈ all_flips board player x y)
      as (fx & fy & Hin).
    { destruct (all_flips board player x y) as [|[fx fy] flips];
        [cbn [length] in Hpos; lia|].
      exists fx, fy. by left. }
    pose proof (all_flips_in_bounds board player x y Hxy) as Hflips.
    assert (Forall (λ c, is_in_bounds c.1 c.2 = true)
              ((x, y) :: all_flips board player x y)) as Hcells
      by (constructor; [exact Hxy|exact Hflips]).
    eexists _, _. split; [reflexivity|]. split; [lia|].
    split.
    { unfold legal_cell in Hl. apply andb_true_iff in Hl as [Hc _].
      by apply Z.eqb_eq in Hc. }
    split.
    { rewrite cell_at_place_all by done.
      rewrite bool_decide_eq_true_2; [reflexivity|by left]. }
    split.
    { exists fx, fy.
      pose proof (proj1 (Forall_forall _ _) Hflips _ Hin) as Hfb.
      cbn [fst snd] in Hfb. split; [exact Hfb|]. split.
      - exact (all_flips_opponent board player x y Hxy (fx, fy) Hin).
      - rewrite cell_at_place_all by done.
        rewrite bool_decide_eq_true_2; [reflexivity|]. by right. }
    pose proof (count_cells_after_move board player x y 0 Hok Hxy Hl) as H0.
    pose proof (count_cells_after_move board player x y 1 Hok Hxy Hl) as H1.
    unfold pieces_of. rewrite !count_pieces_count_cells. cbn [fst snd].
    unfold indicator in H0, H1.
    destruct Hp as [-> | ->]; simpl in H0, H1 |- *; lia.
  - rewrite apply_player_move_unfold, elem_of_find_legal_moves.
    destruct (is_in_bounds x y), (legal_cell board player x y); by cbn.
Qed.

Lemma legal_moves_are_applied_witness :
  (∃ board' n,
     apply_player_move create_initial_board 0 5 3 = (board', (true, n)) ∧
     2 ≤ n ∧ cell_at board' 5 3 = 0 ∧
     pieces_of 1 board' = pieces_of 1 create_initial_board - (n - 1)) ∧
  (4, 2) ∈ find_legal_moves create_initial_board 0.
Proof.
  pose proof (legal_moves_are_applied create_initial_board 0
                board_ok_initial (or_introl eq_refl)) as [Hlegal Happlied].
  split.
  - destruct (Hlegal 5 3) as (board' & n & Hmove & Hn & _ & Hcell & _ & _ & Hopp).
    { apply (bool_decide_unpack _). by vm_compute. }
    exists board', n. split; [exact Hmove|]. split; [exact Hn|].
    split; [exact Hcell|exact Hopp].
  - apply Happlied. by vm_compute.
Defined.

(** ** The heuristic policy *)

Section FirstMaximum.
Context {A : Type} (sc : A → Z).

(** A left fold that replaces the best entry only by a strictly better one
    ends on the first entry of maximal score. *)
Lemma foldl_keep_better l best :
  (foldl (keep_better sc) best l = best ∧ ∀ m, m ∈ l → sc m ≤ best.1) ∨
  (∃ before m after,
     l = before ++ m :: after ∧
     foldl (keep_better sc) best l = (sc m, m) ∧
     best.1 < sc m ∧
     (∀ m', m' ∈ before → sc m' < sc m) ∧
     (∀ m', m' ∈ after → sc m' ≤ sc m)).
Proof.
  revert best. induction l as [|a l IH]; intros best.
  - left. split; [done|]. intros m Hm. by apply elem_of_nil in Hm.
  - cbn [foldl]. unfold keep_better at 2 4.
    destruct (sc a >? best.1) eqn:Hgt.
    + apply Z.gtb_lt in Hgt. right.
      destruct (IH (sc a, a)) as [[Heq Hle]|(before & m & after & -> & Heq & Hlt & Hb & Ha)].
      * exists [], a, l. rewrite Heq. repeat split; [lia| |done].
        intros m' Hm'. by apply elem_of_nil in Hm'.
      * exists (a :: before), m, after. rewrite Heq. cbn [fst] in Hlt.
        repeat split; [lia| |done].
        intros m' [->|Hm']%elem_of_cons; [lia|by apply Hb].
    + rewrite Z.gtb_ltb in Hgt. apply Z.ltb_ge in Hgt.
      destruct (IH best) as [[Heq Hle]|(before & m & after & -> & Heq & Hlt & Hb & Ha)].
      * left. split; [done|].
        intros m' [->|Hm']%elem_of_cons; [lia|by apply Hle].
      * right. exists (a :: before), m, after. rewrite Heq.
        repeat split; [done| |done].
        intros m' [->|Hm']%elem_of_cons; [lia|by apply Hb].
Qed.
End FirstMaximum.

Lemma foldl_ext_elem {A B} (f g : A → B → A) (l : list B) (a : A) :
  (∀ a b, b ∈ l → f a b = g a b) → foldl f a l = foldl g a l.
Proof.
  revert a. induction l as [|b l IH]; intros a Hfg; [done|]. cbn [foldl].
  rewrite Hfg by (by left). apply IH. intros a' b' Hb'. apply Hfg. by right.
Qed.

Lemma in_corner_set_is_corner x y : in_corner_set x y = is_corner (x, y).
Proof.
  unfold in_corner_set, is_corner. apply bool_decide_ext.
  rewrite !elem_of_cons, elem_of_nil. cbn [fst snd]. split.
  - intros [[= -> ->]|[[= -> ->]|[[= -> ->]|[[= -> ->]|[]]]]]; lia.
  - intros [[-> | ->] [-> | ->]]; auto.
Qed.

Lemma on_edge_is_edge x y : on_edge x y = is_edge (x, y).
Proof.
  unfold on_edge, is_edge. cbn [fst snd].
  apply eq_true_iff_eq. rewrite orb_true_iff, !bool_decide_eq_true.
  rewrite !elem_of_cons, !elem_of_nil. tauto.
Qed.

Lemma simulated_count_legal board player m :
  m ∈ find_legal_moves board player →
  apply_player_move (clone_board board) player m.1 m.2 =
    (place_all board player (m :: all_flips board player m.1 m.2),
     (true, 1 + flipped_pieces board player m)).
Proof.
  destruct m as [x y]. intros [Hb Hl]%elem_of_find_legal_moves.
  rewrite clone_board_id, apply_player_move_unfold. cbn [fst snd].
  by rewrite Hb, Hl.
Qed.

(** On a legal move the loop body of [cpu_select_move] keeps the better of
    the best so far and the move, by the score of the specification. *)
Lemma cpu_consider_legal board player best m :
  m ∈ find_legal_moves board player →
  cpu_consider board player best m =
    keep_better (heuristic_score board player) best m.
Proof.
  intros Hm. unfold cpu_consider, keep_better, heuristic_score, simulated_count,
    position_bonus.
  destruct best as [best_score best_move]. destruct m as [x y].
  pose proof (simulated_count_legal board player (x, y) Hm) as Hsim.
  cbn [fst snd] in Hsim |- *. rewrite Hsim. cbn [fst snd negb].
  rewrite in_corner_set_is_corner, on_edge_is_edge.
  destruct (is_corner (x, y)); [done|].
  destruct (is_edge (x, y)); [done|]. by rewrite Z.add_0_r.
Qed.

(** C9: [cpu_select_move] returns nothing exactly when there is no legal
    move; otherwise it returns a legal move whose score (the count returned
    by simulating the move on a copy of the board, plus 100 on a corner, else
    10 on an edge) is maximal, and strictly greater than the score of every
    legal move enumerated before it.  The simulated count is one more than the
    number of flipped pieces, so the same move maximises flipped pieces plus
    bonus. *)
Theorem cpu_select_move_spec board player :
  board_ok board → player = 0 ∨ player = 1 →
  (cpu_select_move board player = None ↔ find_legal_moves board player = []) ∧
  (∀ m, cpu_select_move board player = Some m →
     ∃ before after,
       find_legal_moves board player = before ++ m :: after ∧
       (∀ m', m' ∈ before →
          heuristic_score board player m' < heuristic_score board player m) ∧
       (∀ m', m' ∈ after →
          heuristic_score board player m' ≤ heuristic_score board player m)) ∧
  (∀ m, m ∈ find_legal_moves board player →
     heuristic_score board player m =
       1 + flipped_pieces board player m + position_bonus m).
Proof.
  intros _ _. unfold cpu_select_move. split; [|split].
  - destruct (find_legal_moves board player); split; done.
  - intros m.
    destruct (find_legal_moves board player) as [|m0 l] eqn:Hmoves; [done|].
    rewrite (foldl_ext_elem _ (keep_better (heuristic_score board player)))
      by (intros a b Hb; apply cpu_consider_legal; by rewrite Hmoves).
    destruct (foldl_keep_better (heuristic_score board player) (m0 :: l) (-1, m0))
      as [[_ Hle]|(before & m' & after & Heq & -> & _ & Hb & Ha)].
    + exfalso. specialize (Hle m0 ltac:(by left)). cbn [fst] in Hle.
      assert (m0 ∈ find_legal_moves board player) as Hm0
        by (rewrite Hmoves; by left).
      unfold heuristic_score, simulated_count, position_bonus in Hle.
      rewrite (simulated_count_legal _ _ _ Hm0) in Hle. cbn [fst snd] in Hle.
      unfold flipped_pieces in Hle.
      destruct (is_corner m0), (is_edge m0); lia.
    + cbn [snd]. intros [= <-]. by exists before, after.
  - intros m Hm. unfold heuristic_score, simulated_count.
    by rewrite (simulated_count_legal _ _ _ Hm).
Qed.

Lemma cpu_select_move_spec_witness :
  cpu_select_move create_initial_board 0 = Some (2, 4) ∧
  ∃ before after,
    find_legal_moves create_initial_board 0 = before ++ (2, 4) :: after ∧
    (∀ m', m' ∈ before →
       heuristic_score create_initial_board 0 m'
         < heuristic_score create_initial_board 0 (2, 4)) ∧
    (∀ m', m' ∈ after →
       heuristic_score create_initial_board 0 m'
         ≤ heuristic_score create_initial_board 0 (2, 4)).
Proof.
  assert (cpu_select_move create_initial_board 0 = Some (2, 4)) as Hsel
    by by vm_compute.
  split; [exact Hsel|].
  exact (proj1 (proj2 (cpu_select_move_spec create_initial_board 0
                         board_ok_initial (or_introl eq_refl))) (2, 4) Hsel).
Defined.

(** ** Lobby ids *)

Lemma randrange_range entropy n lo hi :
  lo < hi → lo ≤ randrange entropy n lo hi < hi.
Proof.
  intros Hlt. unfold randrange.
  pose proof (Z.mod_pos_bound (entropy n) (hi - lo) ltac:(lia)). lia.
Qed.

(** An id that is returned is in range and free. *)
Lemma generate_lobby_id_sound fuel entropy pos existing x pos' :
  generate_lobby_id fuel entropy pos existing = Some (x, pos') →
  1 ≤ x ≤ 65534 ∧ existing !! x = None ∧ (pos < pos')%nat.
Proof.
  revert pos. induction fuel as [|fuel IH]; intros pos; cbn [generate_lobby_id]; [done|].
  case_bool_decide as Hfree.
  - intros [= <- <-]. split; [|split; [done|lia]].
    pose proof (randrange_range entropy pos 1 65535 ltac:(lia)). lia.
  - intros H. apply IH in H as (? & ? & ?). split; [done|]. split; [done|lia].
Qed.







Lemma _send_state_cases lb :
  _send_state lb = (lb, Ok []) ∨
  ∃ r, _send_state lb =
         (Lobby.set_last_hash lb (Some (Lobby.state_hash lb)), r).
Proof.
  unfold _send_state. case_bool_decide; [by left|right].
  destruct (game_state_payload _); eauto.
Qed.







(** ** State broadcasts *)

Lemma broadcast_humans payload addrs :
  broadcast payload addrs = (payload,.) <$> omap id addrs.
Proof.
  induction addrs as [|[a|] addrs IH]; cbn [broadcast omap list_omap]; [done| |done].
  simpl. by rewrite IH.
Qed.

Lemma game_state_payload_head lb payload :
  game_state_payload lb = Ok payload → head payload = Some MessageType.GAME_STATE.
Proof.
  unfold game_state_payload. destruct (count_pieces _) as [b w].
  destruct (pack_state_header _ _ _ _ _); [|done].
  destruct (flat_cells _); [|done]. by intros [= <-].
Qed.

Lemma game_state_payload_set_last_hash lb h :
  game_state_payload (Lobby.set_last_hash lb h) = game_state_payload lb.
Proof. done. Qed.

(** The attempt right after an attempt finds the hash it compares with. *)
Lemma _send_state_again lb :
  _send_state (_send_state lb).1 = ((_send_state lb).1, Ok []).
Proof.
  destruct (_send_state_cases lb) as [Heq|[r Heq]]; rewrite Heq; cbn [fst].
  - exact Heq.
  - unfold _send_state. by rewrite bool_decide_eq_true_2.
Qed.

(** What an attempt sends. *)
Lemma sends_of_send_state lb :
  sends_of (_send_state lb).2 =
    if bool_decide (Lobby._last_hash lb = Some (Lobby.state_hash lb)) then []
    else match game_state_payload lb with
         | Ok payload => (payload,.) <$> human_addresses lb
         | Raise _ => []
         end.
Proof.
  unfold _send_state. case_bool_decide as Hlast.
  - rewrite bool_decide_eq_true_2 by done. reflexivity.
  - rewrite bool_decide_eq_false_2 by (intros Heq; by apply Hlast).
    rewrite game_state_payload_set_last_hash.
    destruct (game_state_payload lb) as [payload|e]; cbn [snd sends_of];
      [by rewrite broadcast_humans|reflexivity].
Qed.

(** C6, as the code has it, for every lobby: an attempt on a lobby whose
    (status, turn index, board) triple is the one recorded at the last
    attempt sends nothing and leaves the lobby as it is; on any other lobby
    it records the triple and, when the fields can be packed, sends one
    GAME_STATE datagram to each human participant, in seat order, and when
    they cannot it raises and sends nothing; every datagram of an attempt is
    a GAME_STATE datagram to a human participant of a lobby whose triple was
    new; the attempt that follows an attempt sends nothing.  Two consecutive
    attempts thus send one datagram to each human participant when the triple
    was new and the fields could be packed, and none otherwise. *)
Theorem send_state_spec (lb : Lobby.t) :
  (Lobby._last_hash lb = Some (Lobby.state_hash lb) →
   _send_state lb = (lb, Ok [])) ∧
  (Lobby._last_hash lb ≠ Some (Lobby.state_hash lb) →
   (_send_state lb).1 = Lobby.set_last_hash lb (Some (Lobby.state_hash lb)) ∧
   match game_state_payload lb with
   | Ok payload =>
       head payload = Some MessageType.GAME_STATE ∧
       (_send_state lb).2 = Ok ((payload,.) <$> human_addresses lb)
   | Raise e => (_send_state lb).2 = Raise e
   end) ∧
  (∀ d, d ∈ sends_of (_send_state lb).2 →
     is_game_state d ∧ d.2 ∈ human_addresses lb ∧
     Lobby._last_hash lb ≠ Some (Lobby.state_hash lb)) ∧
  _send_state (_send_state lb).1 = ((_send_state lb).1, Ok []) ∧
  sends_of (_send_state lb).2 ++ sends_of (_send_state (_send_state lb).1).2 =
    (if bool_decide (Lobby._last_hash lb = Some (Lobby.state_hash lb)) then []
     else match game_state_payload lb with
          | Ok payload => (payload,.) <$> human_addresses lb
          | Raise _ => []
          end) ∧
  length (sends_of (_send_state lb).2 ++
          sends_of (_send_state (_send_state lb).1).2) =
    (if bool_decide (Lobby._last_hash lb = Some (Lobby.state_hash lb)) then 0
     else match game_state_payload lb with
          | Ok _ => length (human_addresses lb)
          | Raise _ => 0
          end)%nat.
Proof.
  split; [|split; [|split; [|split; [|split]]]].
  - intros Hlast. unfold _send_state. by rewrite bool_decide_eq_true_2.
  - intros Hnew. unfold _send_state.
    rewrite bool_decide_eq_false_2 by done.
    rewrite game_state_payload_set_last_hash.
    destruct (game_state_payload lb) as [payload|e] eqn:Hpayload; cbn [fst snd].
    + split; [reflexivity|]. split; [by eapply game_state_payload_head|].
      by rewrite broadcast_humans.
    + by split.
  - intros d. unfold _send_state. case_bool_decide as Hlast.
    { cbn [snd sends_of]. intros Hd. by apply elem_of_nil in Hd. }
    rewrite game_state_payload_set_last_hash.
    destruct (game_state_payload lb) as [payload|e] eqn:Hpayload; cbn [snd sends_of].
    + rewrite broadcast_humans. intros (a & -> & Ha)%list_elem_of_fmap.
      split; [by eapply game_state_payload_head|]. split; [done|].
      by intros Heq.
    + intros Hd. by apply elem_of_nil in Hd.
  - apply _send_state_again.
  - rewrite _send_state_again. cbn [snd sends_of].
    by rewrite app_nil_r, sends_of_send_state.
  - rewrite _send_state_again. cbn [snd sends_of].
    rewrite app_nil_r, sends_of_send_state.
    case_bool_decide; [reflexivity|].
    destruct (game_state_payload lb); [by rewrite length_fmap|reflexivity].
Qed.

(** C6 as stated fails, also on a lobby whose state was never broadcast:
    the two attempts send one datagram to each human participant, so two
    datagrams to a lobby of two players, and none to the lobby that the
    creator of a game against the CPU has left (its only seat is the bot's);
    on a lobby whose state has just been broadcast they send none.  With one
    human participant and a new state they send exactly one. *)
Lemma two_attempts_not_one_send :
  ¬ (∀ lb : Lobby.t,
       Lobby._last_hash lb ≠ Some (Lobby.state_hash lb) →
       length (sends_of (_send_state lb).2 ++
               sends_of (_send_state (_send_state lb).1).2) = 1%nat) ∧
  length
    (sends_of
       (_send_state
          (Lobby.set_player_addresses
             (Lobby.set_players (cpu_lobby 0) [PlayerId 7; PlayerId 8])
             [Some ("10.0.0.1", 4000); Some ("10.0.0.2", 4001)])).2 ++
     sends_of
       (_send_state
          (_send_state
             (Lobby.set_player_addresses
                (Lobby.set_players (cpu_lobby 0) [PlayerId 7; PlayerId 8])
                [Some ("10.0.0.1", 4000); Some ("10.0.0.2", 4001)])).1).2)
    = 2%nat ∧
  length
    (sends_of
       (_send_state
          (Lobby.set_player_addresses
             (Lobby.set_players (cpu_lobby 1) [Marker "CPU"]) [None])).2 ++
     sends_of
       (_send_state
          (_send_state
             (Lobby.set_player_addresses
                (Lobby.set_players (cpu_lobby 1) [Marker "CPU"]) [None])).1).2)
    = 0%nat ∧
  length
    (sends_of (_send_state (_send_state (cpu_lobby 0)).1).2 ++
     sends_of (_send_state (_send_state (_send_state (cpu_lobby 0)).1).1).2)
    = 0%nat ∧
  length
    (sends_of (_send_state (cpu_lobby 0)).2 ++
     sends_of (_send_state (_send_state (cpu_lobby 0)).1).2) = 1%nat.
Proof.
  split; [|by vm_compute].
  intros H.
  specialize (H (Lobby.set_player_addresses
                   (Lobby.set_players (cpu_lobby 1) [Marker "CPU"]) [None])
                ltac:(discriminate)).
  vm_compute in H. done.
Qed.

Lemma send_state_spec_witness :
  ∃ payload,
    head payload = Some MessageType.GAME_STATE ∧
    (_send_state (cpu_lobby 0)).2 =
      Ok ((payload,.) <$> human_addresses (cpu_lobby 0)) ∧
    length (sends_of (_send_state (cpu_lobby 0)).2 ++
            sends_of (_send_state (_send_state (cpu_lobby 0)).1).2) = 1%nat.
Proof.
  destruct (send_state_spec (cpu_lobby 0))
    as (_ & Hnew & _ & _ & _ & Hlen).
  destruct (Hnew ltac:(discriminate)) as [_ Hsend].
  destruct (game_state_payload (cpu_lobby 0)) as [payload|e] eqn:Hpayload;
    [|vm_compute in Hpayload; discriminate Hpayload].
  exists payload. destruct Hsend as [Hhead Hsend].
  split; [exact Hhead|]. split; [exact Hsend|].
  rewrite Hlen. reflexivity.
Defined.

(** ** Leaving a lobby *)

Lemma set_lobbies_set_lobbies s m m' :
  set_lobbies (set_lobbies s m) m' = set_lobbies s m'.
Proof. done. Qed.

(** The seated player's slot and address are removed and the lobby id of the
    player is cleared; the lobby is deleted when no slot is left, and kept
    with the remaining slots otherwise. *)
Lemma _handle_leave_seated player s key lb idx :
  Player.lobby_id player = Some key → key ≠ 0 →
  lobbies s !! key = Some lb → Lobby.lobby_id lb = key →
  players_index (Lobby.players lb) (Player.player_id player) = Some idx →
  (idx < length (Lobby.player_addresses lb))%nat →
  _handle_leave player s =
    (set_lobbies s
       (if bool_decide (delete idx (Lobby.players lb) = [])
        then delete key (lobbies s)
        else <[key :=
               Lobby.set_player_addresses
                 (Lobby.set_players lb (delete idx (Lobby.players lb)))
                 (delete idx (Lobby.player_addresses lb))]> (lobbies s)),
     Player.set_lobby_id player None, Ok ()).
Proof.
  intros Hpl Hkey Hlb Hid Hidx Hlen. unfold _handle_leave, lobby_id_unset, lobbies_get.
  rewrite Hpl. rewrite (proj2 (Z.eqb_neq key 0)) by done.
  cbn [mbind option_bind]. rewrite Hlb. cbn [fmap option_fmap option_map].
  rewrite Hidx. cbn [Lobby.set_players Lobby.player_addresses].
  rewrite bool_decide_eq_true_2 by done.
  unfold leave_finish.
  cbn [Lobby.set_player_addresses Lobby.set_players Lobby.players Lobby.lobby_id
       set_lobbies lobbies sent drawn].
  rewrite Hid. case_bool_decide as Hempty.
  - rewrite lookup_insert_eq. by rewrite delete_insert_eq.
  - done.
Qed.

(** C5 on the failing input: a player creates a player-versus-CPU lobby,
    which starts at once with the bot in seat 1, and leaves it.  The player's
    slot is removed and the player's lobby id cleared, but the lobby stays in
    the live set, holding the bot's slot only. *)
Theorem leave_keeps_bot_lobby :
  ∃ s1 p1 s2 p2 lb,
    _handle_create_lobby 1 (λ _, 41)
      [MessageType.CREATE_LOBBY; GameMode.PLAYER_VS_CPU] alice
      (mkServer ∅ [] 0) = Some (s1, p1, Ok ()) ∧
    Player.lobby_id p1 = Some 42 ∧
    _handle_leave p1 s1 = (s2, p2, Ok ()) ∧
    Player.lobby_id p2 = None ∧
    lobbies s2 !! 42 = Some lb ∧
    Lobby.players lb = [Marker "CPU"] ∧
    Lobby.player_addresses lb = [None].
Proof.
  eexists _, _, _, _, _.
  split; [vm_compute; reflexivity|]. split; [reflexivity|].
  split; [vm_compute; reflexivity|]. split; [reflexivity|].
  split; [vm_compute; reflexivity|]. split; reflexivity.
Qed.

(** ** Placing a piece *)

Lemma _send_error_reply s player code :
  (_send_error s (Player.address player) code, Ok ()) =
    error_reply s player code.
Proof. done. Qed.

Lemma set_lobbies_id s : set_lobbies s (lobbies s) = s.
Proof. by destruct s. Qed.

Lemma set_board_id lb : Lobby.set_board lb (Lobby.board lb) = lb.
Proof. by destruct lb. Qed.

(** A failed [apply_player_move] hands back the board it was given. *)
Lemma apply_player_move_failed board player x y :
  (apply_player_move board player x y).2.1 = false →
  apply_player_move board player x y = (board, (false, 0)).
Proof.
  rewrite apply_player_move_unfold.
  by destruct (is_in_bounds x y && legal_cell board player x y).
Qed.

(** A cell of the legal-move list is never refused by [apply_player_move]:
    the APPLY_FAILED reply is never sent. *)
Lemma legal_move_never_fails board player x y :
  (x, y) ∈ find_legal_moves board player →
  (apply_player_move board player x y).2.1 = true.
Proof.
  intros [Hb Hl]%elem_of_find_legal_moves.
  by rewrite apply_player_move_unfold, Hb, Hl.
Qed.

(** C4: [_handle_place] replies with the error code of the first check that
    fails, in the order lobby, status, seat, turn, legal cell, applied move,
    and in each of these cases the reply is all that happens: the lobbies
    (board, turn index, status and winner of each) stay as they were. *)
Theorem place_errors data player s :
  (∀ code, lobbies (error_reply s player code).1 = lobbies s ∧
           sent (error_reply s player code).1 =
             sent s ++ [([MessageType.ERROR; code], Player.address player)]) ∧
  (lobbies_get s (Player.lobby_id player) = None →
   _handle_place data player s =
     error_reply s player ErrorCode.NOT_IN_LOBBY) ∧
  (∀ key lb, lobbies_get s (Player.lobby_id player) = Some (key, lb) →
     (Lobby.status lb ≠ GameStatus.PLAYING →
      _handle_place data player s =
        error_reply s player ErrorCode.GAME_NOT_ACTIVE) ∧
     (Lobby.status lb = GameStatus.PLAYING →
      players_index (Lobby.players lb) (Player.player_id player) = None →
      _handle_place data player s =
        error_reply s player ErrorCode.SPECTATOR_MOVE_NOT_ALLOWED) ∧
     (∀ i, Lobby.status lb = GameStatus.PLAYING →
        players_index (Lobby.players lb) (Player.player_id player) = Some i →
        (Lobby.turn_index lb ≠ Z.of_nat i →
         _handle_place data player s =
           error_reply s player ErrorCode.NOT_YOUR_TURN) ∧
        (∀ x y, Lobby.turn_index lb = Z.of_nat i →
           data !! 1%nat = Some x → data !! 2%nat = Some y →
           ((x, y) ∉ find_legal_moves (Lobby.board lb) (Z.of_nat i) →
            _handle_place data player s =
              error_reply s player ErrorCode.ILLEGAL_MOVE) ∧
           ((x, y) ∈ find_legal_moves (Lobby.board lb) (Z.of_nat i) →
            (apply_player_move (Lobby.board lb) (Z.of_nat i) x y).2.1 = false →
            _handle_place data player s =
              error_reply s player ErrorCode.APPLY_FAILED)))).
Proof.
  split; [done|]. split.
  { intros Hget. unfold _handle_place. by rewrite Hget. }
  intros key lb Hget. unfold _handle_place. rewrite Hget.
  split; [|split].
  - intros Hstatus. by rewrite bool_decide_eq_true_2.
  - intros Hstatus Hseat.
    rewrite bool_decide_eq_false_2 by (intros ?; done). by rewrite Hseat.
  - intros i Hstatus Hseat.
    rewrite bool_decide_eq_false_2 by (intros ?; done). rewrite Hseat.
    split.
    + intros Hturn. by rewrite bool_decide_eq_true_2.
    + intros x y Hturn Hx Hy.
      rewrite bool_decide_eq_false_2 by (intros ?; done). rewrite Hx, Hy.
      split.
      * intros Hillegal. by rewrite bool_decide_eq_true_2.
      * intros Hlegal Hfail.
        rewrite bool_decide_eq_false_2 by (intros ?; done).
        rewrite (apply_player_move_failed _ _ _ _ Hfail). cbn [negb].
        rewrite set_board_id.
        assert (lobbies s !! key = Some lb) as Hlb.
        { unfold lobbies_get in Hget.
          destruct (Player.lobby_id player) as [k|]; [|done]. simpl in Hget.
          destruct (lobbies s !! k) eqn:Hk; [|done]. simpl in Hget.
          by injection Hget as <- <-. }
        by rewrite (insert_id _ _ _ Hlb), set_lobbies_id.
Qed.

Lemma place_errors_witness :
  _handle_place [MessageType.PLACE; 5; 3]
    (Player.set_lobby_id alice (Some 42))
    (mkServer {[42 := cpu_lobby 1]} [] 0) =
    error_reply (mkServer {[42 := cpu_lobby 1]} [] 0)
      (Player.set_lobby_id alice (Some 42)) ErrorCode.NOT_YOUR_TURN ∧
  _handle_place [MessageType.PLACE; 0; 0]
    (Player.set_lobby_id alice (Some 42))
    (mkServer {[42 := cpu_lobby 0]} [] 0) =
    error_reply (mkServer {[42 := cpu_lobby 0]} [] 0)
      (Player.set_lobby_id alice (Some 42)) ErrorCode.ILLEGAL_MOVE.
Proof.
  split.
  - destruct (place_errors [MessageType.PLACE; 5; 3]
                (Player.set_lobby_id alice (Some 42))
                (mkServer {[42 := cpu_lobby 1]} [] 0)) as (_ & _ & Hlobby).
    destruct (Hlobby 42 (cpu_lobby 1) ltac:(by vm_compute)) as (_ & _ & Hseat).
    destruct (Hseat 0%nat eq_refl ltac:(by vm_compute)) as [Hturn _].
    apply Hturn. by vm_compute.
  - destruct (place_errors [MessageType.PLACE; 0; 0]
                (Player.set_lobby_id alice (Some 42))
                (mkServer {[42 := cpu_lobby 0]} [] 0)) as (_ & _ & Hlobby).
    destruct (Hlobby 42 (cpu_lobby 0) ltac:(by vm_compute)) as (_ & _ & Hseat).
    destruct (Hseat 0%nat eq_refl ltac:(by vm_compute)) as [_ Hcell].
    destruct (Hcell 0 0 eq_refl eq_refl eq_refl) as [Hillegal _].
    apply Hillegal. apply (bool_decide_unpack _). by vm_compute.
Defined.

(** * Further properties of the engine *)

(** ** The cells of a position *)

Lemma Forall_set_cell (P : Z → Prop) board x y v :
  Forall (Forall P) board → P v → Forall (Forall P) (set_cell board x y v).
Proof.
  intros Hboard Hv. unfold set_cell. apply Forall_alter; [done|].
  intros row _ Hrow. by apply Forall_insert.
Qed.

Lemma Forall_place_all (P : Z → Prop) board player cells :
  Forall (Forall P) board → P player →
  Forall (Forall P) (place_all board player cells).
Proof.
  intros Hboard Hp. revert board Hboard.
  induction cells as [|[fx fy] cells IH]; intros board Hboard; [done|].
  cbn [place_all foldl]. apply IH. by apply Forall_set_cell.
Qed.

Lemma position_ok_initial : position_ok create_initial_board.
Proof.
  split; [apply board_ok_initial|].
  repeat (apply Forall_cons; split; [|try apply Forall_nil_2]);
    repeat (apply Forall_cons; split; [|try apply Forall_nil_2]);
    unfold cell_ok; lia.
Qed.

Lemma position_ok_apply board player x y :
  position_ok board → player = 0 ∨ player = 1 →
  position_ok (apply_player_move board player x y).1.
Proof.
  intros [Hok Hcells] Hp. rewrite apply_player_move_unfold.
  destruct (is_in_bounds x y && legal_cell board player x y); [|done].
  cbn [fst]. split; [by apply board_ok_place_all|].
  apply Forall_place_all; [done|]. unfold cell_ok. lia.
Qed.

(** X1: a move keeps the board an 8x8 grid over the three cell values,
    whether it is applied or refused. *)
Theorem apply_player_move_position board player x y :
  position_ok board → player = 0 ∨ player = 1 →
  position_ok (apply_player_move board player x y).1.
Proof. apply position_ok_apply. Qed.

Lemma apply_player_move_position_witness :
  position_ok (apply_player_move create_initial_board 0 5 3).1.
Proof.
  exact (apply_player_move_position create_initial_board 0 5 3
           position_ok_initial (or_introl eq_refl)).
Defined.

(** X2: an applied move leaves the mover's piece on the cell played, turns no
    occupied cell into an empty one, and makes the cell played illegal for
    both sides from then on: [find_legal_moves] no longer lists it and
    [apply_player_move] refuses it. *)
Theorem played_cell_stays board player x y board' n :
  board_ok board → player ≠ 255 →
  apply_player_move board player x y = (board', (true, n)) →
  cell_at board' x y = player ∧
  (∀ cx cy, is_in_bounds cx cy = true →
     cell_at board cx cy ≠ 255 → cell_at board' cx cy ≠ 255) ∧
  ∀ side, ((x, y) ∉ find_legal_moves board' side) ∧
          apply_player_move board' side x y = (board', (false, 0)).
Proof.
  intros Hok Hp (Hxy & Hl & -> & _)%apply_player_move_success.
  assert (Forall (λ c, is_in_bounds c.1 c.2 = true)
            ((x, y) :: all_flips board player x y)) as Hcells
    by (constructor; [done|by apply all_flips_in_bounds]).
  assert (cell_at (place_all board player ((x, y) :: all_flips board player x y))
            x y = player) as Hplayed.
  { rewrite cell_at_place_all by done.
    rewrite bool_decide_eq_true_2; [done|]. by left. }
  split; [done|]. split.
  - intros cx cy Hc Hocc. rewrite cell_at_place_all by done.
    by case_bool_decide.
  - intros side. split.
    + rewrite elem_of_find_legal_moves. intros [_ Hlegal].
      unfold legal_cell in Hlegal. rewrite Hplayed in Hlegal.
      apply andb_true_iff in Hlegal as [Hempty%Z.eqb_eq _]. done.
    + rewrite apply_player_move_unfold. unfold legal_cell. rewrite Hplayed.
      rewrite (proj2 (Z.eqb_neq player 255)) by done.
      by rewrite andb_false_r.
Qed.

Lemma played_cell_stays_witness :
  cell_at (apply_player_move create_initial_board 0 5 3).1 5 3 = 0 ∧
  (∀ cx cy, is_in_bounds cx cy = true →
     cell_at create_initial_board cx cy ≠ 255 →
     cell_at (apply_player_move create_initial_board 0 5 3).1 cx cy ≠ 255) ∧
  ∀ side,
    ((5, 3) ∉
       find_legal_moves (apply_player_move create_initial_board 0 5 3).1 side) ∧
    apply_player_move (apply_player_move create_initial_board 0 5 3).1 side 5 3 =
      ((apply_player_move create_initial_board 0 5 3).1, (false, 0)).
Proof.
  apply (played_cell_stays create_initial_board 0 5 3 _ 2 board_ok_initial);
    [lia|by vm_compute].
Defined.

(** ** Counts and terminal positions *)

Lemma board_ok_length_join board :
  board_ok board → length (mjoin board) = 64%nat.
Proof.
  intros [Hlen Hrows].
  assert (length (mjoin board) = (8 * length board)%nat) as Hjoin.
  { clear Hlen. induction Hrows as [|row board Hrow Hrows IH]; [done|].
    change (mjoin (row :: board)) with (row ++ mjoin board).
    rewrite length_app, IH, Hrow. cbn [length]. lia. }
  rewrite Hjoin, Hlen. done.
Qed.

Lemma filter_two_values_length (l : list Z) (a b : Z) :
  a ≠ b →
  (length (filter (λ c, c = a) l) + length (filter (λ c, c = b) l)
   ≤ length l)%nat.
Proof.
  intros Hab. induction l as [|c l IH]; [done|].
  rewrite !filter_cons.
  destruct (decide (c = a)) as [Ha|Ha], (decide (c = b)) as [Hb|Hb];
    cbn [length]; [congruence|lia..].
Qed.

(** X3: on an 8x8 board the two counts of [count_pieces] are not negative
    and add up to 64 at most, so each one fits the byte it is sent in. *)
Theorem count_pieces_bounds board :
  board_ok board →
  0 ≤ (count_pieces board).1 ∧ 0 ≤ (count_pieces board).2 ∧
  (count_pieces board).1 + (count_pieces board).2 ≤ 64.
Proof.
  intros Hok. rewrite count_pieces_count_cells. cbn [fst snd].
  unfold count_cells.
  pose proof (filter_two_values_length (mjoin board) 0 1 ltac:(lia)) as Hle.
  rewrite (board_ok_length_join board Hok) in Hle. lia.
Qed.

Lemma count_pieces_bounds_witness :
  0 ≤ (count_pieces create_initial_board).1 ∧
  0 ≤ (count_pieces create_initial_board).2 ∧
  (count_pieces create_initial_board).1
    + (count_pieces create_initial_board).2 ≤ 64.
Proof. exact (count_pieces_bounds create_initial_board board_ok_initial). Defined.

(** A value read on the board is counted. *)
Lemma count_cells_pos board x y :
  board_ok board → is_in_bounds x y = true →
  (1 ≤ count_cells (cell_at board x y) board)%nat.
Proof.
  intros Hok Hb.
  destruct (set_cell_split board x y Hok Hb) as (r1 & r2 & c1 & c2 & Hboard & _).
  revert Hboard. generalize (cell_at board x y). intros v ->.
  pose proof (count_cells_middle v r1 r2 c1 c2 v) as Hmid.
  unfold indicator in Hmid. rewrite bool_decide_eq_true_2 in Hmid by done. lia.
Qed.

(** A legal move needs a piece of each side on the board. *)
Lemma find_legal_moves_needs_both board side m :
  board_ok board → m ∈ find_legal_moves board side →
  (1 ≤ count_cells side board)%nat ∧ (1 ≤ count_cells (1 - side) board)%nat.
Proof.
  destruct m as [x y]. intros Hok [Hxy Hl]%elem_of_find_legal_moves.
  apply legal_cell_spec in Hl as [_ (d & n & _ & Hn & Hrun & Hb & Hc)]; [|done].
  destruct (Hrun 1 ltac:(lia)) as [Hb1 Hc1]. split.
  - rewrite <- Hc. by apply count_cells_pos.
  - rewrite <- Hc1. by apply count_cells_pos.
Qed.

(** X4: when one of the two sides has no piece left on the board, neither
    side has a legal move and [check_game_over] is true, whoever is to
    move. *)
Theorem wiped_out_is_game_over board player side :
  board_ok board → player = 0 ∨ player = 1 → side = 0 ∨ side = 1 →
  pieces_of player board = 0 →
  find_legal_moves board side = [] ∧ check_game_over board side = true.
Proof.
  intros Hok Hp Hs Hnone.
  rewrite (pieces_of_count_cells player board Hp) in Hnone.
  assert (∀ q, q = 0 ∨ q = 1 → find_legal_moves board q = []) as Hempty.
  { intros q Hq. apply elem_of_nil_inv. intros m Hm.
    destruct (find_legal_moves_needs_both board q m Hok Hm) as [H1 H2].
    assert (player = q ∨ player = 1 - q) as [-> | ->] by lia; lia. }
  split; [by apply Hempty|].
  unfold check_game_over.
  rewrite (Hempty side Hs), (Hempty (1 - side)) by lia. done.
Qed.

(** A board on which player 1 has no piece. *)
Lemma wiped_out_is_game_over_witness :
  find_legal_moves (set_cell (set_cell create_initial_board 4 3 0) 3 4 0) 0 = [] ∧
  check_game_over (set_cell (set_cell create_initial_board 4 3 0) 3 4 0) 0 = true.
Proof.
  apply (wiped_out_is_game_over _ 1 0).
  - do 2 apply board_ok_set_cell. apply board_ok_initial.
  - by right.
  - by left.
  - by vm_compute.
Defined.

(** X5: every move [find_legal_moves] returns is an empty cell of the board;
    so on a board without an empty cell neither side has a move and
    [check_game_over] is true. *)
Theorem full_board_is_game_over board :
  (∀ side x y, (x, y) ∈ find_legal_moves board side →
     is_in_bounds x y = true ∧ cell_at board x y = 255) ∧
  ((∀ x y, is_in_bounds x y = true → cell_at board x y ≠ 255) →
   ∀ side, find_legal_moves board side = [] ∧
           check_game_over board side = true).
Proof.
  assert (∀ side x y, (x, y) ∈ find_legal_moves board side →
            is_in_bounds x y = true ∧ cell_at board x y = 255) as Hmoves.
  { intros side x y [Hxy Hl]%elem_of_find_legal_moves. split; [done|].
    unfold legal_cell in Hl. by apply andb_true_iff in Hl as [?%Z.eqb_eq _]. }
  split; [exact Hmoves|]. intros Hfull.
  assert (∀ q, find_legal_moves board q = []) as Hempty.
  { intros q. apply elem_of_nil_inv. intros [x y] Hm.
    destruct (Hmoves q x y Hm) as [Hxy Hc]. by apply (Hfull x y). }
  intros side. split; [apply Hempty|].
  unfold check_game_over. by rewrite (Hempty side), (Hempty (1 - side)).
Qed.

Lemma full_board_is_game_over_witness :
  find_legal_moves (replicate 8 (replicate 8 0)) 1 = [] ∧
  check_game_over (replicate 8 (replicate 8 0)) 1 = true.
Proof.
  apply (proj2 (full_board_is_game_over (replicate 8 (replicate 8 0)))).
  intros x y Hxy%is_in_bounds_spec.
  assert (x = 0 ∨ x = 1 ∨ x = 2 ∨ x = 3 ∨ x = 4 ∨ x = 5 ∨ x = 6 ∨ x = 7)
    as Hx by lia.
  assert (y = 0 ∨ y = 1 ∨ y = 2 ∨ y = 3 ∨ y = 4 ∨ y = 5 ∨ y = 6 ∨ y = 7)
    as Hy by lia.
  destruct Hx as [->|[->|[->|[->|[->|[->|[->| ->]]]]]]];
    destruct Hy as [->|[->|[->|[->|[->|[->|[->| ->]]]]]]]; by vm_compute.
Defined.

(** X6: whether the game is over does not depend on the side to move. *)
Theorem check_game_over_either_side board side :
  check_game_over board (1 - side) = check_game_over board side.
Proof.
  unfold check_game_over. replace (1 - (1 - side)) with side by lia.
  destruct (find_legal_moves board side) as [|m l],
    (find_legal_moves board (1 - side)) as [|m' l']; reflexivity.
Qed.

(** * Further properties of the handlers *)

(** ** The GAME_STATE datagram *)

Lemma pack_B_byte v : 0 ≤ v ≤ 255 → pack_B v = Some [v].
Proof.
  intros Hv. unfold pack_B.
  rewrite (proj2 (Z.leb_le 0 v)), (proj2 (Z.leb_le v 255)) by lia. done.
Qed.

Lemma pack_H_short v :
  0 ≤ v ≤ 65535 → pack_H v = Some [v `div` 256; v `mod` 256].
Proof.
  intros Hv. unfold pack_H.
  rewrite (proj2 (Z.leb_le 0 v)), (proj2 (Z.leb_le v 65535)) by lia. done.
Qed.

Lemma mapM_pack_B (l : list Z) :
  Forall (λ c, 0 ≤ c ≤ 255) l → mapM pack_B l = Some ((λ c, [c]) <$> l).
Proof.
  intros Hl. apply mapM_Some_2. induction Hl as [|c l Hc Hl IH]; [constructor|].
  cbn [fmap list_fmap]. constructor; [by apply pack_B_byte|exact IH].
Qed.

Lemma join_singletons (l : list Z) : mjoin ((λ c, [c]) <$> l) = l.
Proof.
  induction l as [|c l IH]; [done|].
  change (c :: mjoin ((λ c, [c]) <$> l) = c :: l). f_equal. exact IH.
Qed.

Lemma flat_cells_bytes board :
  Forall (Forall (λ c, 0 ≤ c ≤ 255)) board → flat_cells board = Some (mjoin board).
Proof.
  intros Hboard. unfold flat_cells.
  rewrite mapM_pack_B.
  - cbn [mbind option_bind]. by rewrite join_singletons.
  - by apply Forall_join.
Qed.

Lemma cell_ok_byte c : cell_ok c → 0 ≤ c ≤ 255.
Proof. unfold cell_ok. lia. Qed.

Lemma position_ok_bytes board :
  position_ok board → Forall (Forall (λ c, 0 ≤ c ≤ 255)) board.
Proof.
  intros [_ Hcells]. eapply Forall_impl; [exact Hcells|].
  intros row Hrow. eapply Forall_impl; [exact Hrow|]. apply cell_ok_byte.
Qed.

Lemma game_state_payload_shape key lb :
  lobby_shape key lb →
  game_state_payload lb = Ok (game_state_bytes lb) ∧
  length (game_state_bytes lb) = 73%nat ∧
  Forall (λ b, 0 ≤ b ≤ 255) (game_state_bytes lb).
Proof.
  intros (Hid & Hkey & Hstatus & Hturn & Hpos & _).
  pose proof (count_pieces_count_cells (Lobby.board lb)) as Hcount.
  pose proof (filter_two_values_length (mjoin (Lobby.board lb)) 0 1 ltac:(lia))
    as Hle.
  rewrite (board_ok_length_join _ (proj1 Hpos)) in Hle.
  assert (0 ≤ (count_pieces (Lobby.board lb)).1 ≤ 64 ∧
          0 ≤ (count_pieces (Lobby.board lb)).2 ≤ 64) as [Hb Hw].
  { rewrite Hcount. cbn [fst snd]. unfold count_cells. lia. }
  pose proof (position_ok_bytes _ Hpos) as Hbytes.
  split; [|split].
  - unfold game_state_payload, game_state_bytes, pack_state_header.
    destruct (count_pieces (Lobby.board lb)) as [b w]. cbn [fst snd] in *.
    rewrite pack_H_short by lia.
    rewrite !pack_B_byte by
      (unfold GameStatus.WAITING, GameStatus.PLAYING, GameStatus.FINISHED in *; lia).
    cbn [mbind option_bind app]. by rewrite flat_cells_bytes.
  - unfold game_state_bytes. rewrite length_app, (board_ok_length_join _ (proj1 Hpos)).
    done.
  - unfold game_state_bytes. apply Forall_app. split.
    + unfold GameStatus.WAITING, GameStatus.PLAYING, GameStatus.FINISHED,
        MessageType.GAME_STATE in *.
      pose proof (Z.mod_pos_bound (Lobby.lobby_id lb) 256 ltac:(lia)).
      assert (0 ≤ Lobby.lobby_id lb `div` 256 ≤ 255).
      { split; [apply Z.div_pos; lia|].
        apply Z.lt_succ_r, Z.div_lt_upper_bound; lia. }
      repeat (apply Forall_cons; split; [lia|]). apply Forall_nil_2.
    + by apply Forall_join.
Qed.

(** X7: the GAME_STATE datagram of a lobby that the handlers keep is always
    built, holds 73 bytes in the order tag, lobby id (high byte first),
    status, turn index, 255, count of player 0, count of player 1, 0 and the
    64 cells row by row, and each of its bytes is in 0..255. *)
Theorem game_state_payload_layout key lb :
  lobby_ok key lb →
  game_state_payload lb = Ok (game_state_bytes lb) ∧
  length (game_state_bytes lb) = 73%nat ∧
  Forall (λ b, 0 ≤ b ≤ 255) (game_state_bytes lb).
Proof. intros [Hshape _]. by apply (game_state_payload_shape key). Qed.

Lemma can_move_initial turn :
  turn = 0 ∨ turn = 1 → can_move create_initial_board turn.
Proof.
  intros [-> | ->] Hnone; vm_compute in Hnone; discriminate Hnone.
Qed.

Lemma cpu_lobby_ok turn : turn = 0 ∨ turn = 1 → lobby_ok 42 (cpu_lobby turn).
Proof.
  intros Hturn. split; [|by left].
  split; [done|]. split; [lia|]. split; [by right; left|].
  split; [done|]. split; [apply position_ok_initial|].
  split; [done|]. split; [apply (bool_decide_unpack _); by vm_compute|].
  intros _. by apply can_move_initial.
Qed.

Lemma game_state_payload_layout_witness :
  game_state_payload (cpu_lobby 0) = Ok (game_state_bytes (cpu_lobby 0)) ∧
  length (game_state_bytes (cpu_lobby 0)) = 73%nat ∧
  Forall (λ b, 0 ≤ b ≤ 255) (game_state_bytes (cpu_lobby 0)).
Proof.
  exact (game_state_payload_layout 42 (cpu_lobby 0)
           (cpu_lobby_ok 0 (or_introl eq_refl))).
Defined.

Lemma join_rows_inj (l1 l2 : list (list Z)) :
  Forall (λ row, length row = 8%nat) l1 →
  Forall (λ row, length row = 8%nat) l2 →
  mjoin l1 = mjoin l2 → l1 = l2.
Proof.
  intros H1. revert l2. induction H1 as [|r1 l1 Hr1 H1 IH]; intros l2 H2 Hjoin.
  - destruct H2 as [|r2 l2 Hr2 H2]; [done|].
    change (mjoin (r2 :: l2)) with (r2 ++ mjoin l2) in Hjoin.
    destruct r2; [done|]. discriminate Hjoin.
  - destruct H2 as [|r2 l2 Hr2 H2].
    + change (mjoin (r1 :: l1)) with (r1 ++ mjoin l1) in Hjoin.
      destruct r1; [done|]. discriminate Hjoin.
    + change (mjoin (r1 :: l1)) with (r1 ++ mjoin l1) in Hjoin.
      change (mjoin (r2 :: l2)) with (r2 ++ mjoin l2) in Hjoin.
      apply app_inj_1 in Hjoin as [-> Hjoin]; [|congruence].
      f_equal. by apply IH.
Qed.

(** X8: the GAME_STATE datagram tells the state apart: two lobbies that the
    handlers keep and that yield the same datagram have the same id, status,
    turn index and board. *)
Theorem game_state_payload_inj key1 lb1 key2 lb2 :
  lobby_ok key1 lb1 → lobby_ok key2 lb2 →
  game_state_payload lb1 = game_state_payload lb2 →
  Lobby.lobby_id lb1 = Lobby.lobby_id lb2 ∧
  Lobby.state_hash lb1 = Lobby.state_hash lb2.
Proof.
  intros [Hok1 _] [Hok2 _].
  rewrite (proj1 (game_state_payload_shape key1 lb1 Hok1)),
    (proj1 (game_state_payload_shape key2 lb2 Hok2)).
  unfold game_state_bytes. cbn [app]. intros [= Hdiv Hmod Hs Ht _ _ Hjoin].
  destruct Hok1 as (_ & _ & _ & _ & [[_ Hrows1] _] & _).
  destruct Hok2 as (_ & _ & _ & _ & [[_ Hrows2] _] & _).
  apply join_rows_inj in Hjoin; [|done..]. split.
  - rewrite (Z.div_mod (Lobby.lobby_id lb1) 256),
      (Z.div_mod (Lobby.lobby_id lb2) 256) by lia. congruence.
  - unfold Lobby.state_hash. congruence.
Qed.

Lemma game_state_payload_inj_witness :
  Lobby.lobby_id (cpu_lobby 0) =
    Lobby.lobby_id (Lobby.set_last_hash (cpu_lobby 0) None) ∧
  Lobby.state_hash (cpu_lobby 0) =
    Lobby.state_hash (Lobby.set_last_hash (cpu_lobby 0) None).
Proof.
  exact (game_state_payload_inj 42 (cpu_lobby 0) 42
           (Lobby.set_last_hash (cpu_lobby 0) None)
           (cpu_lobby_ok 0 (or_introl eq_refl))
           (cpu_lobby_ok 0 (or_introl eq_refl)) eq_refl).
Defined.

(** ** A move that is placed *)

Lemma lobbies_get_Some s player key lb :
  lobbies_get s (Player.lobby_id player) = Some (key, lb) →
  Player.lobby_id player = Some key ∧ lobbies s !! key = Some lb.
Proof.
  unfold lobbies_get. destruct (Player.lobby_id player) as [k|]; [|done].
  cbn [mbind option_bind]. destruct (lobbies s !! k) as [lb0|] eqn:Hk; [|done].
  cbn [fmap option_fmap option_map]. by intros [= <- <-].
Qed.

(** The turn after a move: the other side when it can move, else the mover
    again when it can, else the game is finished. *)
Lemma advance_turn_spec lb :
  Lobby.lobby_id (advance_turn lb) = Lobby.lobby_id lb ∧
  Lobby.board (advance_turn lb) = Lobby.board lb ∧
  Lobby.players (advance_turn lb) = Lobby.players lb ∧
  Lobby.player_addresses (advance_turn lb) = Lobby.player_addresses lb ∧
  Lobby._last_hash (advance_turn lb) = Lobby._last_hash lb ∧
  (find_legal_moves (Lobby.board lb) (1 - Lobby.turn_index lb) ≠ [] →
   Lobby.turn_index (advance_turn lb) = 1 - Lobby.turn_index lb ∧
   Lobby.status (advance_turn lb) = Lobby.status lb ∧
   Lobby.winner (advance_turn lb) = Lobby.winner lb) ∧
  (find_legal_moves (Lobby.board lb) (1 - Lobby.turn_index lb) = [] →
   find_legal_moves (Lobby.board lb) (Lobby.turn_index lb) ≠ [] →
   Lobby.turn_index (advance_turn lb) = Lobby.turn_index lb ∧
   Lobby.status (advance_turn lb) = Lobby.status lb ∧
   Lobby.winner (advance_turn lb) = Lobby.winner lb) ∧
  (find_legal_moves (Lobby.board lb) (1 - Lobby.turn_index lb) = [] →
   find_legal_moves (Lobby.board lb) (Lobby.turn_index lb) = [] →
   Lobby.turn_index (advance_turn lb) = 1 - Lobby.turn_index lb ∧
   Lobby.status (advance_turn lb) = GameStatus.FINISHED ∧
   Lobby.winner (advance_turn lb) = Some (winner_of (Lobby.board lb))).
Proof.
  unfold advance_turn, check_game_over.
  cbn [Lobby.set_turn_index Lobby.board Lobby.turn_index].
  replace (1 - (1 - Lobby.turn_index lb)) with (Lobby.turn_index lb) by lia.
  destruct (find_legal_moves (Lobby.board lb) (1 - Lobby.turn_index lb))
    as [|m l].
  - rewrite bool_decide_eq_true_2 by reflexivity. cbn [negb].
    destruct (find_legal_moves (Lobby.board lb) (Lobby.turn_index lb))
      as [|m' l'].
    + rewrite bool_decide_eq_true_2 by reflexivity. cbn [negb].
      repeat split; intros; congruence.
    + rewrite bool_decide_eq_false_2 by discriminate. cbn [negb].
      repeat split; intros; congruence.
  - rewrite bool_decide_eq_false_2 by discriminate.
    repeat split; intros; congruence.
Qed.

Lemma set_last_hash_id lb : Lobby.set_last_hash lb (Lobby._last_hash lb) = lb.
Proof. by destruct lb. Qed.

(** [_send_state] writes [_last_hash] and nothing else of the lobby. *)
Lemma _send_state_lobby lb :
  ∃ h, (_send_state lb).1 = Lobby.set_last_hash lb h ∧
       (h = Lobby._last_hash lb ∨ h = Some (Lobby.state_hash lb)).
Proof.
  destruct (_send_state_cases lb) as [->|[r ->]]; cbn [fst].
  - exists (Lobby._last_hash lb). split; [by rewrite set_last_hash_id|by left].
  - eexists. split; [done|by right].
Qed.

Lemma _handle_place_accepted data player s key lb x y :
  place_accepted data player s key lb x y →
  _handle_place data player s =
    send_state_of s key
      (advance_turn
         (Lobby.set_board lb
            (apply_player_move (Lobby.board lb) (Lobby.turn_index lb) x y).1)).
Proof.
  intros (Hget & Hstatus & Hseat & Hturn & Hx & Hy & Hlegal).
  unfold _handle_place. rewrite Hget.
  rewrite bool_decide_eq_false_2 by (intros ?; done). rewrite Hseat.
  rewrite Z2Nat.id by done.
  rewrite bool_decide_eq_false_2 by (intros ?; done). rewrite Hx, Hy.
  rewrite bool_decide_eq_false_2 by (intros ?; done).
  pose proof (legal_move_never_fails _ _ _ _ Hlegal) as Hok.
  destruct (apply_player_move (Lobby.board lb) (Lobby.turn_index lb) x y)
    as [board' [ok n]]. cbn [fst snd] in Hok |- *. by rewrite Hok.
Qed.

(** The three ways [_handle_place] ends: an ERROR reply, an [IndexError] on
    a request that is too short, or a move that is placed. *)
Lemma _handle_place_cases data player s :
  (∃ code, _handle_place data player s = error_reply s player code) ∨
  (_handle_place data player s = (s, Raise IndexError) ∧
   (length data < 3)%nat) ∨
  (∃ key lb x y, place_accepted data player s key lb x y).
Proof.
  unfold _handle_place.
  destruct (lobbies_get s (Player.lobby_id player)) as [[key lb]|] eqn:Hget;
    [|left; by eexists].
  case_bool_decide as Hstatus; [left; by eexists|].
  destruct (players_index _ _) as [i|] eqn:Hseat; [|left; by eexists].
  case_bool_decide as Hturn; [left; by eexists|].
  destruct (data !! 1%nat) as [x|] eqn:Hx;
    [|right; left; split; [done|apply lookup_ge_None in Hx; lia]].
  destruct (data !! 2%nat) as [y|] eqn:Hy;
    [|right; left; split; [done|apply lookup_ge_None in Hy; lia]].
  case_bool_decide as Hlegal; [left; by eexists|].
  right. right. exists key, lb, x, y.
  assert (Lobby.status lb = GameStatus.PLAYING) as Hstatus'
    by (destruct (decide (Lobby.status lb = GameStatus.PLAYING)); done).
  assert (Lobby.turn_index lb = Z.of_nat i) as Hturn'
    by (destruct (decide (Lobby.turn_index lb = Z.of_nat i)); done).
  assert ((x, y) ∈ find_legal_moves (Lobby.board lb) (Z.of_nat i)) as Hlegal'.
  { destruct (decide ((x, y) ∈ find_legal_moves (Lobby.board lb) (Z.of_nat i)));
      done. }
  unfold place_accepted. rewrite Hturn', Nat2Z.id.
  split; [done|]. split; [done|]. split; [done|]. split; [lia|]. done.
Qed.

(** What [send_state_of] leaves behind, read off [_send_state]. *)
Lemma send_state_of_stored s key lb :
  lobbies (send_state_of s key lb).1 = <[key := (_send_state lb).1]> (lobbies s) ∧
  sent (send_state_of s key lb).1 = sent s ++ sends_of (_send_state lb).2 ∧
  drawn (send_state_of s key lb).1 = drawn s ∧
  (send_state_of s key lb).2 =
    match (_send_state lb).2 with Ok _ => Ok () | Raise e => Raise e end.
Proof.
  unfold send_state_of. destruct (_send_state lb) as [lb' [out|e]]; cbn.
  - done.
  - by rewrite app_nil_r.
Qed.

(** After an attempt the recorded hash is the hash of the state. *)
Lemma _send_state_synced lb :
  Lobby._last_hash (_send_state lb).1 =
    Some (Lobby.state_hash (_send_state lb).1).
Proof.
  unfold _send_state. case_bool_decide as Hlast; cbn [fst]; [done|].
  by destruct (game_state_payload _).
Qed.

Lemma lobby_shape_set_last_hash key lb h :
  lobby_shape key lb → lobby_shape key (Lobby.set_last_hash lb h).
Proof. intros Hshape. exact Hshape. Qed.

(** A lobby of the right shape is always broadcast without an exception. *)
Lemma _send_state_shape key lb :
  lobby_shape key lb →
  lobby_ok key (_send_state lb).1 ∧
  ∃ out, (_send_state lb).2 = Ok out.
Proof.
  intros Hshape. split.
  - split; [|right; apply _send_state_synced].
    destruct (_send_state_lobby lb) as (h & -> & _).
    by apply lobby_shape_set_last_hash.
  - unfold _send_state. case_bool_decide; [by eexists|].
    rewrite game_state_payload_set_last_hash.
    rewrite (proj1 (game_state_payload_shape key lb Hshape)). by eexists.
Qed.

(** The cell played holds 255 before the move and the mover's piece after. *)
Lemma played_cell_value board player x y :
  board_ok board → (x, y) ∈ find_legal_moves board player →
  cell_at board x y = 255 ∧
  cell_at (apply_player_move board player x y).1 x y = player.
Proof.
  intros Hok [Hxy Hl]%elem_of_find_legal_moves.
  rewrite apply_player_move_unfold, Hxy, Hl. cbn [andb fst]. split.
  - unfold legal_cell in Hl. by apply andb_true_iff in Hl as [?%Z.eqb_eq _].
  - rewrite cell_at_place_all; [|done| |done].
    + rewrite bool_decide_eq_true_2; [done|]. by left.
    + constructor; [done|by apply all_flips_in_bounds].
Qed.

(** While the game is on, [advance_turn] leaves the turn with a side that
    has a legal move. *)
Lemma advance_turn_live lb :
  Lobby.status (advance_turn lb) = GameStatus.PLAYING →
  can_move (Lobby.board (advance_turn lb)) (Lobby.turn_index (advance_turn lb)).
Proof.
  destruct (advance_turn_spec lb)
    as (_ & Hboard & _ & _ & _ & Hother & Hmover & Hover).
  rewrite Hboard. unfold can_move.
  destruct (find_legal_moves (Lobby.board lb) (1 - Lobby.turn_index lb))
    as [|m l] eqn:Ho;
    [destruct (find_legal_moves (Lobby.board lb) (Lobby.turn_index lb))
       as [|m' l'] eqn:Hm|].
  - destruct (Hover eq_refl eq_refl) as (_ & -> & _). intros Hfin.
    discriminate Hfin.
  - destruct (Hmover eq_refl ltac:(discriminate)) as (-> & _). intros _.
    rewrite Hm. discriminate.
  - destruct (Hother ltac:(discriminate)) as (-> & _). intros _.
    rewrite Ho. discriminate.
Qed.

Lemma lobby_shape_after_place key lb x y :
  lobby_shape key lb →
  lobby_shape key
    (advance_turn
       (Lobby.set_board lb
          (apply_player_move (Lobby.board lb) (Lobby.turn_index lb) x y).1)).
Proof.
  intros (Hid & Hkey & Hstatus & Hturn & Hpos & Hlen & Hnd & _).
  set (lb1 := Lobby.set_board lb _).
  destruct (advance_turn_spec lb1)
    as (Hid' & Hboard' & Hplayers' & Haddrs' & _ & Hother & Hmover & Hover).
  assert (Lobby.turn_index lb1 = Lobby.turn_index lb) as Hturn1 by reflexivity.
  assert (Lobby.status lb1 = Lobby.status lb) as Hstatus1 by reflexivity.
  assert (position_ok (Lobby.board (advance_turn lb1))) as Hpos'.
  { rewrite Hboard'. apply position_ok_apply; assumption. }
  assert ((Lobby.status (advance_turn lb1) = Lobby.status lb ∨
           Lobby.status (advance_turn lb1) = GameStatus.FINISHED) ∧
          (Lobby.turn_index (advance_turn lb1) = Lobby.turn_index lb ∨
           Lobby.turn_index (advance_turn lb1) = 1 - Lobby.turn_index lb))
    as [Hs' Ht'].
  { destruct (decide (find_legal_moves (Lobby.board lb1)
                        (1 - Lobby.turn_index lb1) = [])) as [Ho|Ho];
      [destruct (decide (find_legal_moves (Lobby.board lb1)
                           (Lobby.turn_index lb1) = [])) as [Hm|Hm]|].
    - destruct (Hover Ho Hm) as (Ht & Hs & _). clear Ho Hm Hother Hmover Hover.
      rewrite Ht, Hs, Hturn1. split; [right|right]; reflexivity.
    - destruct (Hmover Ho Hm) as (Ht & Hs & _). clear Ho Hm Hother Hmover Hover.
      rewrite Ht, Hs, Hturn1, Hstatus1. split; left; reflexivity.
    - destruct (Hother Ho) as (Ht & Hs & _). clear Ho Hother Hmover Hover.
      rewrite Ht, Hs, Hturn1, Hstatus1. split; [left|right]; reflexivity. }
  clear Hother Hmover Hover.
  split; [rewrite Hid'; exact Hid|]. split; [exact Hkey|].
  split; [destruct Hs' as [-> | ->]; [exact Hstatus|right; right; reflexivity]|].
  split; [lia|]. split; [exact Hpos'|].
  rewrite Hplayers', Haddrs'. split; [assumption|]. split; [assumption|].
  apply advance_turn_live.
Qed.

Lemma server_ok_insert s key lb :
  server_ok s → lobby_ok key lb →
  ∀ key' lb', <[key := lb]> (lobbies s) !! key' = Some lb' → lobby_ok key' lb'.
Proof.
  intros Hs Hlb key' lb'. destruct (decide (key = key')) as [<-|Hne].
  - rewrite lookup_insert_eq. by intros [= <-].
  - rewrite lookup_insert_ne by done. apply Hs.
Qed.

(** X9: a request of the seated player to move, on a legal cell, is
    applied to the board of the lobby and then the turn goes to the other
    side when it has a move, comes back to the mover when only the mover has
    one, and the game is finished with the winner taken from the counts when
    neither has; while the game is on, the side to move always has a legal
    move. *)
Theorem place_advances_turn data player s key lb x y :
  place_accepted data player s key lb x y →
  ∃ lb',
    lobbies (_handle_place data player s).1 = <[key := lb']> (lobbies s) ∧
    Lobby.board lb' =
      (apply_player_move (Lobby.board lb) (Lobby.turn_index lb) x y).1 ∧
    Lobby.players lb' = Lobby.players lb ∧
    (find_legal_moves (Lobby.board lb') (1 - Lobby.turn_index lb) ≠ [] →
     Lobby.turn_index lb' = 1 - Lobby.turn_index lb ∧
     Lobby.status lb' = GameStatus.PLAYING ∧
     Lobby.winner lb' = Lobby.winner lb) ∧
    (find_legal_moves (Lobby.board lb') (1 - Lobby.turn_index lb) = [] →
     find_legal_moves (Lobby.board lb') (Lobby.turn_index lb) ≠ [] →
     Lobby.turn_index lb' = Lobby.turn_index lb ∧
     Lobby.status lb' = GameStatus.PLAYING ∧
     Lobby.winner lb' = Lobby.winner lb) ∧
    (find_legal_moves (Lobby.board lb') (1 - Lobby.turn_index lb) = [] →
     find_legal_moves (Lobby.board lb') (Lobby.turn_index lb) = [] →
     Lobby.status lb' = GameStatus.FINISHED ∧
     Lobby.winner lb' = Some (winner_of (Lobby.board lb'))) ∧
    (Lobby.status lb' = GameStatus.PLAYING →
     find_legal_moves (Lobby.board lb') (Lobby.turn_index lb') ≠ []).
Proof.
  intros Hacc. rewrite (_handle_place_accepted _ _ _ _ _ _ _ Hacc).
  destruct Hacc as (_ & Hstatus & _).
  set (lb1 := Lobby.set_board lb _).
  destruct (send_state_of_stored s key (advance_turn lb1)) as (Hlobbies & _).
  destruct (_send_state_lobby (advance_turn lb1)) as (h & Hstored & _).
  exists (_send_state (advance_turn lb1)).1. split; [done|].
  rewrite Hstored.
  cbn [Lobby.set_last_hash Lobby.board Lobby.players Lobby.turn_index
       Lobby.status Lobby.winner].
  destruct (advance_turn_spec lb1)
    as (_ & Hboard & Hplayers & _ & _ & Hother & Hmover & Hover).
  rewrite Hboard, Hplayers.
  change (Lobby.board lb1)
    with (apply_player_move (Lobby.board lb) (Lobby.turn_index lb) x y).1 in *.
  change (Lobby.turn_index lb1) with (Lobby.turn_index lb) in *.
  change (Lobby.status lb1) with (Lobby.status lb) in *.
  change (Lobby.winner lb1) with (Lobby.winner lb) in *.
  rewrite Hstatus in *.
  split; [done|]. split; [done|]. split; [exact Hother|].
  split; [exact Hmover|]. split.
  - intros Ho Hm. by destruct (Hover Ho Hm) as (_ & ? & ?).
  - intros Hplaying.
    destruct (decide (find_legal_moves
                (apply_player_move (Lobby.board lb) (Lobby.turn_index lb) x y).1
                (1 - Lobby.turn_index lb) = [])) as [Ho|Ho];
      [destruct (decide (find_legal_moves
                (apply_player_move (Lobby.board lb) (Lobby.turn_index lb) x y).1
                (Lobby.turn_index lb) = [])) as [Hm|Hm]|].
    + destruct (Hover Ho Hm) as (_ & Hfin & _).
      rewrite Hfin in Hplaying. discriminate Hplaying.
    + destruct (Hmover Ho Hm) as (-> & _). exact Hm.
    + destruct (Hother Ho) as (-> & _). exact Ho.
Qed.

Lemma place_advances_turn_witness :
  ∃ lb',
    lobbies (_handle_place [MessageType.PLACE; 2; 4]
               (Player.set_lobby_id alice (Some 42))
               (mkServer {[42 := cpu_lobby 0]} [] 0)).1
      = <[42 := lb']> {[42 := cpu_lobby 0]} ∧
    Lobby.turn_index lb' = 1 ∧ Lobby.status lb' = GameStatus.PLAYING.
Proof.
  destruct (place_advances_turn [MessageType.PLACE; 2; 4]
              (Player.set_lobby_id alice (Some 42))
              (mkServer {[42 := cpu_lobby 0]} [] 0) 42 (cpu_lobby 0) 2 4)
    as (lb' & Hlobbies & Hboard & _ & Hother & _).
  - unfold place_accepted. repeat split; try reflexivity; try (by vm_compute).
    apply (bool_decide_unpack _). by vm_compute.
  - exists lb'. split; [exact Hlobbies|].
    destruct Hother as (Hturn & Hstatus & _); [|by split].
    rewrite Hboard. by vm_compute.
Defined.

(** A state that was not broadcast yet goes out once to every human seat. *)
Lemma _send_state_fresh key lb :
  lobby_shape key lb →
  Lobby._last_hash lb ≠ Some (Lobby.state_hash lb) →
  _send_state lb =
    (Lobby.set_last_hash lb (Some (Lobby.state_hash lb)),
     Ok ((game_state_bytes lb,.) <$> human_addresses lb)).
Proof.
  intros Hshape Hnew. unfold _send_state.
  rewrite bool_decide_eq_false_2 by (intros Heq; by apply Hnew).
  rewrite game_state_payload_set_last_hash.
  rewrite (proj1 (game_state_payload_shape key lb Hshape)).
  by rewrite broadcast_humans.
Qed.

(** An applied move changes the board, so the state after it is never the
    one broadcast before it. *)
Lemma board_after_place_differs board player x y :
  board_ok board → player = 0 ∨ player = 1 →
  (x, y) ∈ find_legal_moves board player →
  (apply_player_move board player x y).1 ≠ board.
Proof.
  intros Hok Hp Hlegal Heq.
  destruct (played_cell_value board player x y Hok Hlegal) as [Hold Hnew].
  rewrite Heq, Hold in Hnew. lia.
Qed.

(** X10: an accepted move is announced: every human participant of the
    lobby is sent exactly one GAME_STATE datagram, in seat order, carrying
    the lobby as it is stored after the move, and the handler returns. *)
Theorem place_broadcasts data player s key lb x y :
  lobby_ok key lb → place_accepted data player s key lb x y →
  ∃ lb',
    lobbies (_handle_place data player s).1 !! key = Some lb' ∧
    sent (_handle_place data player s).1 =
      sent s ++ ((game_state_bytes lb',.) <$> human_addresses lb') ∧
    (_handle_place data player s).2 = Ok ().
Proof.
  intros [Hshape Hsync] Hacc.
  rewrite (_handle_place_accepted _ _ _ _ _ _ _ Hacc).
  destruct Hacc as (_ & _ & _ & _ & _ & _ & Hlegal).
  set (lb1 := advance_turn _).
  assert (lobby_shape key lb1) as Hshape1 by apply lobby_shape_after_place, Hshape.
  assert (Lobby._last_hash lb1 ≠ Some (Lobby.state_hash lb1)) as Hnew.
  { destruct (advance_turn_spec
                (Lobby.set_board lb
                   (apply_player_move (Lobby.board lb) (Lobby.turn_index lb)
                      x y).1)) as (_ & Hboard & _ & _ & Hlast & _).
    fold lb1 in Hboard, Hlast. rewrite Hlast.
    cbn [Lobby.set_board Lobby._last_hash Lobby.board] in Hboard |- *.
    destruct Hshape as (_ & _ & _ & Hturn & [Hok _] & _).
    pose proof (board_after_place_differs _ _ x y Hok Hturn Hlegal) as Hdiff.
    unfold Lobby.state_hash. rewrite Hboard.
    destruct Hsync as [-> | ->]; [discriminate|].
    unfold Lobby.state_hash. intros [= _ _ Heq]. by apply Hdiff. }
  destruct (send_state_of_stored s key lb1) as (Hlobbies & Hsent & _ & Hres).
  rewrite (_send_state_fresh key lb1 Hshape1 Hnew) in Hlobbies, Hsent, Hres.
  cbn [fst snd sends_of] in Hlobbies, Hsent, Hres.
  eexists. split; [by rewrite Hlobbies, lookup_insert_eq|]. split; [|exact Hres].
  exact Hsent.
Qed.

Lemma place_broadcasts_witness :
  ∃ lb',
    sent (_handle_place [MessageType.PLACE; 2; 4]
            (Player.set_lobby_id alice (Some 42))
            (mkServer {[42 := cpu_lobby 0]} [] 0)).1
      = [(game_state_bytes lb', ("10.0.0.1", 4000))].
Proof.
  destruct (place_broadcasts [MessageType.PLACE; 2; 4]
              (Player.set_lobby_id alice (Some 42))
              (mkServer {[42 := cpu_lobby 0]} [] 0) 42 (cpu_lobby 0) 2 4)
    as (lb' & Hstored & Hsent & _).
  - apply cpu_lobby_ok. by left.
  - unfold place_accepted. repeat split; try reflexivity; try (by vm_compute).
    apply (bool_decide_unpack _). by vm_compute.
  - exists lb'. rewrite Hsent. cbn [sent app]. f_equal.
    revert Hstored. vm_compute. by intros [= <-].
Defined.

(** The lobbies of a server in which one game against the CPU runs. *)
Lemma server_ok_cpu turn :
  turn = 0 ∨ turn = 1 → server_ok (mkServer {[42 := cpu_lobby turn]} [] 0).
Proof.
  intros Hturn key lb Hlb. cbn [lobbies] in Hlb.
  apply lookup_singleton_Some in Hlb as [<- <-]. by apply cpu_lobby_ok.
Qed.

Lemma _handle_place_server_ok data player s :
  server_ok s →
  server_ok (_handle_place data player s).1 ∧
  ((_handle_place data player s).2 = Ok () ∨
   (_handle_place data player s = (s, Raise IndexError) ∧ (length data < 3)%nat)).
Proof.
  intros Hs.
  destruct (_handle_place_cases data player s)
    as [[code ->]|[[-> Hlen]|(key & lb & x & y & Hacc)]].
  - split; [exact Hs|by left].
  - split; [exact Hs|right; by split].
  - assert (lobbies s !! key = Some lb) as Hlb.
    { destruct Hacc as (Hget & _). by apply lobbies_get_Some in Hget as [_ ?]. }
    destruct (Hs key lb Hlb) as [Hshape _].
    rewrite (_handle_place_accepted _ _ _ _ _ _ _ Hacc).
    set (lb1 := advance_turn _).
    assert (lobby_shape key lb1) as Hshape1
      by apply lobby_shape_after_place, Hshape.
    destruct (send_state_of_stored s key lb1) as (Hlobbies & _ & _ & Hres).
    destruct (_send_state_shape key lb1 Hshape1) as (Hok1 & out & Hout).
    split.
    + intros key' lb'. rewrite Hlobbies. by apply server_ok_insert.
    + left. by rewrite Hres, Hout.
Qed.

(** X11: whatever the request, [_handle_place] leaves every stored lobby
    well formed and in step with its last broadcast, and it returns
    normally unless the datagram is shorter than three bytes, in which case
    an IndexError leaves it with the server untouched. *)
Theorem _handle_place_keeps_server_ok data player s :
  server_ok s →
  server_ok (_handle_place data player s).1 ∧
  ((_handle_place data player s).2 = Ok () ∨
   (_handle_place data player s = (s, Raise IndexError) ∧ (length data < 3)%nat)).
Proof. apply _handle_place_server_ok. Qed.

Lemma _handle_place_keeps_server_ok_witness :
  server_ok (_handle_place [MessageType.PLACE; 2; 4]
               (Player.set_lobby_id alice (Some 42))
               (mkServer {[42 := cpu_lobby 0]} [] 0)).1.
Proof.
  apply (_handle_place_keeps_server_ok [MessageType.PLACE; 2; 4]
           (Player.set_lobby_id alice (Some 42))
           (mkServer {[42 := cpu_lobby 0]} [] 0)).
  apply server_ok_cpu. by left.
Defined.

(** ** Leaving a lobby *)

Lemma length_delete_both {A B} (i : nat) (l1 : list A) (l2 : list B) :
  length l1 = length l2 → length (delete i l1) = length (delete i l2).
Proof.
  revert i l2. induction l1 as [|a l1 IH]; intros i [|b l2] Hlen;
    try discriminate Hlen; [reflexivity|].
  destruct i as [|i]; cbn [delete list_delete length] in *; [lia|].
  f_equal. apply IH. lia.
Qed.

Lemma NoDup_delete_not_elem {A} (l : list A) (i : nat) (x : A) :
  NoDup l → l !! i = Some x → x ∉ delete i l.
Proof.
  intros Hnd Hi. rewrite delete_take_drop.
  rewrite <- (take_drop_middle l i x Hi) in Hnd.
  apply NoDup_app in Hnd as (_ & Hleft & Hright).
  apply NoDup_cons in Hright as [Hx _].
  intros [Hin|Hin]%elem_of_app; [|by apply Hx].
  apply (Hleft x Hin). by left.
Qed.

Lemma players_index_Some players pid idx :
  players_index players pid = Some idx → players !! idx = Some (PlayerId pid).
Proof.
  unfold players_index. destruct (list_find _ _) as [[i x]|] eqn:Hfind; [|done].
  intros [= <-]. by apply list_find_Some in Hfind as (Hi & -> & _).
Qed.

Lemma players_index_None players pid :
  players_index players pid = None → PlayerId pid ∉ players.
Proof.
  unfold players_index. destruct (list_find _ _) as [[i x]|] eqn:Hfind; [done|].
  intros _ Hin. apply list_find_None in Hfind.
  by apply (proj1 (Forall_forall _ _) Hfind _ Hin).
Qed.

(** Taking a seat out of a lobby keeps it well formed. *)
Lemma lobby_ok_unseat key lb idx :
  lobby_ok key lb →
  lobby_ok key
    (Lobby.set_player_addresses
       (Lobby.set_players lb (delete idx (Lobby.players lb)))
       (delete idx (Lobby.player_addresses lb))).
Proof.
  intros [(Hid & Hkey & Hstatus & Hturn & Hpos & Hlen & Hnd & Hlive) Hsync].
  split; [|exact Hsync].
  split; [exact Hid|]. split; [exact Hkey|]. split; [exact Hstatus|].
  split; [exact Hturn|]. split; [exact Hpos|].
  cbn [Lobby.set_player_addresses Lobby.set_players Lobby.players
       Lobby.player_addresses].
  split; [by apply length_delete_both|]. split; [|exact Hlive].
  eapply sublist_NoDup; [exact Hnd|apply sublist_delete].
Qed.

(** The two ways [_handle_leave] ends on a well-formed server: the player
    refers to no stored lobby and nothing is touched, or the player's lobby
    loses the player's seat and is deleted when no seat is left. *)
Lemma _handle_leave_outcome player s :
  server_ok s →
  (lobbies_get s (Player.lobby_id player) = None ∧
   ∃ p', _handle_leave player s = (s, p', Ok ()) ∧
         lobbies_get s (Player.lobby_id p') = None) ∨
  (∃ key lb lb',
     Player.lobby_id player = Some key ∧ lobbies s !! key = Some lb ∧
     lobby_ok key lb' ∧
     (PlayerId (Player.player_id player) ∉ Lobby.players lb') ∧
     (Lobby.players lb' `sublist_of` Lobby.players lb) ∧
     lobby_step lb lb' ∧
     _handle_leave player s =
       (set_lobbies s
          (if bool_decide (Lobby.players lb' = []) then delete key (lobbies s)
           else <[key := lb']> (lobbies s)),
        Player.set_lobby_id player None, Ok ())).
Proof.
  intros Hs. unfold _handle_leave, lobby_id_unset.
  destruct (Player.lobby_id player) as [k|] eqn:Hpl;
    [|left; split; [done|]; exists player; by rewrite Hpl].
  destruct (k =? 0) eqn:Hzero.
  { apply Z.eqb_eq in Hzero as ->.
    assert (lobbies s !! 0 = None) as Hnone.
    { destruct (lobbies s !! 0) as [lb|] eqn:Hlb; [|done].
      destruct (Hs 0 lb Hlb) as [(_ & Hkey & _) _]. lia. }
    left. unfold lobbies_get. cbn [mbind option_bind]. rewrite Hnone.
    split; [done|]. exists player. rewrite Hpl. cbn [mbind option_bind].
    by rewrite Hnone. }
  destruct (lobbies_get s (Some k)) as [[key lb]|] eqn:Hget;
    [|left; split; [done|]; by eexists].
  right. unfold lobbies_get in Hget. cbn [mbind option_bind] in Hget.
  destruct (lobbies s !! k) as [lb0|] eqn:Hlb; [|done].
  cbn [fmap option_fmap option_map] in Hget. injection Hget as <- <-.
  pose proof (Hs k lb0 Hlb) as Hok.
  pose proof Hok as [(Hid & Hkey & Hstatus & Hturn & Hpos & Hlen & Hnd & _) Hsync].
  destruct (players_index _ _) as [idx|] eqn:Hseat.
  - pose proof (players_index_Some _ _ _ Hseat) as Hidx.
    cbn [Lobby.set_players Lobby.player_addresses].
    rewrite bool_decide_eq_true_2
      by (rewrite <- Hlen; by apply lookup_lt_Some in Hidx).
    eexists k, lb0, _. split; [done|]. split; [done|].
    split; [by apply (lobby_ok_unseat k lb0 idx)|].
    split; [by apply NoDup_delete_not_elem|]. split; [apply sublist_delete|].
    split.
    { split; [reflexivity|]. split; [reflexivity|].
      split; [apply sublist_length, sublist_delete|by left]. }
    unfold leave_finish.
    cbn [Lobby.set_player_addresses Lobby.set_players Lobby.players
         Lobby.lobby_id set_lobbies lobbies sent drawn].
    rewrite Hid. case_bool_decide as Hempty; [|done].
    rewrite lookup_insert_eq. by rewrite delete_insert_eq.
  - exists k, lb0, lb0. split; [done|]. split; [done|].
    split; [exact Hok|]. split; [by apply players_index_None|].
    split; [done|].
    split; [split; [reflexivity|]; split; [reflexivity|]; split; [lia|by left]|].
    unfold leave_finish.
    cbn [set_lobbies lobbies sent drawn]. rewrite Hid.
    case_bool_decide as Hempty.
    + rewrite lookup_insert_eq. by rewrite delete_insert_eq.
    + done.
Qed.

Lemma _handle_leave_server_ok player s :
  server_ok s →
  server_ok (_handle_leave player s).1.1 ∧
  (_handle_leave player s).2 = Ok () ∧
  sent (_handle_leave player s).1.1 = sent s ∧
  ∀ key, Player.lobby_id player ≠ Some key →
         lobbies (_handle_leave player s).1.1 !! key = lobbies s !! key.
Proof.
  intros Hs.
  destruct (_handle_leave_outcome player s Hs)
    as [(_ & p' & -> & _)|(k & lb & lb' & Hpl & Hlb & Hok & _ & _ & _ & ->)].
  - cbn [fst snd]. split; [exact Hs|]. split; [reflexivity|].
    split; reflexivity.
  - cbn [fst snd set_lobbies lobbies sent]. split; [|split; [done|split; [done|]]].
    + intros key' lb''. cbn [set_lobbies lobbies]. case_bool_decide as Hempty.
      * intros Hdel. apply lookup_delete_Some in Hdel as [_ Hdel].
        by apply Hs.
      * by apply server_ok_insert.
    + intros key Hne. assert (k ≠ key) as Hne' by congruence.
      case_bool_decide as Hempty.
      * by rewrite lookup_delete_ne.
      * by rewrite lookup_insert_ne.
Qed.

(** X12: on a well-formed server [_handle_leave] never raises, sends no
    datagram (the participants who stay are not told), leaves every lobby
    other than the player's as it was and keeps the server well formed. *)
Theorem _handle_leave_keeps_server_ok player s :
  server_ok s →
  server_ok (_handle_leave player s).1.1 ∧
  (_handle_leave player s).2 = Ok () ∧
  sent (_handle_leave player s).1.1 = sent s ∧
  ∀ key, Player.lobby_id player ≠ Some key →
         lobbies (_handle_leave player s).1.1 !! key = lobbies s !! key.
Proof. apply _handle_leave_server_ok. Qed.

Lemma _handle_leave_keeps_server_ok_witness :
  (_handle_leave (Player.set_lobby_id alice (Some 42))
     (mkServer {[42 := cpu_lobby 0]} [] 0)).2 = Ok () ∧
  sent (_handle_leave (Player.set_lobby_id alice (Some 42))
          (mkServer {[42 := cpu_lobby 0]} [] 0)).1.1 = [].
Proof.
  destruct (_handle_leave_keeps_server_ok
              (Player.set_lobby_id alice (Some 42))
              (mkServer {[42 := cpu_lobby 0]} [] 0))
    as (_ & Hres & Hsent & _).
  - apply server_ok_cpu. by left.
  - by split.
Defined.

(** X13: after [_handle_leave] on a well-formed server the player refers to
    no stored lobby, and the lobby the player was in, when it is kept, has
    no seat of the player and at least one other seat. *)
Theorem _handle_leave_unseats player s :
  server_ok s →
  lobbies_get (_handle_leave player s).1.1
    (Player.lobby_id (_handle_leave player s).1.2) = None ∧
  ∀ key lb,
    Player.lobby_id player = Some key →
    lobbies (_handle_leave player s).1.1 !! key = Some lb →
    (PlayerId (Player.player_id player) ∉ Lobby.players lb) ∧
    Lobby.players lb ≠ [].
Proof.
  intros Hs.
  destruct (_handle_leave_outcome player s Hs)
    as [(Hnone & p' & -> & Hnone')|
        (k & lb & lb' & Hpl & Hlb & Hok & Hout & _ & _ & ->)].
  - cbn [fst snd]. split; [done|]. intros key lb Hpl Hlb.
    rewrite Hpl in Hnone. unfold lobbies_get in Hnone.
    cbn [mbind option_bind] in Hnone. rewrite Hlb in Hnone. discriminate Hnone.
  - cbn [fst snd set_lobbies lobbies]. split; [done|].
    intros key lb'' Hpl'. rewrite Hpl in Hpl'. injection Hpl' as <-.
    case_bool_decide as Hempty.
    + by rewrite lookup_delete_eq.
    + rewrite lookup_insert_eq. by intros [= <-].
Qed.

Lemma _handle_leave_unseats_witness :
  lobbies_get
    (_handle_leave (Player.set_lobby_id alice (Some 42))
       (mkServer {[42 := cpu_lobby 0]} [] 0)).1.1
    (Player.lobby_id
       (_handle_leave (Player.set_lobby_id alice (Some 42))
          (mkServer {[42 := cpu_lobby 0]} [] 0)).1.2) = None.
Proof.
  destruct (_handle_leave_unseats (Player.set_lobby_id alice (Some 42))
              (mkServer {[42 := cpu_lobby 0]} [] 0)) as [Hnone _].
  - apply server_ok_cpu. by left.
  - exact Hnone.
Defined.

(** ** Creating a lobby *)

(** The lobby that [_handle_create_lobby] has built when [_maybe_start]
    starts the game. *)
Lemma started_lobby_shape id mode players addrs turn :
  1 ≤ id ≤ 65534 → turn = 0 ∨ turn = 1 →
  length players = length addrs → NoDup players →
  lobby_shape id
    (Lobby.mk id mode true players addrs create_initial_board turn
       GameStatus.PLAYING None 0 [] None).
Proof.
  intros Hid Hturn Hlen Hnd. split; [reflexivity|]. split; [exact Hid|].
  split; [right; left; reflexivity|]. split; [exact Hturn|].
  split; [apply position_ok_initial|]. split; [exact Hlen|].
  split; [exact Hnd|]. intros _. by apply can_move_initial.
Qed.

Lemma randrange_bit entropy n :
  randrange entropy n 0 2 = 0 ∨ randrange entropy n 0 2 = 1.
Proof. pose proof (randrange_range entropy n 0 2 ltac:(lia)). lia. Qed.

(** [_maybe_start] on a lobby of one seat whose mode asks for a bot: the
    bot is seated and the game starts. *)
Lemma _maybe_start_bot entropy id s lb :
  lobbies s !! id = Some lb → Lobby.started lb = false →
  Lobby.mode lb = GameMode.PLAYER_VS_CPU ∨ Lobby.mode lb = GameMode.PLAYER_VS_AI →
  length (Lobby.players lb) = 1%nat →
  _maybe_start entropy id s =
    send_state_of (mkServer (lobbies s) (sent s) (S (drawn s))) id
      (Lobby.set_turn_index
         (Lobby.set_status
            (Lobby.set_started
               (Lobby.set_player_addresses
                  (Lobby.set_players lb
                     (Lobby.players lb ++
                      [Marker (if Lobby.mode lb =? GameMode.PLAYER_VS_AI
                               then "AI" else "CPU")]))
                  (Lobby.player_addresses lb ++ [None]))
               true)
            GameStatus.PLAYING)
         (randrange entropy (drawn s) 0 2)).
Proof.
  intros Hlb Hstarted Hmode Hlen. unfold _maybe_start.
  rewrite Hlb, Hstarted.
  rewrite (bool_decide_eq_true_2 (Lobby.mode lb ∈ _))
    by (destruct Hmode as [-> | ->]; [by left|right; by left]).
  rewrite (bool_decide_eq_true_2 (length (Lobby.players lb) = 1%nat)) by exact Hlen.
  cbn [andb].
  rewrite bool_decide_eq_true_2; [reflexivity|].
  change (length (Lobby.players lb ++ [Marker (if Lobby.mode lb =? GameMode.PLAYER_VS_AI
                               then "AI" else "CPU")]) = 2%nat).
  rewrite length_app, Hlen. reflexivity.
Qed.

(** [_maybe_start] on a lobby of one seat of another mode: nothing happens. *)
Lemma _maybe_start_waits entropy id s lb :
  lobbies s !! id = Some lb → Lobby.started lb = false →
  Lobby.mode lb ≠ GameMode.PLAYER_VS_CPU → Lobby.mode lb ≠ GameMode.PLAYER_VS_AI →
  length (Lobby.players lb) = 1%nat →
  _maybe_start entropy id s = (s, Ok ()).
Proof.
  intros Hlb Hstarted Hcpu Hai Hlen. unfold _maybe_start.
  rewrite Hlb, Hstarted.
  rewrite (bool_decide_eq_false_2 (Lobby.mode lb ∈ _)).
  - cbn [andb]. rewrite bool_decide_eq_false_2 by (rewrite Hlen; lia).
    rewrite (insert_id _ _ _ Hlb). by rewrite set_lobbies_id.
  - intros Hin. apply elem_of_cons in Hin as [Hin|Hin]; [by apply Hcpu|].
    apply elem_of_cons in Hin as [Hin|Hin]; [by apply Hai|].
    by apply elem_of_nil in Hin.
Qed.

Lemma _handle_create_lobby_bot fuel entropy data player s mode id pos :
  data !! 1%nat = Some mode →
  mode = GameMode.PLAYER_VS_CPU ∨ mode = GameMode.PLAYER_VS_AI →
  generate_lobby_id fuel entropy (drawn s) (lobbies s) = Some (id, pos) →
  ∃ lb',
    lb' = Lobby.mk id mode true
            [PlayerId (Player.player_id player);
             Marker (if mode =? GameMode.PLAYER_VS_AI then "AI" else "CPU")]
            [Some (Player.address player); None] create_initial_board
            (randrange entropy pos 0 2) GameStatus.PLAYING None 0 []
            (Some (GameStatus.PLAYING, randrange entropy pos 0 2,
                   create_initial_board)) ∧
    lobby_ok id lb' ∧
    _handle_create_lobby fuel entropy data player s =
      Some (mkServer (<[id := lb']> (lobbies s))
              (sent s ++ [(game_state_bytes lb', Player.address player)])
              (S pos),
            Player.set_lobby_id player (Some id), Ok ()).
Proof.
  intros Hmode Hbot Hgen.
  destruct (generate_lobby_id_sound _ _ _ _ _ _ Hgen) as (Hid & _ & _).
  set (lb1 := Lobby.mk id mode true
            [PlayerId (Player.player_id player);
             Marker (if mode =? GameMode.PLAYER_VS_AI then "AI" else "CPU")]
            [Some (Player.address player); None] create_initial_board
            (randrange entropy pos 0 2) GameStatus.PLAYING None 0 [] None).
  assert (lobby_shape id lb1) as Hshape.
  { apply started_lobby_shape; [exact Hid|apply randrange_bit|reflexivity|].
    apply NoDup_cons. split; [|apply NoDup_singleton].
    intros Hin. apply elem_of_cons in Hin as [Hin|Hin]; [discriminate Hin|].
    by apply elem_of_nil in Hin. }
  pose proof (_send_state_fresh id lb1 Hshape ltac:(discriminate)) as Hsend.
  eexists. split; [reflexivity|]. split.
  { split; [exact Hshape|right; reflexivity]. }
  unfold _handle_create_lobby. rewrite Hmode, Hgen. cbv zeta.
  erewrite _maybe_start_bot;
    [|apply lookup_insert_eq|reflexivity|exact Hbot|reflexivity].
  cbn [lobbies sent drawn].
  match goal with
  | |- context [send_state_of _ id ?lb] => change lb with lb1
  end.
  unfold send_state_of. rewrite Hsend.
  cbn [set_lobbies lobbies sent drawn]. rewrite insert_insert_eq.
  reflexivity.
Qed.

Lemma _handle_create_lobby_waiting fuel entropy data player s mode id pos :
  data !! 1%nat = Some mode →
  mode ≠ GameMode.PLAYER_VS_CPU → mode ≠ GameMode.PLAYER_VS_AI →
  generate_lobby_id fuel entropy (drawn s) (lobbies s) = Some (id, pos) →
  ∃ lb',
    lb' = Lobby.mk id mode false [PlayerId (Player.player_id player)]
            [Some (Player.address player)] create_initial_board 0
            GameStatus.WAITING None 0 [] None ∧
    lobby_ok id lb' ∧
    _handle_create_lobby fuel entropy data player s =
      Some (mkServer (<[id := lb']> (lobbies s)) (sent s) pos,
            Player.set_lobby_id player (Some id), Ok ()).
Proof.
  intros Hmode Hcpu Hai Hgen.
  destruct (generate_lobby_id_sound _ _ _ _ _ _ Hgen) as (Hid & _ & _).
  eexists. split; [reflexivity|]. split.
  { split; [|left; reflexivity].
    split; [reflexivity|]. split; [exact Hid|]. split; [left; reflexivity|].
    split; [left; reflexivity|]. split; [apply position_ok_initial|].
    split; [reflexivity|]. split; [apply NoDup_singleton|].
    intros Hplaying. discriminate Hplaying. }
  unfold _handle_create_lobby. rewrite Hmode, Hgen. cbv zeta.
  erewrite _maybe_start_waits;
    [|apply lookup_insert_eq|reflexivity|exact Hcpu|exact Hai|reflexivity].
  reflexivity.
Qed.



(** X15: CREATE_LOBBY with any other mode byte, once a free id is drawn,
    stores a lobby that waits: the creator alone is seated, the game is not
    started, and no datagram at all is sent, so the creator is not told the
    id of the lobby. *)
Theorem create_lobby_waits fuel entropy data player s mode id pos :
  data !! 1%nat = Some mode →
  mode ≠ GameMode.PLAYER_VS_CPU → mode ≠ GameMode.PLAYER_VS_AI →
  generate_lobby_id fuel entropy (drawn s) (lobbies s) = Some (id, pos) →
  ∃ s' lb',
    _handle_create_lobby fuel entropy data player s =
      Some (s', Player.set_lobby_id player (Some id), Ok ()) ∧
    lobbies s' !! id = Some lb' ∧
    Lobby.players lb' = [PlayerId (Player.player_id player)] ∧
    Lobby.player_addresses lb' = [Some (Player.address player)] ∧
    Lobby.status lb' = GameStatus.WAITING ∧
    Lobby.started lb' = false ∧
    sent s' = sent s.
Proof.
  intros Hmode Hcpu Hai Hgen.
  destruct (_handle_create_lobby_waiting fuel entropy data player s mode id pos
              Hmode Hcpu Hai Hgen) as (lb' & Hlb' & _ & ->).
  eexists _, lb'. split; [reflexivity|]. cbn [lobbies sent].
  split; [apply lookup_insert_eq|]. subst lb'.
  cbn [Lobby.players Lobby.player_addresses Lobby.status Lobby.started].
  do 4 (split; [reflexivity|]). reflexivity.
Qed.

Lemma create_lobby_waits_witness :
  ∃ s' lb',
    _handle_create_lobby 1 (λ _, 41)
      [MessageType.CREATE_LOBBY; GameMode.PLAYER_VS_PLAYER] alice
      (mkServer ∅ [] 0) =
      Some (s', Player.set_lobby_id alice (Some 42), Ok ()) ∧
    lobbies s' !! 42 = Some lb' ∧
    Lobby.status lb' = GameStatus.WAITING ∧ sent s' = [].
Proof.
  destruct (create_lobby_waits 1 (λ _, 41)
              [MessageType.CREATE_LOBBY; GameMode.PLAYER_VS_PLAYER] alice
              (mkServer ∅ [] 0) GameMode.PLAYER_VS_PLAYER 42 1%nat)
    as (s' & lb' & Hcreate & Hlb & _ & _ & Hstatus & _ & Hsent);
    [reflexivity|discriminate|discriminate|vm_compute; reflexivity|].
  exists s', lb'. split; [exact Hcreate|]. split; [exact Hlb|].
  split; [exact Hstatus|exact Hsent].
Defined.

(** X16: once a free id is drawn, [_handle_create_lobby] on a well-formed
    server returns with a well-formed server, whatever the mode byte; it
    raises only when the datagram has no mode byte, an IndexError that
    leaves server and player untouched. *)
Theorem _handle_create_lobby_keeps_server_ok fuel entropy data player s id pos :
  server_ok s →
  generate_lobby_id fuel entropy (drawn s) (lobbies s) = Some (id, pos) →
  ∃ s' p' r,
    _handle_create_lobby fuel entropy data player s = Some (s', p', r) ∧
    server_ok s' ∧
    (r = Ok () ∨
     (r = Raise IndexError ∧ (length data < 2)%nat ∧ s' = s ∧ p' = player)).
Proof.
  intros Hs Hgen. destruct (data !! 1%nat) as [mode|] eqn:Hmode.
  - destruct (decide (mode = GameMode.PLAYER_VS_CPU ∨ mode = GameMode.PLAYER_VS_AI))
      as [Hbot|Hnot].
    + destruct (_handle_create_lobby_bot fuel entropy data player s mode id pos
                  Hmode Hbot Hgen) as (lb' & _ & Hok & ->).
      eexists _, _, _. split; [reflexivity|]. split; [|by left].
      intros key lb. cbn [lobbies]. by apply server_ok_insert.
    + destruct (_handle_create_lobby_waiting fuel entropy data player s mode
                  id pos Hmode ltac:(tauto) ltac:(tauto) Hgen)
        as (lb' & _ & Hok & ->).
      eexists _, _, _. split; [reflexivity|]. split; [|by left].
      intros key lb. cbn [lobbies]. by apply server_ok_insert.
  - exists s, player, (Raise IndexError). unfold _handle_create_lobby.
    rewrite Hmode. split; [reflexivity|]. split; [exact Hs|]. right.
    apply lookup_ge_None in Hmode. repeat split; [lia].
Qed.

Lemma _handle_create_lobby_keeps_server_ok_witness :
  ∃ s' p' r,
    _handle_create_lobby 1 (λ _, 41)
      [MessageType.CREATE_LOBBY; GameMode.PLAYER_VS_CPU] alice
      (mkServer ∅ [] 0) = Some (s', p', r) ∧
    server_ok s'.
Proof.
  destruct (_handle_create_lobby_keeps_server_ok 1 (λ _, 41)
              [MessageType.CREATE_LOBBY; GameMode.PLAYER_VS_CPU] alice
              (mkServer ∅ [] 0) 42 1%nat)
    as (s' & p' & r & Hcreate & Hok & _).
  - intros key lb Hlb. cbn [lobbies] in Hlb. by rewrite lookup_empty in Hlb.
  - vm_compute. reflexivity.
  - exists s', p', r. split; [exact Hcreate|exact Hok].
Defined.

(** ** The learned bot *)

Lemma string_cons_app (a : Ascii.ascii) (s1 s2 : string) :
  String a s1 +:+ s2 = String a (s1 +:+ s2).
Proof. reflexivity. Qed.

Lemma string_nil_app (s : string) : "" +:+ s = s.
Proof. reflexivity. Qed.

Ltac string_norm := rewrite ?string_cons_app, ?string_nil_app.

Lemma string_app_assoc (s1 s2 s3 : string) :
  (s1 +:+ s2) +:+ s3 = s1 +:+ (s2 +:+ s3).
Proof.
  induction s1 as [|c s1 IH]; [reflexivity|]. string_norm. by rewrite IH.
Qed.

Lemma string_app_empty_r (s : string) : s +:+ "" = s.
Proof.
  induction s as [|c s IH]; [reflexivity|]. string_norm. by rewrite IH.
Qed.

Lemma string_length_app (s1 s2 : string) :
  String.length (s1 +:+ s2) = (String.length s1 + String.length s2)%nat.
Proof.
  induction s1 as [|c s1 IH]; [reflexivity|]. string_norm.
  cbn [String.length]. by rewrite IH.
Qed.

Lemma cell_marks_app l1 l2 :
  cell_marks (l1 ++ l2) = cell_marks l1 +:+ cell_marks l2.
Proof.
  induction l1 as [|c l1 IH]; [reflexivity|].
  cbn [app cell_marks foldr]. fold (cell_marks (l1 ++ l2)). fold (cell_marks l1).
  by rewrite IH, string_app_assoc.
Qed.

(** The inner loop of [ai_state_key] appends the marks of a row. *)
Lemma ai_state_key_row key row :
  foldl (λ key column,
           if column =? 0 then key +:+ "B"
           else if column =? 1 then key +:+ "W"
           else key +:+ " ") key row
  = key +:+ cell_marks row.
Proof.
  revert key. induction row as [|c row IH]; intros key.
  - cbn [foldl cell_marks foldr]. by rewrite string_app_empty_r.
  - cbn [foldl]. rewrite IH. cbn [cell_marks foldr]. fold (cell_marks row).
    rewrite <- string_app_assoc. unfold cell_mark.
    destruct (c =? 0); [reflexivity|]. by destruct (c =? 1).
Qed.

Lemma ai_state_key_rows key board :
  foldl (λ key row,
           foldl (λ key column,
                    if column =? 0 then key +:+ "B"
                    else if column =? 1 then key +:+ "W"
                    else key +:+ " ") key row) key board
  = key +:+ cell_marks (mjoin board).
Proof.
  revert key. induction board as [|row board IH]; intros key.
  - cbn [foldl]. change (mjoin []) with (@nil Z).
    cbn [cell_marks foldr]. by rewrite string_app_empty_r.
  - cbn [foldl]. rewrite IH, ai_state_key_row.
    change (mjoin (row :: board)) with (row ++ mjoin board).
    by rewrite cell_marks_app, string_app_assoc.
Qed.

Lemma ai_state_key_marks board :
  ai_state_key board = "B" +:+ cell_marks (mjoin board).
Proof. unfold ai_state_key. by rewrite ai_state_key_rows. Qed.

Lemma cell_marks_cons c cells :
  cell_marks (c :: cells) = cell_mark c +:+ cell_marks cells.
Proof. reflexivity. Qed.

Lemma cell_mark_length c : String.length (cell_mark c) = 1%nat.
Proof.
  unfold cell_mark. destruct (c =? 0); [reflexivity|]. by destruct (c =? 1).
Qed.

Lemma cell_marks_length cells :
  String.length (cell_marks cells) = length cells.
Proof.
  induction cells as [|c cells IH]; [reflexivity|].
  rewrite cell_marks_cons, string_length_app, cell_mark_length, IH.
  reflexivity.
Qed.

Lemma cell_mark_inj c1 c2 s1 s2 :
  cell_ok c1 → cell_ok c2 →
  cell_mark c1 +:+ s1 = cell_mark c2 +:+ s2 → c1 = c2 ∧ s1 = s2.
Proof.
  intros [-> | [-> | ->]] [-> | [-> | ->]];
    change (cell_mark 0) with "B"; change (cell_mark 1) with "W";
    change (cell_mark 255) with " "; string_norm; intros Heq;
    try discriminate Heq; by injection Heq as ->.
Qed.

Lemma cell_marks_inj l1 l2 :
  Forall cell_ok l1 → Forall cell_ok l2 →
  cell_marks l1 = cell_marks l2 → l1 = l2.
Proof.
  intros H1. revert l2. induction H1 as [|c1 l1 Hc1 H1 IH]; intros l2 H2.
  - destruct H2 as [|c2 l2 Hc2 H2]; [reflexivity|].
    rewrite cell_marks_cons. intros Heq.
    pose proof (f_equal String.length Heq) as Hlen.
    rewrite string_length_app, cell_mark_length in Hlen. discriminate Hlen.
  - destruct H2 as [|c2 l2 Hc2 H2].
    + rewrite cell_marks_cons. intros Heq.
      pose proof (f_equal String.length Heq) as Hlen.
      rewrite string_length_app, cell_mark_length in Hlen. discriminate Hlen.
    + rewrite !cell_marks_cons. intros Heq.
      apply cell_mark_inj in Heq as [-> Heq]; [|done..].
      f_equal. by apply IH.
Qed.

(** X17: the state key of a board of 8x8 cells has 65 characters, and two
    positions with the same key are the same position: the key tells the
    position, though not the side to move. *)
Theorem ai_state_key_inj board1 board2 :
  position_ok board1 → position_ok board2 →
  String.length (ai_state_key board1) = 65%nat ∧
  (ai_state_key board1 = ai_state_key board2 → board1 = board2).
Proof.
  intros [Hok1 Hcells1] [Hok2 Hcells2]. rewrite !ai_state_key_marks. split.
  - rewrite string_length_app, cell_marks_length.
    by rewrite (board_ok_length_join _ Hok1).
  - string_norm. intros Heq. injection Heq as Heq.
    apply cell_marks_inj in Heq; [|by apply Forall_join..].
    apply join_rows_inj; [apply Hok1|apply Hok2|exact Heq].
Qed.

Lemma ai_state_key_inj_witness :
  String.length (ai_state_key create_initial_board) = 65%nat.
Proof.
  apply (ai_state_key_inj create_initial_board create_initial_board
           position_ok_initial position_ok_initial).
Defined.

Lemma random_choice_elem {A} entropy pos (seq : list A) :
  seq ≠ [] →
  ∃ a, random_choice entropy pos seq = (Ok a, S pos) ∧ a ∈ seq.
Proof.
  intros Hne. unfold random_choice.
  pose proof (randrange_range entropy pos 0 (Z.of_nat (length seq))) as Hrange.
  destruct seq as [|a0 seq]; [by destruct Hne|].
  set (l := a0 :: seq) in *.
  assert (0 < Z.of_nat (length l)) as Hpos by (unfold l; cbn [length]; lia).
  specialize (Hrange Hpos).
  destruct (l !! Z.to_nat (randrange entropy pos 0 (Z.of_nat (length l))))
    as [a|] eqn:Hlookup.
  - exists a. split; [reflexivity|]. by eapply list_elem_of_lookup_2.
  - apply lookup_ge_None in Hlookup. lia.
Qed.

Lemma cpu_consider_choice board player best m :
  (cpu_consider board player best m).2 = best.2 ∨
  (cpu_consider board player best m).2 = m.
Proof.
  unfold cpu_consider. destruct best as [best_score best_move].
  destruct m as [x y].
  destruct (apply_player_move (clone_board board) player x y)
    as [tmp [success flipped]].
  destruct (negb success); [by left|].
  match goal with |- context [if ?c then _ else _] => destruct c end;
    [by right|by left].
Qed.

Lemma foldl_cpu_consider_elem board player best l :
  (foldl (cpu_consider board player) best l).2 = best.2 ∨
  (foldl (cpu_consider board player) best l).2 ∈ l.
Proof.
  revert best. induction l as [|m l IH]; intros best; [by left|].
  cbn [foldl].
  destruct (IH (cpu_consider board player best m)) as [Heq|Hin].
  - rewrite Heq.
    destruct (cpu_consider_choice board player best m) as [-> | ->];
      [by left|right; by left].
  - right. by right.
Qed.

(** [cpu_select_move] answers with a cell of the legal-move list, and with
    [None] only when the list is empty. *)
Lemma cpu_select_move_elem board player :
  match cpu_select_move board player with
  | Some mv => mv ∈ find_legal_moves board player
  | None => find_legal_moves board player = []
  end.
Proof.
  unfold cpu_select_move.
  destruct (find_legal_moves board player) as [|m0 moves]; [reflexivity|].
  destruct (foldl_cpu_consider_elem board player (-1, m0) (m0 :: moves))
    as [-> | Hin]; [by left|exact Hin].
Qed.

Section QTableFacts.
Context {V : Type} (gt eqv : V → V → bool).

(** One step of the loop of [ai_select_move]: with the index of the move in
    the table the best moves stay a non-empty part of the moves seen. *)
Lemma ai_consider_step (t : gmap QKey V) best_value best_moves x y v :
  t !! IndexKey (x * 8 * y) = Some v →
  match best_value with None => best_moves = [] | Some _ => best_moves ≠ [] end →
  ∃ b bms,
    ai_consider gt eqv t (Ok (best_value, best_moves)) (x, y) = Ok (Some b, bms) ∧
    bms ≠ [] ∧ ∀ m, m ∈ bms → m ∈ best_moves ∨ m = (x, y).
Proof.
  intros Hv Hacc. unfold ai_consider. rewrite Hv.
  destruct best_value as [b|].
  - destruct (gt v b).
    + eexists _, _. split; [reflexivity|]. split; [discriminate|].
      intros m Hm. apply list_elem_of_singleton in Hm. by right.
    + destruct (eqv v b).
      * eexists _, _. split; [reflexivity|]. split.
        -- intros Happ. by apply app_nil in Happ as [_ Happ].
        -- intros m Hm. apply elem_of_app in Hm as [Hm|Hm]; [by left|].
           apply list_elem_of_singleton in Hm. by right.
      * eexists _, _. split; [reflexivity|]. split; [exact Hacc|by left].
  - eexists _, _. split; [reflexivity|]. split; [discriminate|].
    intros m Hm. apply list_elem_of_singleton in Hm. by right.
Qed.

Lemma foldl_ai_consider_raise (t : gmap QKey V) moves e :
  foldl (ai_consider gt eqv t) (Raise e) moves = Raise e.
Proof. induction moves as [|m moves IH]; [reflexivity|exact IH]. Qed.

(** The loop of [ai_select_move]: over a table that has the index of every
    move it gathers moves of the list, at least one when the list is not
    empty; otherwise it ends in a KeyError. *)
Lemma foldl_ai_consider (t : gmap QKey V) moves best_value best_moves :
  match best_value with None => best_moves = [] | Some _ => best_moves ≠ [] end →
  match foldl (ai_consider gt eqv t) (Ok (best_value, best_moves)) moves with
  | Ok (best_value', best_moves') =>
      (∀ m, m ∈ best_moves' → m ∈ best_moves ∨ m ∈ moves) ∧
      (best_moves ≠ [] ∨ moves ≠ [] → best_moves' ≠ []) ∧
      (∀ m, m ∈ moves → is_Some (t !! IndexKey (m.1 * 8 * m.2)))
  | Raise e =>
      e = KeyError ∧ ∃ m, m ∈ moves ∧ t !! IndexKey (m.1 * 8 * m.2) = None
  end.
Proof.
  revert best_value best_moves.
  induction moves as [|[x y] moves IH]; intros best_value best_moves Hacc.
  - cbn [foldl]. split; [by left|]. split.
    + intros [Hne|Hne]; [exact Hne|by destruct Hne].
    + intros m Hm. by apply elem_of_nil in Hm.
  - cbn [foldl].
    destruct (t !! IndexKey (x * 8 * y)) as [v|] eqn:Hv.
    + destruct (ai_consider_step t best_value best_moves x y v Hv Hacc)
        as (b & bms & -> & Hne & Hsub).
      specialize (IH (Some b) bms Hne).
      destruct (foldl _ _ moves) as [[bv' bms']|e].
      * destruct IH as (Hsub' & Hne' & Hall). split; [|split].
        -- intros m Hm. destruct (Hsub' m Hm) as [Hin|Hin]; [|right; by right].
           destruct (Hsub m Hin) as [Hin'| ->]; [by left|right; by left].
        -- intros _. apply Hne'. by left.
        -- intros m Hm. apply elem_of_cons in Hm as [-> | Hm]; [by eexists|].
           by apply Hall.
      * destruct IH as (-> & m & Hm & Hmiss). split; [reflexivity|].
        exists m. split; [by right|exact Hmiss].
    + unfold ai_consider at 2. rewrite Hv. rewrite foldl_ai_consider_raise.
      split; [reflexivity|]. exists (x, y). split; [by left|exact Hv].
Qed.
End QTableFacts.

(** The ways [ai_select_move] ends, with the calls made to [random]. *)
Lemma ai_select_move_cases {V : Type} (gt eqv : V → V → bool)
    (table : option (gmap QKey V)) entropy pos board player :
  match ai_select_move gt eqv table entropy pos board player with
  | (Ok (Some mv), _) => mv ∈ find_legal_moves board player
  | (Ok None, _) => find_legal_moves board player = []
  | (Raise e, pos') =>
      e = KeyError ∧ pos' = pos ∧
      ∃ t m, table = Some t ∧
             is_Some (t !! StateKey (ai_state_key board)) ∧
             m ∈ find_legal_moves board player ∧
             t !! IndexKey (m.1 * 8 * m.2) = None
  end.
Proof.
  unfold ai_select_move.
  destruct table as [t|]; [|apply cpu_select_move_elem].
  case_bool_decide as Hsize; [apply cpu_select_move_elem|].
  destruct (find_legal_moves board player) as [|m0 moves] eqn:Hmoves.
  { rewrite bool_decide_eq_true_2 by reflexivity. reflexivity. }
  rewrite bool_decide_eq_false_2 by discriminate.
  destruct (t !! StateKey (ai_state_key board)) as [q|] eqn:Hstate.
  - pose proof (foldl_ai_consider gt eqv t (m0 :: moves) None [] eq_refl)
      as Hloop.
    destruct (foldl _ _ (m0 :: moves)) as [[bv bms]|e].
    + destruct Hloop as (Hsub & Hne & _).
      destruct (random_choice_elem entropy pos bms) as (m & -> & Hm).
      { apply Hne. right. discriminate. }
      destruct (Hsub m Hm) as [Hin|Hin]; [|exact Hin].
      by apply elem_of_nil in Hin.
    + destruct Hloop as (-> & m & Hm & Hmiss).
      split; [reflexivity|]. split; [reflexivity|].
      exists t, m. split; [reflexivity|].
      split; [by eexists|]. split; [exact Hm|exact Hmiss].
  - destruct (random_choice_elem entropy pos (m0 :: moves)) as (m & -> & Hm);
      [discriminate|].
    exact Hm.
Qed.

(** X18: [ai_select_move] never answers with an illegal cell: a move it
    returns is in the legal-move list, it returns [None] only when that list
    is empty, and the only exception it raises is the KeyError of a table
    that holds the state key of the board but not the index of some legal
    move. *)
Theorem ai_select_move_legal {V : Type} (gt eqv : V → V → bool)
    (table : option (gmap QKey V)) entropy pos board player :
  match (ai_select_move gt eqv table entropy pos board player).1 with
  | Ok (Some mv) => mv ∈ find_legal_moves board player
  | Ok None => find_legal_moves board player = []
  | Raise e =>
      e = KeyError ∧
      ∃ t m, table = Some t ∧
             is_Some (t !! StateKey (ai_state_key board)) ∧
             m ∈ find_legal_moves board player ∧
             t !! IndexKey (m.1 * 8 * m.2) = None
  end.
Proof.
  pose proof (ai_select_move_cases gt eqv table entropy pos board player)
    as Hcases.
  destruct (ai_select_move gt eqv table entropy pos board player)
    as [[[mv|]|e] pos']; cbn [fst]; [exact Hcases|exact Hcases|].
  destruct Hcases as (He & _ & Htable). split; [exact He|exact Htable].
Qed.

(** X19: with a table that holds state keys only, the table knowing the
    board and the bot having a legal move, [ai_select_move] raises a
    KeyError: it reads the value of a move under an integer index. *)
Theorem ai_select_move_state_table {V : Type} (gt eqv : V → V → bool)
    (t : gmap QKey V) entropy pos board player :
  (∀ i, t !! IndexKey i = None) →
  is_Some (t !! StateKey (ai_state_key board)) →
  can_move board player →
  ai_select_move gt eqv (Some t) entropy pos board player
    = (Raise KeyError, pos).
Proof.
  intros Hindex [q Hstate] Hmove. unfold can_move in Hmove.
  unfold ai_select_move.
  rewrite bool_decide_eq_false_2.
  2:{ intros Hsize. apply map_size_empty_iff in Hsize. subst t.
      by rewrite lookup_empty in Hstate. }
  destruct (find_legal_moves board player) as [|[x y] moves]; [by destruct Hmove|].
  clear Hmove. rewrite bool_decide_eq_false_2 by discriminate.
  rewrite Hstate. cbn [foldl]. unfold ai_consider at 2.
  rewrite Hindex. by rewrite foldl_ai_consider_raise.
Qed.

Lemma ai_select_move_state_table_witness :
  ai_select_move Z.gtb Z.eqb
    (Some {[StateKey (ai_state_key create_initial_board) := 0]})
    (λ _, 0) 0 create_initial_board 0
    = (Raise KeyError, 0%nat).
Proof.
  apply (ai_select_move_state_table Z.gtb Z.eqb
           {[StateKey (ai_state_key create_initial_board) := 0]}
           (λ _, 0) 0%nat create_initial_board 0).
  - intros i. by apply lookup_singleton_ne.
  - exists 0. apply lookup_singleton_eq.
  - apply can_move_initial. by left.
Defined.

(** ** The turn of a bot *)

Lemma py_index_seat {A} (l : list A) (i : Z) :
  0 ≤ i < Z.of_nat (length l) →
  ∃ a, py_index l i = Some a ∧ l !! Z.to_nat i = Some a.
Proof.
  intros Hi. unfold py_index. rewrite (proj2 (Z.ltb_ge i 0)) by lia.
  destruct (l !! Z.to_nat i) as [a|] eqn:Hlookup; [by exists a|].
  apply lookup_ge_None in Hlookup. lia.
Qed.

(** On a well-formed lobby the test of [_tick] does not raise, and it
    holds only of a running game whose seat to move is a bot's. *)
Lemma bot_to_move_shape key lb :
  lobby_shape key lb →
  (∃ b, bot_to_move lb = Ok b) ∧
  (bot_to_move lb = Ok true →
   Lobby.status lb = GameStatus.PLAYING ∧
   ∃ slot, py_index (Lobby.players lb) (Lobby.turn_index lb) = Some slot ∧
           is_bot slot = true).
Proof.
  intros (_ & _ & _ & Hturn & _). unfold bot_to_move.
  destruct (Lobby.started lb); cbn [negb];
    [|split; [by eexists|discriminate]].
  destruct (Lobby.status lb =? GameStatus.PLAYING) eqn:Hstatus; cbn [negb];
    [|split; [by eexists|discriminate]].
  apply Z.eqb_eq in Hstatus.
  destruct (Lobby.turn_index lb <? Z.of_nat (length (Lobby.players lb)))
    eqn:Hlt; cbn [negb]; [|split; [by eexists|discriminate]].
  apply Z.ltb_lt in Hlt.
  destruct (py_index_seat (Lobby.players lb) (Lobby.turn_index lb))
    as (slot & -> & _); [lia|].
  split; [by eexists|]. intros [= Hbot]. split; [exact Hstatus|].
  by exists slot.
Qed.

(** A well-formed lobby whose state was not broadcast yet is announced to
    its human seats and stored in step with the broadcast. *)
Lemma send_state_of_fresh s key lb :
  lobby_shape key lb →
  Lobby._last_hash lb ≠ Some (Lobby.state_hash lb) →
  send_state_of s key lb
    = (mkServer
         (<[key := Lobby.set_last_hash lb (Some (Lobby.state_hash lb))]>
            (lobbies s))
         (sent s ++ ((game_state_bytes lb,.) <$> human_addresses lb))
         (drawn s), Ok ()) ∧
  lobby_ok key (Lobby.set_last_hash lb (Some (Lobby.state_hash lb))).
Proof.
  intros Hshape Hnew. split.
  - unfold send_state_of. rewrite (_send_state_fresh key lb Hshape Hnew).
    reflexivity.
  - split; [by apply lobby_shape_set_last_hash|right; reflexivity].
Qed.

(** After a legal move and the turn switch the state is a new one. *)
Lemma state_after_move_new key lb x y :
  lobby_ok key lb →
  (x, y) ∈ find_legal_moves (Lobby.board lb) (Lobby.turn_index lb) →
  Lobby._last_hash
    (advance_turn
       (Lobby.set_board lb
          (apply_player_move (Lobby.board lb) (Lobby.turn_index lb) x y).1))
  ≠ Some (Lobby.state_hash
            (advance_turn
               (Lobby.set_board lb
                  (apply_player_move (Lobby.board lb) (Lobby.turn_index lb)
                     x y).1))).
Proof.
  intros [Hshape Hsync] Hlegal.
  destruct (advance_turn_spec
              (Lobby.set_board lb
                 (apply_player_move (Lobby.board lb) (Lobby.turn_index lb)
                    x y).1)) as (_ & Hboard & _ & _ & Hlast & _).
  rewrite Hlast. unfold Lobby.state_hash at 1. rewrite Hboard.
  cbn [Lobby.set_board Lobby._last_hash Lobby.board].
  destruct Hshape as (_ & _ & _ & Hturn & [Hok _] & _).
  pose proof (board_after_place_differs _ _ x y Hok Hturn Hlegal) as Hdiff.
  destruct Hsync as [-> | ->]; [discriminate|].
  unfold Lobby.state_hash. intros [= _ _ Heq]. by apply Hdiff.
Qed.

Lemma advance_turn_keeps lb :
  Lobby.mode (advance_turn lb) = Lobby.mode lb ∧
  Lobby.started (advance_turn lb) = Lobby.started lb.
Proof.
  unfold advance_turn. cbv zeta.
  destruct (bool_decide _); [destruct (check_game_over _ _)|];
    split; reflexivity.
Qed.

(** A move in a running game and the turn switch are a step of the lobby. *)
Lemma lobby_step_move lb board :
  Lobby.status lb = GameStatus.PLAYING →
  lobby_step lb (advance_turn (Lobby.set_board lb board)).
Proof.
  intros Hstatus.
  destruct (advance_turn_keeps (Lobby.set_board lb board)) as [Hmode Hstarted].
  destruct (advance_turn_spec (Lobby.set_board lb board))
    as (_ & _ & Hplayers & _).
  split; [exact Hmode|]. split; [exact Hstarted|].
  split; [rewrite Hplayers; reflexivity|by right].
Qed.

(** A legal move followed by the turn switch is always announced. *)
Lemma send_state_after_move s key lb x y :
  lobby_ok key lb → Lobby.status lb = GameStatus.PLAYING →
  (x, y) ∈ find_legal_moves (Lobby.board lb) (Lobby.turn_index lb) →
  ∃ lb',
    send_state_of s key
      (advance_turn
         (Lobby.set_board lb
            (apply_player_move (Lobby.board lb) (Lobby.turn_index lb) x y).1))
    = (mkServer (<[key := lb']> (lobbies s))
         (sent s ++ ((game_state_bytes lb',.) <$> human_addresses lb'))
         (drawn s), Ok ()) ∧
    lobby_ok key lb' ∧
    Lobby.board lb' =
      (apply_player_move (Lobby.board lb) (Lobby.turn_index lb) x y).1 ∧
    lobby_step lb lb'.
Proof.
  intros Hok Hstatus Hlegal.
  pose proof (lobby_shape_after_place key lb x y (proj1 Hok)) as Hshape1.
  pose proof (state_after_move_new key lb x y Hok Hlegal) as Hnew.
  pose proof (proj1 (proj2 (advance_turn_spec
              (Lobby.set_board lb
                 (apply_player_move (Lobby.board lb) (Lobby.turn_index lb)
                    x y).1)))) as Hboard.
  pose proof (lobby_step_move lb
                (apply_player_move (Lobby.board lb) (Lobby.turn_index lb)
                   x y).1 Hstatus) as Hstep.
  revert Hshape1 Hnew Hboard Hstep.
  generalize (advance_turn
         (Lobby.set_board lb
            (apply_player_move (Lobby.board lb) (Lobby.turn_index lb) x y).1)).
  intros lb1 Hshape1 Hnew Hboard Hstep.
  destruct (send_state_of_fresh s key lb1 Hshape1 Hnew) as [Hsend Hok1].
  eexists. split; [exact Hsend|]. split; [exact Hok1|].
  split; [exact Hboard|exact Hstep].
Qed.

Lemma game_state_sends lb :
  Forall is_game_state ((game_state_bytes lb,.) <$> human_addresses lb).
Proof. apply Forall_fmap, Forall_forall. intros addr _. reflexivity. Qed.

(** When the time of the bot has come: the bot plays a legal move, which is
    announced, unless the table of the AI lacks an index. *)
Lemma tick_lobby_due {Time V : Type} (delay_after : Time → Z → Time)
    (reached : Time → Time → bool) (gt eqv : V → V → bool)
    table entropy ts s key lb t :
  lobby_ok key lb → bot_to_move lb = Ok true → reached ts t = true →
  (∃ x y lb' pos,
     (x, y) ∈ find_legal_moves (Lobby.board lb) (Lobby.turn_index lb) ∧
     tick_lobby delay_after reached gt eqv table entropy ts s key lb (Some t)
       = (mkServer (<[key := lb']> (lobbies s))
            (sent s ++ ((game_state_bytes lb',.) <$> human_addresses lb'))
            pos, None, Ok ()) ∧
     Lobby.board lb' =
       (apply_player_move (Lobby.board lb) (Lobby.turn_index lb) x y).1 ∧
     lobby_ok key lb' ∧ lobby_step lb lb' ∧
     (py_index (Lobby.players lb) (Lobby.turn_index lb) ≠ Some (Marker "AI") →
      cpu_select_move (Lobby.board lb) (Lobby.turn_index lb) = Some (x, y))) ∨
  (tick_lobby delay_after reached gt eqv table entropy ts s key lb (Some t)
     = (s, Some t, Raise KeyError) ∧
   py_index (Lobby.players lb) (Lobby.turn_index lb) = Some (Marker "AI") ∧
   ∃ tb m, table = Some tb ∧
           is_Some (tb !! StateKey (ai_state_key (Lobby.board lb))) ∧
           m ∈ find_legal_moves (Lobby.board lb) (Lobby.turn_index lb) ∧
           tb !! IndexKey (m.1 * 8 * m.2) = None).
Proof.
  intros Hok Hbot Hreached. pose proof Hok as [Hshape _].
  destruct (bot_to_move_shape key lb Hshape) as [_ Hseat].
  destruct (Hseat Hbot) as (Hstatus & slot & Hslot & _).
  assert (can_move (Lobby.board lb) (Lobby.turn_index lb)) as Hlive.
  { destruct Hshape as (_ & _ & _ & _ & _ & _ & _ & Hlive). by apply Hlive. }
  unfold tick_lobby. rewrite Hbot, Hreached, Hslot.
  case_bool_decide as Hai.
  - pose proof (ai_select_move_cases gt eqv table entropy (drawn s)
                  (Lobby.board lb) (Lobby.turn_index lb)) as Hcases.
    destruct (ai_select_move gt eqv table entropy (drawn s) (Lobby.board lb)
                (Lobby.turn_index lb)) as [[[[x y]|]|e] pos].
    + left.
      destruct (send_state_after_move
                  (mkServer (lobbies s) (sent s) pos) key lb x y Hok Hstatus
                  Hcases)
        as (lb' & -> & Hok' & Hboard & Hstep).
      exists x, y, lb', pos. split; [exact Hcases|]. split; [reflexivity|].
      split; [exact Hboard|]. split; [exact Hok'|]. split; [exact Hstep|].
      intros Hnot. destruct Hnot. by rewrite Hai.
    + by destruct Hlive.
    + right. destruct Hcases as (-> & -> & Htable).
      split; [by destruct s|]. split; [by rewrite Hai|exact Htable].
  - pose proof (cpu_select_move_elem (Lobby.board lb) (Lobby.turn_index lb))
      as Hcpu.
    destruct (cpu_select_move (Lobby.board lb) (Lobby.turn_index lb))
      as [[x y]|]; [|by destruct Hlive].
    left.
    destruct (send_state_after_move
                (mkServer (lobbies s) (sent s) (drawn s)) key lb x y Hok
                Hstatus Hcpu)
      as (lb' & -> & Hok' & Hboard & Hstep).
    exists x, y, lb', (drawn s). split; [exact Hcpu|]. split; [reflexivity|].
    split; [exact Hboard|]. split; [exact Hok'|]. split; [exact Hstep|].
    reflexivity.
Qed.

(** X20: when a bot is to move in a well-formed lobby and its time has
    come, [_tick] plays a legal cell for it (the choice of
    [cpu_select_move], unless the seat is the AI's), the stored lobby
    carries the board after that move and stays well formed, every human
    seat is sent its GAME_STATE datagram, and the pending time is cleared;
    the one other outcome is the KeyError of the AI's table, which leaves
    server and pending time as they were. *)
Theorem tick_lobby_bot_moves {Time V : Type} (delay_after : Time → Z → Time)
    (reached : Time → Time → bool) (gt eqv : V → V → bool)
    table entropy ts s key lb t :
  lobby_ok key lb → bot_to_move lb = Ok true → reached ts t = true →
  (∃ x y lb' pos,
     (x, y) ∈ find_legal_moves (Lobby.board lb) (Lobby.turn_index lb) ∧
     tick_lobby delay_after reached gt eqv table entropy ts s key lb (Some t)
       = (mkServer (<[key := lb']> (lobbies s))
            (sent s ++ ((game_state_bytes lb',.) <$> human_addresses lb'))
            pos, None, Ok ()) ∧
     Lobby.board lb' =
       (apply_player_move (Lobby.board lb) (Lobby.turn_index lb) x y).1 ∧
     lobby_ok key lb' ∧
     (py_index (Lobby.players lb) (Lobby.turn_index lb) ≠ Some (Marker "AI") →
      cpu_select_move (Lobby.board lb) (Lobby.turn_index lb) = Some (x, y))) ∨
  (tick_lobby delay_after reached gt eqv table entropy ts s key lb (Some t)
     = (s, Some t, Raise KeyError) ∧
   py_index (Lobby.players lb) (Lobby.turn_index lb) = Some (Marker "AI") ∧
   ∃ tb m, table = Some tb ∧
           is_Some (tb !! StateKey (ai_state_key (Lobby.board lb))) ∧
           m ∈ find_legal_moves (Lobby.board lb) (Lobby.turn_index lb) ∧
           tb !! IndexKey (m.1 * 8 * m.2) = None).
Proof.
  intros Hok Hbot Hreached.
  destruct (tick_lobby_due delay_after reached gt eqv table entropy ts s key
              lb t Hok Hbot Hreached)
    as [(x & y & lb' & pos & Hlegal & Htick & Hboard & Hok' & _ & Hcpu)|Hraise].
  - left. exists x, y, lb', pos. split; [exact Hlegal|]. split; [exact Htick|].
    split; [exact Hboard|]. split; [exact Hok'|exact Hcpu].
  - right. exact Hraise.
Qed.

Lemma tick_lobby_bot_moves_witness :
  ∃ s',
    tick_lobby (λ ts d, ts + d) Z.geb Z.gtb Z.eqb None (λ _, 0) 10
      (mkServer {[42 := cpu_lobby 1]} [] 0) 42 (cpu_lobby 1) (Some 5)
    = (s', None, Ok ()).
Proof.
  destruct (tick_lobby_bot_moves (λ ts d, ts + d) Z.geb Z.gtb Z.eqb None
              (λ _, 0) 10 (mkServer {[42 := cpu_lobby 1]} [] 0) 42
              (cpu_lobby 1) 5)
    as [(x & y & lb' & pos & _ & Htick & _)|(_ & Hai & _)].
  - apply cpu_lobby_ok. by right.
  - reflexivity.
  - reflexivity.
  - eexists. exact Htick.
  - discriminate Hai.
Defined.

Lemma tick_lobby_server_ok {Time V : Type}
    (delay_after : Time → Z → Time) (reached : Time → Time → bool)
    (gt eqv : V → V → bool) table entropy ts s key lb due :
  server_ok s → lobbies s !! key = Some lb →
  ∃ s' due' r out,
    tick_lobby delay_after reached gt eqv table entropy ts s key lb due
      = (s', due', r) ∧
    server_ok s' ∧
    (r = Ok () ∨ r = Raise KeyError) ∧
    (∀ key', key' ≠ key → lobbies s' !! key' = lobbies s !! key') ∧
    sent s' = sent s ++ out ∧ Forall is_game_state out ∧
    (∀ pid, Lobby.players lb !! Z.to_nat (Lobby.turn_index lb)
              = Some (PlayerId pid) →
            s' = s ∧ due' = due).
Proof.
  intros Hs Hlb. pose proof (Hs key lb Hlb) as Hok. pose proof Hok as [Hshape _].
  destruct (bot_to_move_shape key lb Hshape) as [[b Hb] Hseat].
  destruct b.
  - destruct (Hseat Hb) as (_ & slot & Hslot & Hbot).
    assert (∀ pid, Lobby.players lb !! Z.to_nat (Lobby.turn_index lb)
                     = Some (PlayerId pid) → False) as Hhuman.
    { intros pid Hpid. unfold py_index in Hslot.
      destruct Hshape as (_ & _ & _ & Hturn & _).
      rewrite (proj2 (Z.ltb_ge (Lobby.turn_index lb) 0)) in Hslot by lia.
      rewrite Hpid in Hslot. injection Hslot as <-. discriminate Hbot. }
    destruct due as [t|]; [destruct (reached ts t) eqn:Hreached|].
    + destruct (tick_lobby_due delay_after reached gt eqv table entropy ts s
                  key lb t Hok Hb Hreached)
        as [(x & y & lb' & pos & _ & -> & _ & Hok' & _)|(-> & _)].
      * eexists _, _, _, _. split; [reflexivity|]. cbn [lobbies sent].
        split; [intros key' lb''; cbn [lobbies]; by apply server_ok_insert|].
        split; [by left|]. split; [intros key' Hne; by apply lookup_insert_ne|].
        split; [reflexivity|]. split; [apply game_state_sends|].
        intros pid Hpid. destruct (Hhuman pid Hpid).
      * exists s, (Some t), (Raise KeyError), []. split; [reflexivity|].
        split; [exact Hs|]. split; [by right|]. split; [reflexivity|].
        split; [by rewrite app_nil_r|]. split; [constructor|].
        intros pid Hpid. destruct (Hhuman pid Hpid).
    + exists s, (Some t), (Ok ()), []. unfold tick_lobby.
      rewrite Hb, Hreached. split; [reflexivity|].
      split; [exact Hs|]. split; [by left|]. split; [reflexivity|].
      split; [by rewrite app_nil_r|]. split; [constructor|].
      intros pid Hpid. destruct (Hhuman pid Hpid).
    + eexists _, _, (Ok ()), []. unfold tick_lobby. rewrite Hb.
      split; [reflexivity|]. cbn [lobbies sent].
      split; [exact Hs|]. split; [by left|]. split; [reflexivity|].
      split; [by rewrite app_nil_r|]. split; [constructor|].
      intros pid Hpid. destruct (Hhuman pid Hpid).
  - exists s, due, (Ok ()), []. unfold tick_lobby. rewrite Hb.
    split; [reflexivity|]. split; [exact Hs|]. split; [by left|].
    split; [reflexivity|]. split; [by rewrite app_nil_r|].
    split; [constructor|]. intros pid _. split; reflexivity.
Qed.

(** X21: [_tick] keeps the lobbies well formed whatever it does with a
    lobby: it raises nothing but the KeyError of the AI's table, touches no
    other lobby, sends GAME_STATE datagrams only, and leaves server and
    pending time alone while the seat to move is a human's. *)
Theorem tick_lobby_keeps_server_ok {Time V : Type}
    (delay_after : Time → Z → Time) (reached : Time → Time → bool)
    (gt eqv : V → V → bool) table entropy ts s key lb due :
  server_ok s → lobbies s !! key = Some lb →
  ∃ s' due' r out,
    tick_lobby delay_after reached gt eqv table entropy ts s key lb due
      = (s', due', r) ∧
    server_ok s' ∧
    (r = Ok () ∨ r = Raise KeyError) ∧
    (∀ key', key' ≠ key → lobbies s' !! key' = lobbies s !! key') ∧
    sent s' = sent s ++ out ∧ Forall is_game_state out ∧
    (∀ pid, Lobby.players lb !! Z.to_nat (Lobby.turn_index lb)
              = Some (PlayerId pid) →
            s' = s ∧ due' = due).
Proof. apply tick_lobby_server_ok. Qed.

Lemma tick_lobby_keeps_server_ok_witness :
  ∃ s' due' r,
    tick_lobby (λ ts d, ts + d) Z.geb Z.gtb Z.eqb None (λ _, 0) 10
      (mkServer {[42 := cpu_lobby 1]} [] 0) 42 (cpu_lobby 1) (Some 5)
    = (s', due', r) ∧ server_ok s'.
Proof.
  destruct (tick_lobby_keeps_server_ok (λ ts d, ts + d) Z.geb Z.gtb Z.eqb None
              (λ _, 0) 10 (mkServer {[42 := cpu_lobby 1]} [] 0) 42
              (cpu_lobby 1) (Some 5))
    as (s' & due' & r & out & Htick & Hok & _).
  - apply server_ok_cpu. by right.
  - apply lookup_singleton_eq.
  - exists s', due', r. split; [exact Htick|exact Hok].
Defined.

(** ** Chat *)

Lemma deque_append_length {A} (maxlen : nat) (q : list A) (a : A) :
  length (deque_append maxlen q a) = Nat.min maxlen (S (length q)).
Proof.
  unfold deque_append. rewrite length_drop, length_app. cbn [length]. lia.
Qed.

Lemma deque_append_suffix {A} (maxlen : nat) (q : list A) (a : A) :
  deque_append maxlen q a `suffix_of` q ++ [a].
Proof. apply suffix_drop. Qed.

Lemma deque_append_last {A} (maxlen : nat) (q : list A) (a : A) :
  (0 < maxlen)%nat → last (deque_append maxlen q a) = Some a.
Proof.
  intros Hmax. unfold deque_append. rewrite length_app. cbn [length].
  rewrite drop_app_le by lia. apply last_snoc.
Qed.

Lemma lobby_ok_set_chat_history key lb h :
  lobby_ok key lb → lobby_ok key (set_chat_history lb h).
Proof. intros Hok. exact Hok. Qed.

(** X22: [add_chat] refuses, without touching the lobby, a message whose
    encoding is longer than 60000 bytes; any other message becomes the
    newest entry of the history, which keeps its order and drops its oldest
    entries beyond 50. *)
Theorem add_chat_bounded (encode : string → list Z) lb sender msg :
  (MAX_CHAT_MESSAGE_LENGTH < Z.of_nat (length (encode msg)) →
   add_chat encode lb sender msg = (lb, false)) ∧
  (Z.of_nat (length (encode msg)) ≤ MAX_CHAT_MESSAGE_LENGTH →
   ∃ lb',
     add_chat encode lb sender msg = (lb', true) ∧
     last (Lobby.chat_history lb') = Some (sender, msg) ∧
     length (Lobby.chat_history lb')
       = Nat.min 50 (S (length (Lobby.chat_history lb))) ∧
     (Lobby.chat_history lb' `suffix_of`
        Lobby.chat_history lb ++ [(sender, msg)]) ∧
     lb' = set_chat_history lb (Lobby.chat_history lb')).
Proof.
  unfold add_chat. split; intros Hlen.
  - by rewrite (proj2 (Z.gtb_lt _ _)) by lia.
  - destruct (Z.of_nat (length (encode msg)) >? MAX_CHAT_MESSAGE_LENGTH)
      eqn:Hgt; [apply Z.gtb_lt in Hgt; lia|].
    eexists. split; [reflexivity|].
    cbn [set_chat_history Lobby.chat_history].
    split; [apply deque_append_last; unfold MAX_CHAT_HISTORY; lia|].
    split; [apply deque_append_length|].
    split; [apply deque_append_suffix|reflexivity].
Qed.

Lemma be_bytes_length n v : length (be_bytes n v) = n.
Proof.
  revert v. induction n as [|n IH]; intros v; [reflexivity|].
  cbn [be_bytes]. rewrite length_app, IH. cbn [length]. lia.
Qed.

Lemma pack_Q_stamp v : 0 ≤ v < 2 ^ 64 → pack_Q v = Some (be_bytes 8 v).
Proof.
  intros Hv. unfold pack_Q.
  rewrite (proj2 (Z.leb_le 0 v)), (proj2 (Z.ltb_lt v (2 ^ 64))) by lia. done.
Qed.

Lemma pack_I_id v : 0 ≤ v < 2 ^ 32 → pack_I v = Some (be_bytes 4 v).
Proof.
  intros Hv. unfold pack_I.
  rewrite (proj2 (Z.leb_le 0 v)), (proj2 (Z.ltb_lt v (2 ^ 32))) by lia. done.
Qed.

(** The bytes of a CHAT_MESSAGE datagram of a well-formed lobby. *)
Lemma chat_payload_bytes (encode : string → list Z) now_ms key lb sender
    message :
  lobby_ok key lb → 0 ≤ now_ms < 2 ^ 64 →
  chat_payload encode now_ms lb sender message
    = Ok ([MessageType.CHAT_MESSAGE; key `div` 256; key `mod` 256;
           Z.of_nat (length (take 50 (encode sender)))]
          ++ take 50 (encode sender)
          ++ [Z.of_nat (length (take (Z.to_nat MAX_CHAT_MESSAGE_LENGTH)
                                  (encode message))) `div` 256;
              Z.of_nat (length (take (Z.to_nat MAX_CHAT_MESSAGE_LENGTH)
                                  (encode message))) `mod` 256]
          ++ take (Z.to_nat MAX_CHAT_MESSAGE_LENGTH) (encode message)
          ++ be_bytes 8 now_ms).
Proof.
  intros [(Hid & Hkey & _) _] Hnow. unfold chat_payload.
  rewrite Hid, (pack_H_short key) by lia.
  rewrite pack_B_byte by (rewrite length_take; lia).
  rewrite pack_H_short
    by (rewrite length_take; unfold MAX_CHAT_MESSAGE_LENGTH; lia).
  rewrite pack_Q_stamp by exact Hnow. reflexivity.
Qed.

Lemma lobby_id_set_of_get s player key lb :
  server_ok s →
  lobbies_get s (Player.lobby_id player) = Some (key, lb) →
  lobby_id_unset player = false ∧ lobbies s !! key = Some lb ∧ lobby_ok key lb.
Proof.
  intros Hs Hget. apply lobbies_get_Some in Hget as [Hpl Hlb].
  pose proof (Hs key lb Hlb) as Hok. split; [|by split].
  unfold lobby_id_unset. rewrite Hpl.
  destruct Hok as [(_ & Hkey & _) _]. apply Z.eqb_neq. lia.
Qed.

(** The ways [_handle_chat] ends on a well-formed server: an ERROR reply
    that leaves the lobbies alone, or the message stored in the history of
    the sender's lobby and relayed to its human seats. *)
Lemma _handle_chat_cases (decode : list Z → string)
    (encode : string → list Z) now_ms data player s :
  server_ok s → 0 ≤ now_ms < 2 ^ 64 →
  (∃ code,
     _handle_chat decode encode now_ms data player s
       = error_reply s player code ∧
     (code = ErrorCode.NOT_IN_LOBBY ∨ code = ErrorCode.LOBBY_NOT_FOUND ∨
      code = ErrorCode.BAD_REQUEST ∨ code = ErrorCode.MESSAGE_TOO_LONG)) ∨
  (∃ key lb hi lo message payload lb',
     lobbies_get s (Player.lobby_id player) = Some (key, lb) ∧
     data !! 1%nat = Some hi ∧ data !! 2%nat = Some lo ∧
     hi * 256 + lo ≤ MAX_CHAT_MESSAGE_LENGTH ∧
     3 + (hi * 256 + lo) ≤ Z.of_nat (length data) ∧
     message = decode (take (Z.to_nat (hi * 256 + lo)) (drop 3 data)) ∧
     Z.of_nat (length (encode message)) ≤ MAX_CHAT_MESSAGE_LENGTH ∧
     add_chat encode lb (Player.name player) message = (lb', true) ∧
     chat_payload encode now_ms lb' (Player.name player) message = Ok payload ∧
     _handle_chat decode encode now_ms data player s
       = (mkServer (<[key := lb']> (lobbies s))
            (sent s ++ ((payload,.) <$> human_addresses lb))
            (drawn s), Ok ())).
Proof.
  intros Hs Hnow. unfold _handle_chat.
  destruct (lobby_id_unset player) eqn:Hunset.
  { left. eexists. split; [reflexivity|]. by left. }
  destruct (lobbies_get s (Player.lobby_id player)) as [[key lb]|] eqn:Hget.
  2:{ left. eexists. split; [reflexivity|]. right. by left. }
  destruct (lobby_id_set_of_get s player key lb Hs Hget) as (_ & Hlb & Hok).
  case_bool_decide as Hshort.
  { left. eexists. split; [reflexivity|]. right. right. by left. }
  destruct (data !! 1%nat) as [hi|] eqn:Hhi;
    [|apply lookup_ge_None in Hhi; lia].
  destruct (data !! 2%nat) as [lo|] eqn:Hlo;
    [|apply lookup_ge_None in Hlo; lia].
  cbv zeta.
  destruct (hi * 256 + lo >? MAX_CHAT_MESSAGE_LENGTH) eqn:Hlong; cbn [orb].
  { left. eexists. split; [reflexivity|]. by do 3 right. }
  destruct (Z.of_nat (length data) <? 3 + (hi * 256 + lo)) eqn:Hend.
  { left. eexists. split; [reflexivity|]. by do 3 right. }
  assert (hi * 256 + lo ≤ MAX_CHAT_MESSAGE_LENGTH) as Hlong'.
  { destruct (Z.gtb_spec (hi * 256 + lo) MAX_CHAT_MESSAGE_LENGTH); [done|lia]. }
  apply Z.ltb_ge in Hend.
  replace (3 + (hi * 256 + lo) - 3) with (hi * 256 + lo) by lia.
  change (Z.to_nat 3) with 3%nat.
  set (message := decode (take (Z.to_nat (hi * 256 + lo)) (drop 3 data))).
  unfold add_chat.
  destruct (Z.of_nat (length (encode message)) >? MAX_CHAT_MESSAGE_LENGTH)
    eqn:Hgt; cbn [negb].
  { left. eexists. split; [reflexivity|]. by do 3 right. }
  right.
  assert (Z.of_nat (length (encode message)) ≤ MAX_CHAT_MESSAGE_LENGTH) as Hfit.
  { destruct (Z.gtb_spec (Z.of_nat (length (encode message)))
                MAX_CHAT_MESSAGE_LENGTH); [done|lia]. }
  set (lb' := set_chat_history lb _).
  pose proof (lobby_ok_set_chat_history key lb (Lobby.chat_history lb') Hok)
    as Hok'.
  change (set_chat_history lb (Lobby.chat_history lb')) with lb' in Hok'.
  pose proof (chat_payload_bytes encode now_ms key lb' (Player.name player)
                message Hok' Hnow) as Hpayload.
  eexists key, lb, hi, lo, message, _, lb'.
  split; [reflexivity|]. split; [reflexivity|]. split; [reflexivity|].
  split; [exact Hlong'|]. split; [exact Hend|]. split; [reflexivity|].
  split; [exact Hfit|]. split; [by rewrite Hgt|]. split; [exact Hpayload|].
  unfold _broadcast_chat. rewrite Hpayload.
  cbn [set_lobbies lobbies sent drawn]. rewrite broadcast_humans.
  reflexivity.
Qed.

(** X23: a CHAT request of a player whose lobby id names a stored lobby,
    with a text that lies within the datagram and within 60000 bytes, is
    stored as the newest entry of that lobby's history and relayed, in one
    CHAT_MESSAGE datagram each, to the human seats of the lobby: the tag,
    the lobby id in two bytes, the length and the first 50 bytes of the
    sender's name, the length of the text in two bytes, the text, and the
    time in eight bytes.  The sender need not be seated in the lobby. *)
Theorem chat_is_relayed (decode : list Z → string) (encode : string → list Z)
    now_ms data player s key lb hi lo message :
  server_ok s → 0 ≤ now_ms < 2 ^ 64 →
  lobbies_get s (Player.lobby_id player) = Some (key, lb) →
  data !! 1%nat = Some hi → data !! 2%nat = Some lo →
  hi * 256 + lo ≤ MAX_CHAT_MESSAGE_LENGTH →
  3 + (hi * 256 + lo) ≤ Z.of_nat (length data) →
  message = decode (take (Z.to_nat (hi * 256 + lo)) (drop 3 data)) →
  Z.of_nat (length (encode message)) ≤ MAX_CHAT_MESSAGE_LENGTH →
  _handle_chat decode encode now_ms data player s
    = (mkServer
         (<[key := set_chat_history lb
                     (deque_append MAX_CHAT_HISTORY (Lobby.chat_history lb)
                        (Player.name player, message))]> (lobbies s))
         (sent s ++
          ((([MessageType.CHAT_MESSAGE; key `div` 256; key `mod` 256;
              Z.of_nat (length (take 50 (encode (Player.name player))))]
             ++ take 50 (encode (Player.name player))
             ++ [Z.of_nat (length (encode message)) `div` 256;
                 Z.of_nat (length (encode message)) `mod` 256]
             ++ encode message ++ be_bytes 8 now_ms),.)
             <$> human_addresses lb))
         (drawn s), Ok ()).
Proof.
  intros Hs Hnow Hget Hhi Hlo Hlong Hend -> Hfit.
  destruct (lobby_id_set_of_get s player key lb Hs Hget) as (Hunset & _ & Hok).
  unfold _handle_chat. rewrite Hunset, Hget.
  rewrite bool_decide_eq_false_2 by (apply lookup_lt_Some in Hlo; lia).
  rewrite Hhi, Hlo. cbv zeta.
  destruct (hi * 256 + lo >? MAX_CHAT_MESSAGE_LENGTH) eqn:Hgt1;
    [apply Z.gtb_lt in Hgt1; lia|].
  destruct (Z.of_nat (length data) <? 3 + (hi * 256 + lo)) eqn:Hlt;
    [apply Z.ltb_lt in Hlt; lia|].
  cbn [orb].
  replace (3 + (hi * 256 + lo) - 3) with (hi * 256 + lo) by lia.
  change (Z.to_nat 3) with 3%nat.
  unfold add_chat.
  destruct (Z.of_nat (length (encode _)) >? MAX_CHAT_MESSAGE_LENGTH) eqn:Hgt2;
    [apply Z.gtb_lt in Hgt2; lia|].
  cbn [negb]. unfold _broadcast_chat.
  rewrite (chat_payload_bytes encode now_ms key)
    by (by apply lobby_ok_set_chat_history || exact Hnow).
  cbn [set_lobbies lobbies sent drawn]. rewrite broadcast_humans.
  rewrite (take_ge (encode _) (Z.to_nat MAX_CHAT_MESSAGE_LENGTH)) by lia.
  reflexivity.
Qed.

(** ** The server as a whole *)

Lemma lobby_step_refl lb : lobby_step lb lb.
Proof.
  split; [reflexivity|]. split; [reflexivity|]. split; [reflexivity|by left].
Qed.

Lemma lobby_waits_step lb lb' :
  lobby_waits lb → lobby_step lb lb' → lobby_waits lb'.
Proof.
  intros Hwaits (Hmode & Hstarted & Hlen & Hstatus) Hcpu Hai.
  rewrite Hmode in Hcpu, Hai. destruct (Hwaits Hcpu Hai) as (Hs & Hst & Hl).
  split; [|split; [by rewrite Hstarted|lia]].
  destruct Hstatus as [-> | Hplaying]; [exact Hs|].
  rewrite Hs in Hplaying. discriminate Hplaying.
Qed.

Lemma lobbies_step_same s s' :
  server_ok s → lobbies s' = lobbies s → lobbies_step s s'.
Proof.
  intros Hs Heq key lb' Hlb'. rewrite Heq in Hlb'.
  split; [by apply Hs|]. left. exists lb'. split; [exact Hlb'|].
  apply lobby_step_refl.
Qed.

Lemma lobbies_step_insert s s' key lb lb' :
  server_ok s → lobbies s !! key = Some lb → lobby_ok key lb' →
  lobby_step lb lb' → lobbies s' = <[key := lb']> (lobbies s) →
  lobbies_step s s'.
Proof.
  intros Hs Hlb Hok Hstep Heq key' lb'' Hlb''. rewrite Heq in Hlb''.
  destruct (decide (key = key')) as [<-|Hne].
  - rewrite lookup_insert_eq in Hlb''. injection Hlb'' as <-.
    split; [exact Hok|]. left. by exists lb.
  - rewrite lookup_insert_ne in Hlb'' by exact Hne.
    split; [by apply Hs|]. left. exists lb''. split; [exact Hlb''|].
    apply lobby_step_refl.
Qed.

Lemma lobbies_step_new s s' key lb' :
  server_ok s → lobbies s !! key = None → lobby_ok key lb' →
  lobby_waits lb' → lobbies s' = <[key := lb']> (lobbies s) →
  lobbies_step s s'.
Proof.
  intros Hs Hfree Hok Hwaits Heq key' lb'' Hlb''. rewrite Heq in Hlb''.
  destruct (decide (key = key')) as [<-|Hne].
  - rewrite lookup_insert_eq in Hlb''. injection Hlb'' as <-.
    split; [exact Hok|]. right. by split.
  - rewrite lookup_insert_ne in Hlb'' by exact Hne.
    split; [by apply Hs|]. left. exists lb''. split; [exact Hlb''|].
    apply lobby_step_refl.
Qed.

Lemma lobbies_step_delete s s' key :
  server_ok s → lobbies s' = delete key (lobbies s) → lobbies_step s s'.
Proof.
  intros Hs Heq key' lb' Hlb'. rewrite Heq in Hlb'.
  apply lookup_delete_Some in Hlb' as [_ Hlb'].
  split; [by apply Hs|]. left. exists lb'. split; [exact Hlb'|].
  apply lobby_step_refl.
Qed.

Lemma lobbies_step_proper s1 s1' s2 s2' :
  lobbies s2 = lobbies s1 → lobbies s2' = lobbies s1' →
  lobbies_step s1 s1' → lobbies_step s2 s2'.
Proof.
  intros H1 H2 Hstep key lb'. rewrite H1, H2. apply Hstep.
Qed.

Lemma lobbies_step_server_ok s s' : lobbies_step s s' → server_ok s'.
Proof. intros Hstep key lb' Hlb'. by destruct (Hstep key lb' Hlb'). Qed.

Lemma lobbies_step_humans_wait s s' :
  humans_wait s → lobbies_step s s' → humans_wait s'.
Proof.
  intros Hwait Hstep key lb' Hlb'.
  destruct (Hstep key lb' Hlb') as [_ [(lb & Hlb & Hlstep)|[_ Hnew]]];
    [|exact Hnew].
  eapply lobby_waits_step; [|exact Hlstep]. by eapply Hwait.
Qed.

Lemma _handle_place_step data player s :
  server_ok s → lobbies_step s (_handle_place data player s).1.
Proof.
  intros Hs.
  destruct (_handle_place_cases data player s)
    as [[code ->]|[[-> Hlen]|(key & lb & x & y & Hacc)]].
  - by apply lobbies_step_same.
  - by apply lobbies_step_same.
  - rewrite (_handle_place_accepted _ _ _ _ _ _ _ Hacc).
    destruct Hacc as (Hget & Hstatus & _ & _ & _ & _ & Hlegal).
    apply lobbies_get_Some in Hget as [_ Hlb].
    destruct (send_state_after_move s key lb x y (Hs key lb Hlb) Hstatus Hlegal)
      as (lb' & -> & Hok' & _ & Hstep).
    by apply (lobbies_step_insert s _ key lb lb').
Qed.

Lemma _handle_leave_step player s :
  server_ok s →
  lobbies_step s (_handle_leave player s).1.1 ∧
  ∃ v, (_handle_leave player s).1.2 = Player.set_lobby_id player v.
Proof.
  intros Hs.
  destruct (_handle_leave_outcome player s Hs)
    as [(_ & p' & Heq & _)|
        (k & lb & lb' & Hpl & Hlb & Hok & _ & _ & Hstep & ->)].
  - split; [rewrite Heq; by apply lobbies_step_same|].
    revert Heq. unfold _handle_leave.
    destruct (lobby_id_unset player).
    { intros [= <-]. exists (Player.lobby_id player). by destruct player. }
    destruct (lobbies_get s (Player.lobby_id player)) as [[key lb]|];
      [|by exists None].
    unfold leave_finish.
    destruct (players_index _ _); repeat case_bool_decide;
      repeat (destruct (_ !! _)); cbn [fst snd];
      try (by exists None);
      exists (Player.lobby_id player); by destruct player.
  - cbn [fst snd]. split; [|by exists None].
    case_bool_decide as Hempty.
    + by apply (lobbies_step_delete s _ k).
    + by apply (lobbies_step_insert s _ k lb lb').
Qed.

Lemma set_lobby_id_id player :
  Player.set_lobby_id player (Player.lobby_id player) = player.
Proof. by destruct player. Qed.

Lemma _handle_create_lobby_step fuel entropy data player s :
  server_ok s →
  match _handle_create_lobby fuel entropy data player s with
  | Some (s', p', r) =>
      lobbies_step s s' ∧ ∃ v, p' = Player.set_lobby_id player v
  | None =>
      is_Some (data !! 1%nat) ∧
      generate_lobby_id fuel entropy (drawn s) (lobbies s) = None
  end.
Proof.
  intros Hs. destruct (data !! 1%nat) as [mode|] eqn:Hmode.
  2:{ unfold _handle_create_lobby. rewrite Hmode.
      split; [by apply lobbies_step_same|].
      exists (Player.lobby_id player). by rewrite set_lobby_id_id. }
  destruct (generate_lobby_id fuel entropy (drawn s) (lobbies s))
    as [[id pos]|] eqn:Hgen.
  2:{ unfold _handle_create_lobby. rewrite Hmode, Hgen. by split; [eexists|]. }
  destruct (generate_lobby_id_sound _ _ _ _ _ _ Hgen) as (_ & Hfree & _).
  destruct (decide (mode = GameMode.PLAYER_VS_CPU ∨ mode = GameMode.PLAYER_VS_AI))
    as [Hbot|Hnot].
  - destruct (_handle_create_lobby_bot fuel entropy data player s mode id pos
                Hmode Hbot Hgen) as (lb' & Hlb' & Hok & ->).
    split; [|by eexists].
    apply (lobbies_step_new s _ id lb'); [exact Hs|exact Hfree|exact Hok| |done].
    intros Hcpu Hai. subst lb'. cbn [Lobby.mode] in Hcpu, Hai.
    by destruct Hbot.
  - destruct (_handle_create_lobby_waiting fuel entropy data player s mode
                id pos Hmode ltac:(tauto) ltac:(tauto) Hgen)
      as (lb' & Hlb' & Hok & ->).
    split; [|by eexists].
    apply (lobbies_step_new s _ id lb'); [exact Hs|exact Hfree|exact Hok| |done].
    intros _ _. subst lb'. cbn [Lobby.status Lobby.started Lobby.players length].
    split; [reflexivity|]. split; [reflexivity|lia].
Qed.

Lemma lobby_step_set_chat_history lb h : lobby_step lb (set_chat_history lb h).
Proof.
  split; [reflexivity|]. split; [reflexivity|]. split; [reflexivity|by left].
Qed.

(** Whatever its time stamp, [_handle_chat] touches nothing of the lobbies
    but the history of the sender's lobby. *)
Lemma _handle_chat_step (decode : list Z → string) (encode : string → list Z)
    now_ms data player s :
  server_ok s →
  lobbies_step s (_handle_chat decode encode now_ms data player s).1.
Proof.
  intros Hs. unfold _handle_chat.
  destruct (lobby_id_unset player); [by apply lobbies_step_same|].
  destruct (lobbies_get s (Player.lobby_id player)) as [[key lb]|] eqn:Hget;
    [|by apply lobbies_step_same].
  destruct (lobby_id_set_of_get s player key lb Hs Hget) as (_ & Hlb & Hok).
  case_bool_decide; [by apply lobbies_step_same|].
  destruct (data !! 1%nat) as [hi|]; [|by apply lobbies_step_same].
  destruct (data !! 2%nat) as [lo|]; [|by apply lobbies_step_same].
  cbv zeta. destruct (_ || _); [by apply lobbies_step_same|].
  unfold add_chat. destruct (_ >? _); cbn [negb];
    [by apply lobbies_step_same|].
  unfold _broadcast_chat.
  destruct (chat_payload _ _ _ _ _); cbn [fst];
    (eapply (lobbies_step_insert s _ key lb);
       [exact Hs|exact Hlb| | |reflexivity]);
    try (by apply lobby_ok_set_chat_history);
    apply lobby_step_set_chat_history.
Qed.

Lemma _handle_hello_step (decode : list Z → string)
    (encode : string → list Z) data player s :
  lobbies (_handle_hello decode encode data player s).1.1 = lobbies s ∧
  Player.address (_handle_hello decode encode data player s).1.2
    = Player.address player ∧
  Player.player_id (_handle_hello decode encode data player s).1.2
    = Player.player_id player.
Proof.
  unfold _handle_hello. destruct (data !! 1%nat) as [name_len|]; [|done].
  cbv zeta. destruct (pack_I _); [|done]. by destruct (pack_B _).
Qed.

Lemma tick_lobby_step {Time V : Type} (delay_after : Time → Z → Time)
    (reached : Time → Time → bool) (gt eqv : V → V → bool)
    table entropy ts s key lb due :
  server_ok s → lobbies s !! key = Some lb →
  lobbies_step s
    (tick_lobby delay_after reached gt eqv table entropy ts s key lb due).1.1.
Proof.
  intros Hs Hlb. pose proof (Hs key lb Hlb) as Hok.
  destruct (bot_to_move_shape key lb (proj1 Hok)) as [[b Hb] _].
  destruct b.
  - destruct due as [t|]; [destruct (reached ts t) eqn:Hreached|].
    + destruct (tick_lobby_due delay_after reached gt eqv table entropy ts s
                  key lb t Hok Hb Hreached)
        as [(x & y & lb' & pos & _ & -> & _ & Hok' & Hstep & _)|(-> & _)].
      * by apply (lobbies_step_insert s _ key lb lb').
      * by apply lobbies_step_same.
    + unfold tick_lobby. rewrite Hb, Hreached. by apply lobbies_step_same.
    + unfold tick_lobby. rewrite Hb. by apply lobbies_step_same.
  - unfold tick_lobby. rewrite Hb. by apply lobbies_step_same.
Qed.

Lemma generate_player_id_range entropy pos :
  1 ≤ generate_player_id entropy pos < 2 ^ 31 - 1.
Proof.
  unfold generate_player_id.
  pose proof (randrange_range entropy pos 1 (2 ^ 31 - 1) ltac:(lia)). lia.
Qed.

(** [_get_or_create_player] answers with the player object registered
    under the address, registering one first when there is none. *)
Lemma _get_or_create_player_ok {Time : Type} entropy (ts : Time) addr w :
  world_ok w →
  world_ok (_get_or_create_player entropy ts addr w).1 ∧
  lobbies (server (_get_or_create_player entropy ts addr w).1)
    = lobbies (server w) ∧
  sent (server (_get_or_create_player entropy ts addr w).1) = sent (server w) ∧
  players_by_address (_get_or_create_player entropy ts addr w).1 !! addr
    = Some (_get_or_create_player entropy ts addr w).2 ∧
  Player.address (_get_or_create_player entropy ts addr w).2 = addr ∧
  1 ≤ Player.player_id (_get_or_create_player entropy ts addr w).2 < 2 ^ 31 - 1.
Proof.
  intros [Hs Hreg]. unfold _get_or_create_player, refresh.
  destruct (players_by_address w !! addr) as [p|] eqn:Hp; cbn [fst snd].
  - destruct (Hreg addr p Hp) as [Haddr Hid].
    split; [by split|]. split; [reflexivity|]. split; [reflexivity|].
    split; [exact Hp|]. split; [exact Haddr|exact Hid].
  - cbn [server lobbies sent players_by_address Player.address
         Player.player_id].
    split; [|split; [reflexivity|]; split; [reflexivity|];
             split; [apply lookup_insert_eq|];
             split; [reflexivity|apply generate_player_id_range]].
    split; [exact Hs|]. intros addr' p'. cbn [players_by_address].
    destruct (decide (addr = addr')) as [<-|Hne].
    + rewrite lookup_insert_eq. intros [= <-].
      split; [reflexivity|apply generate_player_id_range].
    + rewrite lookup_insert_ne by exact Hne. apply Hreg.
Qed.

Lemma packet_finish {Time : Type} (w w1 : World Time) addr p s' p'
    (r : Result unit) :
  world_ok w1 → lobbies (server w1) = lobbies (server w) →
  Player.address p = addr → 1 ≤ Player.player_id p < 2 ^ 31 - 1 →
  lobbies_step (server w1) s' →
  Player.address p' = Player.address p →
  Player.player_id p' = Player.player_id p →
  world_ok
    (mkWorld
       match r with
       | Ok _ => s'
       | Raise _ => _send_error s' addr ErrorCode.BAD_REQUEST
       end
       (<[addr := p']> (players_by_address w1)) (players_by_id w1)
       (last_active w1)) ∧
  lobbies_step (server w)
    match r with
    | Ok _ => s'
    | Raise _ => _send_error s' addr ErrorCode.BAD_REQUEST
    end.
Proof.
  intros [Hs1 Hreg] Hlobbies Haddr Hid Hstep Haddr' Hid'.
  assert (lobbies match r with
                  | Ok _ => s'
                  | Raise _ => _send_error s' addr ErrorCode.BAD_REQUEST
                  end = lobbies s') as Hsame by (by destruct r).
  assert (lobbies_step (server w)
            match r with
            | Ok _ => s'
            | Raise _ => _send_error s' addr ErrorCode.BAD_REQUEST
            end) as Hstep'.
  { by apply (lobbies_step_proper (server w1) s'). }
  split; [|exact Hstep']. split.
  - cbn [server]. by apply (lobbies_step_server_ok (server w)).
  - intros addr' q. cbn [players_by_address].
    destruct (decide (addr = addr')) as [<-|Hne].
    + rewrite lookup_insert_eq. intros [= <-].
      rewrite Haddr', Hid'. by split.
    + rewrite lookup_insert_ne by exact Hne. apply Hreg.
Qed.

(** One datagram: the registry and the lobbies stay well formed, and the
    lobbies make a step; no answer comes only while [generate_lobby_id]
    has not returned. *)
Lemma _handle_packet_step {Time : Type} (decode : list Z → string)
    (encode : string → list Z) fuel entropy now_ms (ts : Time) data addr w :
  world_ok w →
  match _handle_packet decode encode fuel entropy now_ms ts data addr w with
  | Some w' => world_ok w' ∧ lobbies_step (server w) (server w')
  | None =>
      head data = Some MessageType.CREATE_LOBBY ∧
      generate_lobby_id fuel entropy
        (drawn (server (_get_or_create_player entropy ts addr w).1))
        (lobbies (server w)) = None
  end.
Proof.
  intros Hw. destruct data as [|msg rest].
  { split; [exact Hw|]. apply lobbies_step_same; [apply Hw|reflexivity]. }
  unfold _handle_packet.
  destruct (_get_or_create_player_ok entropy ts addr w Hw)
    as (Hw1 & Hlobbies & _ & _ & Haddr & Hid).
  destruct (_get_or_create_player entropy ts addr w) as [w1 p].
  cbn [fst snd] in Hw1, Hlobbies, Haddr, Hid |- *.
  pose proof (proj1 Hw1) as Hs1.
  destruct (msg =? MessageType.HELLO) eqn:Hhello.
  { destruct (_handle_hello_step decode encode (msg :: rest) p (server w1))
      as (Hl & Ha & Hi).
    destruct (_handle_hello decode encode (msg :: rest) p (server w1))
      as [[s' p'] r].
    cbn [fst snd] in Hl, Ha, Hi.
    apply (packet_finish w w1 addr p); try done.
    by apply lobbies_step_same. }
  destruct (msg =? MessageType.CREATE_LOBBY) eqn:Hcreate.
  { pose proof (_handle_create_lobby_step fuel entropy (msg :: rest) p
                  (server w1) Hs1) as Hstep.
    destruct (_handle_create_lobby fuel entropy (msg :: rest) p (server w1))
      as [[[s' p'] r]|].
    - destruct Hstep as [Hstep [v ->]].
      by apply (packet_finish w w1 addr p).
    - destruct Hstep as [_ Hgen]. apply Z.eqb_eq in Hcreate as ->.
      split; [reflexivity|]. by rewrite <- Hlobbies. }
  destruct (msg =? MessageType.PLACE) eqn:Hplace.
  { pose proof (_handle_place_step (msg :: rest) p (server w1) Hs1) as Hstep.
    destruct (_handle_place (msg :: rest) p (server w1)) as [s' r].
    by apply (packet_finish w w1 addr p). }
  destruct (msg =? MessageType.CHAT) eqn:Hchat.
  { pose proof (_handle_chat_step decode encode now_ms (msg :: rest) p
                  (server w1) Hs1) as Hstep.
    destruct (_handle_chat decode encode now_ms (msg :: rest) p (server w1))
      as [s' r].
    by apply (packet_finish w w1 addr p). }
  destruct (msg =? MessageType.LEAVE) eqn:Hleave.
  { destruct (_handle_leave_step p (server w1) Hs1) as [Hstep [v Hp']].
    destruct (_handle_leave p (server w1)) as [[s' p'] r].
    cbn [fst snd] in Hstep, Hp'. subst p'.
    by apply (packet_finish w w1 addr p). }
  apply (packet_finish w w1 addr p _ p (Ok ())); try done.
  by apply lobbies_step_same.
Qed.

(** X24: [_handle_chat] answers with the error of the first check that
    fails, in the order player's lobby id, stored lobby, three bytes of
    header, declared length within 60000 and within the datagram, length of
    the encoded text; in each of these cases the ERROR datagram to the
    sender is all that happens. *)
Theorem chat_errors (decode : list Z → string) (encode : string → list Z)
    now_ms data player s :
  (∀ code, lobbies (error_reply s player code).1 = lobbies s ∧
           sent (error_reply s player code).1 =
             sent s ++ [([MessageType.ERROR; code], Player.address player)]) ∧
  (lobby_id_unset player = true →
   _handle_chat decode encode now_ms data player s
     = error_reply s player ErrorCode.NOT_IN_LOBBY) ∧
  (lobby_id_unset player = false →
   lobbies_get s (Player.lobby_id player) = None →
   _handle_chat decode encode now_ms data player s
     = error_reply s player ErrorCode.LOBBY_NOT_FOUND) ∧
  (∀ key lb,
     lobby_id_unset player = false →
     lobbies_get s (Player.lobby_id player) = Some (key, lb) →
     ((length data < 3)%nat →
      _handle_chat decode encode now_ms data player s
        = error_reply s player ErrorCode.BAD_REQUEST) ∧
     (∀ hi lo,
        data !! 1%nat = Some hi → data !! 2%nat = Some lo →
        (MAX_CHAT_MESSAGE_LENGTH < hi * 256 + lo ∨
         Z.of_nat (length data) < 3 + (hi * 256 + lo) →
         _handle_chat decode encode now_ms data player s
           = error_reply s player ErrorCode.MESSAGE_TOO_LONG) ∧
        (hi * 256 + lo ≤ MAX_CHAT_MESSAGE_LENGTH →
         3 + (hi * 256 + lo) ≤ Z.of_nat (length data) →
         MAX_CHAT_MESSAGE_LENGTH <
           Z.of_nat (length (encode (decode (take (Z.to_nat (hi * 256 + lo))
                                               (drop 3 data))))) →
         _handle_chat decode encode now_ms data player s
           = error_reply s player ErrorCode.MESSAGE_TOO_LONG))).
Proof.
  split; [intros code; split; reflexivity|]. unfold _handle_chat.
  split; [by intros ->|]. split; [by intros -> ->|].
  intros key lb -> ->. split.
  { intros Hshort. by rewrite bool_decide_eq_true_2. }
  intros hi lo Hhi Hlo.
  rewrite bool_decide_eq_false_2 by (apply lookup_lt_Some in Hlo; lia).
  rewrite Hhi, Hlo. cbv zeta. split.
  - intros Hlong.
    destruct (hi * 256 + lo >? MAX_CHAT_MESSAGE_LENGTH) eqn:Hgt;
      [reflexivity|].
    destruct (Z.of_nat (length data) <? 3 + (hi * 256 + lo)) eqn:Hlt;
      [reflexivity|].
    apply Z.ltb_ge in Hlt.
    destruct (Z.gtb_spec (hi * 256 + lo) MAX_CHAT_MESSAGE_LENGTH);
      [discriminate Hgt|lia].
  - intros Hfit Hend Hlong.
    destruct (hi * 256 + lo >? MAX_CHAT_MESSAGE_LENGTH) eqn:Hgt;
      [reflexivity|].
    destruct (Z.of_nat (length data) <? 3 + (hi * 256 + lo)) eqn:Hlt;
      [reflexivity|].
    cbn [orb].
    replace (3 + (hi * 256 + lo) - 3) with (hi * 256 + lo) by lia.
    change (Z.to_nat 3) with 3%nat. unfold add_chat.
    by rewrite (proj2 (Z.gtb_lt _ _)) by lia.
Qed.

Lemma chat_errors_witness :
  _handle_chat (λ _, "hi") (λ _, [104; 105]) 1000
    [MessageType.CHAT; 0; 2; 104; 105] alice
    (mkServer {[42 := cpu_lobby 0]} [] 0)
  = error_reply (mkServer {[42 := cpu_lobby 0]} [] 0) alice
      ErrorCode.NOT_IN_LOBBY.
Proof.
  apply (chat_errors (λ _, "hi") (λ _, [104; 105]) 1000
           [MessageType.CHAT; 0; 2; 104; 105] alice
           (mkServer {[42 := cpu_lobby 0]} [] 0)).
  reflexivity.
Defined.

Lemma chat_is_relayed_witness :
  (_handle_chat (λ _, "hi") (λ _, [104; 105]) 1000
     [MessageType.CHAT; 0; 2; 104; 105]
     (Player.set_lobby_id alice (Some 42))
     (mkServer {[42 := cpu_lobby 0]} [] 0)).2 = Ok ().
Proof.
  rewrite (chat_is_relayed (λ _, "hi") (λ _, [104; 105]) 1000
             [MessageType.CHAT; 0; 2; 104; 105]
             (Player.set_lobby_id alice (Some 42))
             (mkServer {[42 := cpu_lobby 0]} [] 0) 42 (cpu_lobby 0) 0 2 "hi").
  - reflexivity.
  - apply server_ok_cpu. by left.
  - lia.
  - by vm_compute.
  - reflexivity.
  - reflexivity.
  - unfold MAX_CHAT_MESSAGE_LENGTH. lia.
  - cbn [length]. lia.
  - reflexivity.
  - unfold MAX_CHAT_MESSAGE_LENGTH. cbn [length]. lia.
Defined.

Lemma _get_or_create_player_server {Time : Type} entropy (ts : Time) addr w :
  lobbies (server (_get_or_create_player entropy ts addr w).1)
    = lobbies (server w) ∧
  sent (server (_get_or_create_player entropy ts addr w).1) = sent (server w).
Proof.
  unfold _get_or_create_player, refresh.
  by destruct (players_by_address w !! addr).
Qed.

(** X25: a datagram whose first byte is none of HELLO, CREATE_LOBBY, PLACE,
    CHAT and LEAVE, so also LIST_LOBBIES, JOIN_LOBBY, PING and INSPECT, is
    answered with the ERROR datagram of UNKNOWN_MESSAGE_TYPE and nothing
    else: the lobbies stay as they were. *)
Theorem unknown_message_type {Time : Type} (decode : list Z → string)
    (encode : string → list Z) fuel entropy now_ms (ts : Time) msg rest addr
    w :
  msg ≠ MessageType.HELLO → msg ≠ MessageType.CREATE_LOBBY →
  msg ≠ MessageType.PLACE → msg ≠ MessageType.CHAT →
  msg ≠ MessageType.LEAVE →
  ∃ w',
    _handle_packet decode encode fuel entropy now_ms ts (msg :: rest) addr w
      = Some w' ∧
    lobbies (server w') = lobbies (server w) ∧
    sent (server w') =
      sent (server w)
      ++ [([MessageType.ERROR; ErrorCode.UNKNOWN_MESSAGE_TYPE], addr)].
Proof.
  intros Hhello Hcreate Hplace Hchat Hleave. unfold _handle_packet.
  destruct (_get_or_create_player_server entropy ts addr w) as [Hlobbies Hsent].
  destruct (_get_or_create_player entropy ts addr w) as [w1 p].
  cbn [fst snd] in Hlobbies, Hsent.
  rewrite (proj2 (Z.eqb_neq _ _) Hhello), (proj2 (Z.eqb_neq _ _) Hcreate),
    (proj2 (Z.eqb_neq _ _) Hplace), (proj2 (Z.eqb_neq _ _) Hchat),
    (proj2 (Z.eqb_neq _ _) Hleave).
  eexists. split; [reflexivity|]. cbn [server _send_error sendto lobbies sent].
  by rewrite Hlobbies, Hsent.
Qed.

Lemma unknown_message_type_witness :
  ∃ w',
    _handle_packet (λ _, "hi") (λ _, [104; 105]) 1 (λ _, 41) 1000 5
      [MessageType.JOIN_LOBBY; 0; 42] ("10.0.0.2", 4001) new_world = Some w' ∧
    sent (server w') =
      [([MessageType.ERROR; ErrorCode.UNKNOWN_MESSAGE_TYPE],
        ("10.0.0.2", 4001))].
Proof.
  destruct (unknown_message_type (λ _, "hi") (λ _, [104; 105]) 1 (λ _, 41)
              1000 5 MessageType.JOIN_LOBBY [0; 42] ("10.0.0.2", 4001)
              new_world)
    as (w' & Hpacket & _ & Hsent); try discriminate.
  exists w'. split; [exact Hpacket|exact Hsent].
Defined.

(** X26: a request that makes its handler raise is answered with the ERROR
    datagram of BAD_REQUEST: so a HELLO without the length byte of the name
    and a CREATE_LOBBY without the mode byte, which change no lobby and draw
    no lobby id. *)
Theorem short_request_is_bad_request {Time : Type}
    (decode : list Z → string) (encode : string → list Z) fuel entropy now_ms
    (ts : Time) msg addr w :
  msg = MessageType.HELLO ∨ msg = MessageType.CREATE_LOBBY →
  ∃ w',
    _handle_packet decode encode fuel entropy now_ms ts [msg] addr w = Some w' ∧
    lobbies (server w') = lobbies (server w) ∧
    sent (server w') =
      sent (server w) ++ [([MessageType.ERROR; ErrorCode.BAD_REQUEST], addr)].
Proof.
  intros Hmsg. unfold _handle_packet.
  destruct (_get_or_create_player_server entropy ts addr w) as [Hlobbies Hsent].
  destruct (_get_or_create_player entropy ts addr w) as [w1 p].
  cbn [fst snd] in Hlobbies, Hsent.
  destruct Hmsg as [-> | ->].
  - eexists. split; [reflexivity|].
    cbn [server _send_error sendto lobbies sent]. by rewrite Hlobbies, Hsent.
  - eexists. split; [reflexivity|].
    cbn [server _send_error sendto lobbies sent]. by rewrite Hlobbies, Hsent.
Qed.

Lemma short_request_is_bad_request_witness :
  ∃ w',
    _handle_packet (λ _, "hi") (λ _, [104; 105]) 1 (λ _, 41) 1000 5
      [MessageType.CREATE_LOBBY] ("10.0.0.2", 4001) new_world = Some w' ∧
    lobbies (server w') = ∅.
Proof.
  destruct (short_request_is_bad_request (λ _, "hi") (λ _, [104; 105]) 1
              (λ _, 41) 1000 5 MessageType.CREATE_LOBBY ("10.0.0.2", 4001)
              new_world)
    as (w' & Hpacket & Hlobbies & _); [by right|].
  exists w'. split; [exact Hpacket|exact Hlobbies].
Defined.

Lemma world_ok_new {Time : Type} : world_ok (@new_world Time).
Proof.
  split.
  - intros key lb Hlb. cbn [new_world server lobbies] in Hlb.
    by rewrite lookup_empty in Hlb.
  - intros addr p Hp. cbn [new_world players_by_address] in Hp.
    by rewrite lookup_empty in Hp.
Qed.

(** X27: handling a datagram keeps the server well formed: every stored
    lobby stays well formed and in step with its last broadcast, and every
    registered player object stays under its own address with an id of the
    range of [generate_player_id].  The handler gives no result only while
    a CREATE_LOBBY request has not drawn a free lobby id. *)
Theorem _handle_packet_keeps_world_ok {Time : Type}
    (decode : list Z → string) (encode : string → list Z) fuel entropy now_ms
    (ts : Time) data addr w :
  world_ok w →
  (∃ w',
     _handle_packet decode encode fuel entropy now_ms ts data addr w = Some w' ∧
     world_ok w') ∨
  (_handle_packet decode encode fuel entropy now_ms ts data addr w = None ∧
   head data = Some MessageType.CREATE_LOBBY ∧
   generate_lobby_id fuel entropy
     (drawn (server (_get_or_create_player entropy ts addr w).1))
     (lobbies (server w)) = None).
Proof.
  intros Hw.
  pose proof (_handle_packet_step decode encode fuel entropy now_ms ts data addr
                w Hw) as Hstep.
  destruct (_handle_packet decode encode fuel entropy now_ms ts data addr w)
    as [w'|].
  - left. exists w'. split; [reflexivity|]. by destruct Hstep.
  - right. destruct Hstep as [Hhead Hgen]. by repeat split.
Qed.

Lemma _handle_packet_keeps_world_ok_witness :
  ∃ w',
    _handle_packet (λ _, "hi") (λ _, [104; 105]) 1 (λ _, 41) 1000 5
      [MessageType.CREATE_LOBBY; GameMode.PLAYER_VS_CPU] ("10.0.0.2", 4001)
      new_world = Some w' ∧
    world_ok w'.
Proof.
  destruct (_handle_packet_keeps_world_ok (λ _, "hi") (λ _, [104; 105]) 1
              (λ _, 41) 1000 5
              [MessageType.CREATE_LOBBY; GameMode.PLAYER_VS_CPU]
              ("10.0.0.2", 4001) new_world world_ok_new)
    as [(w' & Hpacket & Hok)|(Hnone & _)].
  - exists w'. split; [exact Hpacket|exact Hok].
  - vm_compute in Hnone. discriminate Hnone.
Defined.

(** Every step of the two loops keeps the server well formed and the
    lobbies without a bot waiting. *)
Lemma run_event_inv {Time V : Type} (delay_after : Time → Z → Time)
    (reached : Time → Time → bool) (gt eqv : V → V → bool)
    (table : option (gmap QKey V)) (decode : list Z → string)
    (encode : string → list Z) fuel entropy (e : Event Time) w w' :
  world_ok w → humans_wait (server w) →
  run_event delay_after reached gt eqv table decode encode fuel entropy e w
    = Some w' →
  world_ok w' ∧ humans_wait (server w').
Proof.
  intros Hw Hwait. destruct e as [now_ms ts data addr|ts key due]; cbn [run_event].
  - pose proof (_handle_packet_step decode encode fuel entropy now_ms ts data
                  addr w Hw) as Hstep.
    destruct (_handle_packet decode encode fuel entropy now_ms ts data addr w)
      as [w1|]; [|discriminate].
    intros [= <-]. destruct Hstep as [Hw1 Hstep]. split; [exact Hw1|].
    by apply (lobbies_step_humans_wait (server w)).
  - destruct (lobbies (server w) !! key) as [lb|] eqn:Hlb.
    + intros [= <-].
      pose proof (tick_lobby_step delay_after reached gt eqv table entropy ts
                    (server w) key lb due (proj1 Hw) Hlb) as Hstep.
      split; [split|].
      * cbn [server]. by apply (lobbies_step_server_ok (server w)).
      * exact (proj2 Hw).
      * cbn [server]. by apply (lobbies_step_humans_wait (server w)).
    + intros [= <-]. by split.
Qed.

Lemma run_events_inv {Time V : Type} (delay_after : Time → Z → Time)
    (reached : Time → Time → bool) (gt eqv : V → V → bool)
    (table : option (gmap QKey V)) (decode : list Z → string)
    (encode : string → list Z) fuel entropy (events : list (Event Time)) w w' :
  world_ok w → humans_wait (server w) →
  run_events delay_after reached gt eqv table decode encode fuel entropy
    events w = Some w' →
  world_ok w' ∧ humans_wait (server w').
Proof.
  revert w. induction events as [|e events IH]; intros w Hw Hwait.
  - intros [= <-]. by split.
  - cbn [run_events].
    destruct (run_event delay_after reached gt eqv table decode encode fuel
                entropy e w) as [w1|] eqn:Hstep; [|discriminate].
    destruct (run_event_inv delay_after reached gt eqv table decode encode
                fuel entropy e w w1 Hw Hwait Hstep) as [Hw1 Hwait1].
    by apply IH.
Qed.

(** X28: from the start of the server, whatever datagrams arrive and
    whatever turns the bots take, a lobby whose mode is neither that of the
    CPU nor that of the AI is still waiting, not started, with at most one
    seat taken: no request seats a second player, so a game between two
    players never begins. *)
Theorem pvp_lobby_never_starts {Time V : Type} (delay_after : Time → Z → Time)
    (reached : Time → Time → bool) (gt eqv : V → V → bool)
    (table : option (gmap QKey V)) (decode : list Z → string)
    (encode : string → list Z) fuel entropy (events : list (Event Time))
    w key lb :
  run_events delay_after reached gt eqv table decode encode fuel entropy
    events new_world = Some w →
  lobbies (server w) !! key = Some lb →
  Lobby.mode lb ≠ GameMode.PLAYER_VS_CPU →
  Lobby.mode lb ≠ GameMode.PLAYER_VS_AI →
  Lobby.status lb = GameStatus.WAITING ∧ Lobby.started lb = false ∧
  (length (Lobby.players lb) ≤ 1)%nat.
Proof.
  intros Hrun Hlb.
  destruct (run_events_inv delay_after reached gt eqv table decode encode
              fuel entropy events new_world w world_ok_new) as [_ Hwait];
    [|exact Hrun|by apply (Hwait key lb)].
  intros key' lb' Hlb'. cbn [new_world server lobbies] in Hlb'.
  by rewrite lookup_empty in Hlb'.
Qed.

Lemma pvp_lobby_never_starts_witness :
  ∃ w lb,
    run_events (λ ts d, ts + d) Z.geb Z.gtb Z.eqb None
      (λ _, "hi") (λ _, [104; 105]) 1 (λ _, 41)
      [Packet 1000 1 [MessageType.CREATE_LOBBY; GameMode.PLAYER_VS_PLAYER]
         ("10.0.0.1", 4000);
       Packet 2000 2 [MessageType.JOIN_LOBBY; 0; 42] ("10.0.0.2", 4001);
       BotTurn 3 42 None]
      new_world = Some w ∧
    lobbies (server w) !! 42 = Some lb ∧
    Lobby.status lb = GameStatus.WAITING.
Proof.
  destruct (run_events (λ ts d, ts + d) Z.geb Z.gtb Z.eqb None
              (λ _, "hi") (λ _, [104; 105]) 1 (λ _, 41)
              [Packet 1000 1 [MessageType.CREATE_LOBBY; GameMode.PLAYER_VS_PLAYER]
                 ("10.0.0.1", 4000);
               Packet 2000 2 [MessageType.JOIN_LOBBY; 0; 42] ("10.0.0.2", 4001);
               BotTurn 3 42 None]
              new_world) as [w|] eqn:Hrun;
    [|vm_compute in Hrun; discriminate Hrun].
  destruct (lobbies (server w) !! 42) as [lb|] eqn:Hlb.
  - exists w, lb. split; [reflexivity|]. split; [exact Hlb|].
    assert (Lobby.mode lb = GameMode.PLAYER_VS_PLAYER) as Hmode.
    { pose proof Hrun as Hrun'. vm_compute in Hrun'. injection Hrun' as <-.
      vm_compute in Hlb. by injection Hlb as <-. }
    destruct (pvp_lobby_never_starts _ _ _ _ _ _ _ _ _ _ w 42 lb Hrun Hlb)
      as [Hstatus _]; [by rewrite Hmode..|exact Hstatus].
  - pose proof Hrun as Hrun'. vm_compute in Hrun'. injection Hrun' as <-.
    vm_compute in Hlb. discriminate Hlb.
Defined.

(** ** HELLO and the registry *)

(** X29: a HELLO request with its length byte names the player and is
    answered with one WELCOME datagram to the player's address: the tag,
    the player id in four bytes (high byte first), the length of the
    encoded name and the encoded name.  The name is "Player" when the
    length byte is 0, and otherwise the decoding of the bytes that follow,
    as many as the length byte says or as the datagram still holds. *)
Theorem hello_is_welcomed (decode : list Z → string)
    (encode : string → list Z) data player s name_len name :
  data !! 1%nat = Some name_len →
  name = (if name_len =? 0 then "Player"
          else decode (take (Z.to_nat name_len) (drop 2 data))) →
  0 ≤ Player.player_id player < 2 ^ 32 →
  (length (encode name) ≤ 255)%nat →
  _handle_hello decode encode data player s
    = (mkServer (lobbies s)
         (sent s ++
          [([MessageType.WELCOME] ++ be_bytes 4 (Player.player_id player)
            ++ [Z.of_nat (length (encode name))] ++ encode name,
            Player.address player)])
         (drawn s),
       set_name player name, Ok ()) ∧
  length (be_bytes 4 (Player.player_id player)) = 4%nat.
Proof.
  intros Hlen -> Hid Hname. split; [|apply be_bytes_length].
  unfold _handle_hello. rewrite Hlen. cbv zeta.
  cbn [set_name Player.player_id Player.address].
  rewrite (pack_I_id _ Hid). rewrite pack_B_byte by lia. reflexivity.
Qed.

Lemma hello_is_welcomed_witness :
  _handle_hello (λ _, "hi") (λ _, [104; 105]) [MessageType.HELLO; 0] alice
    (mkServer ∅ [] 0)
  = (mkServer ∅ [([MessageType.WELCOME; 0; 0; 0; 7; 2; 104; 105],
                  ("10.0.0.1", 4000))] 0,
     set_name alice "Player", Ok ()).
Proof.
  apply (hello_is_welcomed (λ _, "hi") (λ _, [104; 105])
           [MessageType.HELLO; 0] alice (mkServer ∅ [] 0) 0 "Player").
  - reflexivity.
  - reflexivity.
  - cbn [alice Player.player_id]. lia.
  - cbn [length]. lia.
Defined.

(** X30: the registry hands out one player object per address: a first
    datagram from an address registers a player named "Guest", in no lobby,
    under an id drawn from 1 .. 2^31 - 2, and records the time of the
    lookup as its last activity; looking the address up again gives that
    same player and draws nothing: of the whole registry it changes the
    last activity of that address only, to the time of the second lookup;
    and the players and last activities of other addresses stay as they
    were. *)
Theorem _get_or_create_player_again {Time : Type} entropy entropy'
    (ts ts' : Time) addr w :
  _get_or_create_player entropy' ts' addr
    (_get_or_create_player entropy ts addr w).1
    = (mkWorld (server (_get_or_create_player entropy ts addr w).1)
         (players_by_address (_get_or_create_player entropy ts addr w).1)
         (players_by_id (_get_or_create_player entropy ts addr w).1)
         (<[addr := ts']>
            (last_active (_get_or_create_player entropy ts addr w).1)),
       (_get_or_create_player entropy ts addr w).2) ∧
  last_active (_get_or_create_player entropy ts addr w).1 !! addr = Some ts ∧
  last_active
    (_get_or_create_player entropy' ts' addr
       (_get_or_create_player entropy ts addr w).1).1 !! addr = Some ts' ∧
  (players_by_address w !! addr = None →
   Player.name (_get_or_create_player entropy ts addr w).2 = "Guest" ∧
   Player.lobby_id (_get_or_create_player entropy ts addr w).2 = None ∧
   Player.address (_get_or_create_player entropy ts addr w).2 = addr ∧
   1 ≤ Player.player_id (_get_or_create_player entropy ts addr w).2
     < 2 ^ 31 - 1) ∧
  (∀ addr', addr' ≠ addr →
     players_by_address (_get_or_create_player entropy ts addr w).1 !! addr'
       = players_by_address w !! addr' ∧
     last_active (_get_or_create_player entropy ts addr w).1 !! addr'
       = last_active w !! addr').
Proof.
  unfold _get_or_create_player, refresh.
  destruct (players_by_address w !! addr) as [p|] eqn:Hp;
    cbn [fst snd server players_by_address players_by_id last_active].
  - rewrite Hp. cbn [fst last_active]. split; [reflexivity|].
    do 2 (split; [apply lookup_insert_eq|]).
    split; [discriminate|]. intros addr' Hne.
    split; [reflexivity|by apply lookup_insert_ne].
  - rewrite lookup_insert_eq. cbn [fst last_active]. split; [reflexivity|].
    do 2 (split; [apply lookup_insert_eq|]). split.
    + intros _. cbn [Player.name Player.lobby_id Player.address
                     Player.player_id].
      do 3 (split; [reflexivity|]). apply generate_player_id_range.
    + intros addr' Hne. split; by apply lookup_insert_ne.
Qed.
